(** * pytype/rewrite: the frame of the abstract virtual machine

    A shallow embedding of [pytype/rewrite/frame.py],
    [pytype/rewrite/abstract/utils.py] and [pytype/rewrite/analyze.py],
    with the properties of scope resolution, fold-back of nonlocals,
    call simulation and atomic reads stated over it.

    Python objects are modelled as follows.
    - A [dict] is an insertion-ordered association list with unique keys
      (iteration order is observable in [_merge_nonlocals_into]).
    - A [set] of names is a [gset string]; its iteration order is the one
      of [elements].
    - Two abstract values are the same object when they have the same
      structure; [==] on values is [value_eqb], which compares Unions as
      sets.
    - Exceptions are the [Raise] results of the [Result] monad.
    - Calls of [set_attribute] on abstract values are recorded, in order,
      as [AttrWrite] events.
    - A frame holds its creating frame ([f_back]) by value; every operation
      that mutates the creating frame returns the mutated copy. *)

From Stdlib Require Import ZArith Ascii.
From stdpp Require Import base decidable option list strings gmap.

Local Open Scope string_scope.

(** ** Exceptions and the result monad *)

Inductive Exc : Type :=
| KeyError (key : string)
| ValueError (msg : string)
| NotImplementedError (msg : string)
| AssertionError
| AttributeError
| TypeError
| IndexError.

Inductive Result (A : Type) : Type :=
| Ok (a : A)
| Raise (e : Exc).
Arguments Ok {A} a.
Arguments Raise {A} e.

Definition rbind {A B : Type} (m : Result A) (k : A -> Result B) : Result B :=
  match m with
  | Ok a => k a
  | Raise e => Raise e
  end.

Notation "'do' x <- m ; k" := (rbind m (fun x => k))
  (at level 10, x name, m at level 100, k at level 200).
Notation "'do' ' p <- m ; k" := (rbind m (fun x => match x with p => k end))
  (at level 10, p pattern, m at level 100, k at level 200).

Definition assert (b : bool) : Result unit :=
  if b then Ok tt else Raise AssertionError.

(** ** Insertion-ordered dictionaries *)

Module Dict.
Section dict.
Context {V : Type}.

Definition t := list (string * V).

Fixpoint get (d : t) (k : string) : option V :=
  match d with
  | [] => None
  | (k', v) :: d' => if String.eqb k' k then Some v else get d' k
  end.

(** [d[k] = v]: an existing key keeps its position, a new key goes last. *)
Fixpoint set (d : t) (k : string) (v : V) : t :=
  match d with
  | [] => [(k, v)]
  | (k', v') :: d' =>
      if String.eqb k' k then (k', v) :: d' else (k', v') :: set d' k v
  end.

Definition mem (d : t) (k : string) : bool :=
  match get d k with Some _ => true | None => false end.

Definition keys (d : t) : list string := map fst d.

(** [d[k]], raising [KeyError]. *)
Definition getitem (d : t) (k : string) : Result V :=
  match get d k with
  | Some v => Ok v
  | None => Raise (KeyError k)
  end.

(** [d1 == d2] on mappings: the same keys with equal values, in any
    order. *)
Definition eqb (veqb : V -> V -> bool) (d1 d2 : t) : bool :=
  let sub (a b : t) :=
    forallb (fun k => match get a k, get b k with
                      | Some x, Some y => veqb x y
                      | _, _ => false
                      end) (keys a) in
  sub d1 d2 && sub d2 d1.
End dict.
Arguments t V : clear implicits.
End Dict.

(** ** Abstract values, variables and bindings *)

(** [blocks.OrderedCode]: only what the frame reads off a code object. *)
Record OrderedCode : Type := mkCode {
  code_id : nat;
  qualname : string;
  python_version : nat * nat }.

(** [conditions.Condition]: an opaque token; [Binding(v)] carries [TRUE]. *)
Inductive Condition : Type :=
| TRUE
| Cond (id : nat).

#[local] Set Warnings "-register-all".

(** The values of [pytype.rewrite.abstract], with the constants they wrap,
    and [variables.Variable] / [variables.Binding] ([Variable] is a
    reserved word here: the type takes the name of the source's alias
    [_AbstractVariable]). *)
Inductive BaseValue : Type :=
| ANY
| Singleton (name : string)
| PythonConstant (constant : PyObj)
| Union (options : list BaseValue)
| SimpleFunction (name : string)
| InterpreterFunction (name : string) (code : OrderedCode)
    (enclosing_scope : list string) (parent_frame : string)
| BoundFunction (callself : BaseValue) (underlying : BaseValue)
| InterpreterClass (name : string) (members : list (string * BaseValue))
    (functions : list BaseValue) (classes : list BaseValue)
| BaseClass (name : string)
| BaseInstance (cls : BaseValue)
with PyObj : Type :=
| PyNone
| PyBool (b : bool)
| PyInt (z : Z)
| PyStr (s : string)
| PyCode (c : OrderedCode)
| PyTuple (elts : list AbstractVariable)
with AbstractVariable : Type :=
| mkVariable (bindings : list Binding) (name : option string)
with Binding : Type :=
| mkBinding (value : BaseValue) (condition : Condition).

Definition bindings (v : AbstractVariable) : list Binding :=
  match v with mkVariable b _ => b end.
Definition var_name (v : AbstractVariable) : option string :=
  match v with mkVariable _ n => n end.
Definition value (b : Binding) : BaseValue :=
  match b with mkBinding v _ => v end.

Definition OrderedCode_eq_dec (a b : OrderedCode) : {a = b} + {a <> b}.
Proof. repeat decide equality. Defined.

Definition Condition_eq_dec (a b : Condition) : {a = b} + {a <> b}.
Proof. repeat decide equality. Defined.

Definition named_eq_dec {A : Type} (dec : forall a b : A, {a = b} + {a <> b})
  (p q : string * A) : {p = q} + {p <> q}.
Proof. decide equality. apply String.string_dec. Defined.

Definition option_string_dec (a b : option string) : {a = b} + {a <> b}.
Proof. decide equality. apply String.string_dec. Defined.

(** Values of the same structure are the same value: this is what stands
    for the identity of objects, and for the equality of the frozen
    dataclasses [Variable] and [Binding]. *)
Fixpoint BaseValue_eq_dec (a b : BaseValue) {struct a} : {a = b} + {a <> b}
with PyObj_eq_dec (a b : PyObj) {struct a} : {a = b} + {a <> b}
with Variable_eq_dec (a b : AbstractVariable) {struct a} : {a = b} + {a <> b}
with Binding_eq_dec (a b : Binding) {struct a} : {a = b} + {a <> b}.
Proof.
  - decide equality;
      first [ apply String.string_dec
            | apply OrderedCode_eq_dec
            | apply (List.list_eq_dec String.string_dec)
            | apply (List.list_eq_dec BaseValue_eq_dec)
            | apply (List.list_eq_dec (named_eq_dec BaseValue_eq_dec)) ].
  - decide equality;
      first [ apply String.string_dec
            | apply Z.eq_dec
            | apply Bool.bool_dec
            | apply OrderedCode_eq_dec
            | apply (List.list_eq_dec Variable_eq_dec) ].
  - decide equality;
      first [ apply option_string_dec
            | apply (List.list_eq_dec Binding_eq_dec) ].
  - decide equality. apply Condition_eq_dec.
Defined.

#[export] Instance BaseValue_eqdec : EqDecision BaseValue := BaseValue_eq_dec.
#[export] Instance PyObj_eqdec : EqDecision PyObj := PyObj_eq_dec.
#[export] Instance Variable_eqdec : EqDecision AbstractVariable := Variable_eq_dec.
#[export] Instance Binding_eqdec : EqDecision Binding := Binding_eq_dec.

#[export] Instance OrderedCode_eqdec : EqDecision OrderedCode := OrderedCode_eq_dec.
#[export] Instance Condition_eqdec : EqDecision Condition := Condition_eq_dec.

(** ** Equality of values

    Modelled from the spec: [BaseValue.__eq__] of [abstract/base.py] is not
    part of the sources at hand. A Union is a deduplicated set of values:
    two Unions are equal when each option of one is equal to an option of the
    other, whatever the order of the options, their repetitions and their
    nesting in further Unions. Every other value is compared with a value of
    its own kind, field by field, and a Union is equal to no value of
    another kind. *)

(** [l == l'] on sequences: of the same length, and equal element by
    element. *)
Section list_eqb.
Context {A B : Type} (eqb : A -> B -> bool).

Fixpoint list_eqb (l : list A) (l' : list B) : bool :=
  match l, l' with
  | [], [] => true
  | x :: l, y :: l' => eqb x y && list_eqb l l'
  | _, _ => false
  end.

End list_eqb.

Definition is_Union (v : BaseValue) : bool :=
  match v with Union _ => true | _ => false end.

(** The options that a value stands for: the options of a Union, those of
    the Unions among them included, and the value itself when it is not a
    Union. *)
Fixpoint options_of (v : BaseValue) : list BaseValue :=
  match v with
  | Union options => flat_map options_of options
  | _ => [v]
  end.

(** [v == w], given [covers]: both are Unions or neither is, every option
    of [v] is equal to an option of [w], and every option of [w] to an option
    of [v]. *)
Definition equal_by (covers : bool -> BaseValue -> list BaseValue -> bool)
    (v w : BaseValue) : bool :=
  Bool.eqb (is_Union v) (is_Union w)
  && covers true v (options_of w)
  && forallb (fun y => covers false v [y]) (options_of w).

(** [covers true v ws]: every option of [v] is equal to a value of [ws];
    [covers false v ws]: some option of [v] is. The values of [ws] are not
    Unions. *)
Fixpoint covers (all : bool) (v : BaseValue) (ws : list BaseValue) {struct v} : bool :=
  match v with
  | Union options =>
      if all then forallb (fun x => covers all x ws) options
      else existsb (fun x => covers all x ws) options
  | ANY => existsb (fun w => match w with ANY => true | _ => false end) ws
  | Singleton name =>
      existsb (fun w => match w with
                        | Singleton name' => String.eqb name name'
                        | _ => false
                        end) ws
  | PythonConstant constant =>
      existsb (fun w => match w with
                        | PythonConstant constant' => constant_eqb constant constant'
                        | _ => false
                        end) ws
  | SimpleFunction name =>
      existsb (fun w => match w with
                        | SimpleFunction name' => String.eqb name name'
                        | _ => false
                        end) ws
  | InterpreterFunction name code enclosing_scope parent_frame =>
      existsb (fun w => match w with
                        | InterpreterFunction name' code' enclosing_scope' parent_frame' =>
                            String.eqb name name'
                            && bool_decide (code = code')
                            && bool_decide (enclosing_scope = enclosing_scope')
                            && String.eqb parent_frame parent_frame'
                        | _ => false
                        end) ws
  | BoundFunction callself underlying =>
      existsb (fun w => match w with
                        | BoundFunction callself' underlying' =>
                            equal_by covers callself callself'
                            && equal_by covers underlying underlying'
                        | _ => false
                        end) ws
  | InterpreterClass name members functions classes =>
      existsb (fun w => match w with
                        | InterpreterClass name' members' functions' classes' =>
                            String.eqb name name'
                            && list_eqb (fun '(k, m) '(k', m') =>
                                           String.eqb k k' && equal_by covers m m')
                                 members members'
                            && list_eqb (fun f f' => equal_by covers f f')
                                 functions functions'
                            && list_eqb (fun c c' => equal_by covers c c')
                                 classes classes'
                        | _ => false
                        end) ws
  | BaseClass name =>
      existsb (fun w => match w with
                        | BaseClass name' => String.eqb name name'
                        | _ => false
                        end) ws
  | BaseInstance cls =>
      existsb (fun w => match w with
                        | BaseInstance cls' => equal_by covers cls cls'
                        | _ => false
                        end) ws
  end
with constant_eqb (c c' : PyObj) {struct c} : bool :=
  match c, c' with
  | PyNone, PyNone => true
  | PyBool b, PyBool b' => Bool.eqb b b'
  | PyInt z, PyInt z' => Z.eqb z z'
  | PyStr s, PyStr s' => String.eqb s s'
  | PyCode code, PyCode code' => bool_decide (code = code')
  | PyTuple elts, PyTuple elts' => list_eqb variable_eqb elts elts'
  | _, _ => false
  end
with variable_eqb (x y : AbstractVariable) {struct x} : bool :=
  match x, y with
  | mkVariable bs name, mkVariable bs' name' =>
      list_eqb binding_eqb bs bs' && bool_decide (name = name')
  end
with binding_eqb (b b' : Binding) {struct b} : bool :=
  match b, b' with
  | mkBinding v condition, mkBinding v' condition' =>
      equal_by covers v v' && bool_decide (condition = condition')
  end.

(** [v == w]. *)
Definition value_eqb (v w : BaseValue) : bool := equal_by covers v w.

(** [values == values'] on tuples of values. *)
Definition values_eqb (values values' : list BaseValue) : bool :=
  list_eqb value_eqb values values'.

(** The distinct elements of a sequence of values, in the order of their
    first occurrence. Two values are the same value when they are equal. *)
Fixpoint unique_list (l : list BaseValue) : list BaseValue :=
  match l with
  | [] => []
  | x :: l' => x :: List.filter (fun y => negb (bool_decide (y = x))) (unique_list l')
  end.

(** Modelled from the spec: the class [Union] of [abstract/base.py] is not
    part of the sources at hand; a Union is a deduplicated set of values, so
    [Union(options)] keeps the distinct options. The options are held in the
    order they are given in; the equality of values above, [value_eqb],
    compares two Unions as sets. *)
Definition base_Union (options : list BaseValue) : BaseValue :=
  Union (unique_list options).

(** ** [variables.Variable]

    Modelled from the spec: [pytype/rewrite/flow/variables.py] is not part of
    the sources at hand. A Variable is an ordered sequence of Bindings with an
    optional display name; [values] are the distinct abstract values across
    all bindings; [get_atomic_value] returns the sole value if there is
    exactly one binding and it matches the variant filter, and fails with a
    "not a single concrete value" error otherwise. *)

Definition values (var : AbstractVariable) : list BaseValue :=
  unique_list (map value (bindings var)).

Definition with_name (var : AbstractVariable) (name : string) : AbstractVariable :=
  mkVariable (bindings var) (Some name).

(** [Binding(v)]: the default condition is [TRUE]. *)
Definition Binding_of (v : BaseValue) : Binding := mkBinding v TRUE.

(** [value.to_variable(name)]. *)
Definition to_variable (v : BaseValue) (name : option string) : AbstractVariable :=
  mkVariable [Binding_of v] name.

(** The variants that the frame and the utilities test values against. *)
Inductive ValueClass : Type :=
| cls_PythonConstant
| cls_SimpleFunction
| cls_InterpreterFunction
| cls_BoundFunction
| cls_InterpreterClass.

(** [isinstance(v, cls)]; [InterpreterFunction] derives from
    [SimpleFunction]. *)
Definition isinstance_value (v : BaseValue) (cls : ValueClass) : bool :=
  match cls, v with
  | cls_PythonConstant, PythonConstant _ => true
  | cls_SimpleFunction, SimpleFunction _ => true
  | cls_SimpleFunction, InterpreterFunction _ _ _ _ => true
  | cls_InterpreterFunction, InterpreterFunction _ _ _ _ => true
  | cls_BoundFunction, BoundFunction _ _ => true
  | cls_InterpreterClass, InterpreterClass _ _ _ _ => true
  | _, _ => false
  end.

Definition is_atomic (var : AbstractVariable) (typ : option ValueClass) : bool :=
  match bindings var, typ with
  | [b], None => true
  | [b], Some cls => isinstance_value (value b) cls
  | _, _ => false
  end.

Definition get_atomic_value (var : AbstractVariable) (typ : option ValueClass)
  : Result BaseValue :=
  match bindings var with
  | [b] => if is_atomic var typ then Ok (value b)
           else Raise (ValueError "Not an atomic variable")
  | _ => Raise (ValueError "Not an atomic variable")
  end.

Definition has_atomic_value (var : AbstractVariable) (v : BaseValue) : bool :=
  match bindings var with
  | [b] => bool_decide (value b = v)
  | _ => false
  end.

(** ** [abstract/utils.py] *)

(** The runtime classes of the literals a [PythonConstant] wraps. *)
Inductive PyType : Type :=
| t_NoneType | t_bool | t_int | t_str | t_OrderedCode | t_tuple.

(** A [typ] argument: a class, or a subscripted generic such as
    [Tuple[str, ...]] whose [get_origin] is a class. *)
Inductive TypeArg : Type :=
| Plain (t : PyType)
| Generic (origin : PyType).

Definition get_origin (typ : TypeArg) : option PyType :=
  match typ with
  | Plain _ => None
  | Generic o => Some o
  end.

(** [isinstance(constant, t)] on literals; [bool] derives from [int]. *)
Definition isinstance (constant : PyObj) (t : PyType) : bool :=
  match constant, t with
  | PyNone, t_NoneType => true
  | PyBool _, t_bool => true
  | PyBool _, t_int => true
  | PyInt _, t_int => true
  | PyStr _, t_str => true
  | PyCode _, t_OrderedCode => true
  | PyTuple _, t_tuple => true
  | _, _ => false
  end.

(** [get_origin(typ) or typ]. *)
Definition runtime_type (typ : TypeArg) : PyType :=
  match get_origin typ with
  | Some origin => origin
  | None => match typ with Plain t => t | Generic o => o end
  end.

Definition constant_of (v : BaseValue) : Result PyObj :=
  match v with
  | PythonConstant c => Ok c
  | _ => Raise AttributeError
  end.

Definition get_atomic_constant (var : AbstractVariable) (typ : option TypeArg)
  : Result PyObj :=
  do value <- get_atomic_value var (Some cls_PythonConstant);
  do constant <- constant_of value;
  match typ with
  | Some typ =>
      let runtime_type := runtime_type typ in
      if negb (isinstance constant runtime_type)
      then Raise (ValueError "Wrong constant type")
      else Ok constant
  | None => Ok constant
  end.

Definition flatten_variable (var : AbstractVariable) : BaseValue :=
  let values := values var in
  if Nat.ltb 1 (length values) then base_Union values
  else match values with
       | v :: _ => v
       | [] => ANY
       end.

(** Modelled from the spec: [abstract.join_values] is not part of the sources
    at hand; the join of a sequence of values is the single element if there
    is exactly one, [Any] if the sequence is empty, otherwise a [Union] of
    the distinct elements. *)
Definition join_values (values : list BaseValue) : BaseValue :=
  match values with
  | [] => ANY
  | [v] => v
  | _ => base_Union values
  end.

(** ** Collaborators of the frame

    Modelled from the spec: [pytype/rewrite/flow/state.py] and
    [pytype/rewrite/stack.py] are not part of the sources at hand. A state
    holds the current mapping from name to Variable, mutated by local-name
    store and load; a loaded Variable carries the name it was loaded under
    (as the frame does itself for its enclosing and global snapshots, and as
    [byte_STORE_ATTR] needs of its target). The data stack is a list whose
    head is the top of the stack. *)

Record BlockState : Type := mkBlockState {
  _locals : Dict.t AbstractVariable;
  _condition : Condition }.

Module State.
Definition load_local (s : BlockState) (name : string) : Result AbstractVariable :=
  do var <- Dict.getitem (_locals s) name;
  Ok (with_name var name).

Definition store_local (s : BlockState) (name : string) (var : AbstractVariable)
  : BlockState :=
  mkBlockState (Dict.set (_locals s) name var) (_condition s).

Definition get_locals (s : BlockState) : Dict.t AbstractVariable := _locals s.
End State.

Definition DataStack : Type := list AbstractVariable.

Module Stack.
Definition push (st : DataStack) (var : AbstractVariable) : DataStack := var :: st.

Definition pop (st : DataStack) : Result (AbstractVariable * DataStack) :=
  match st with
  | var :: st' => Ok (var, st')
  | [] => Raise IndexError
  end.

Definition top (st : DataStack) : Result AbstractVariable :=
  match st with
  | var :: _ => Ok var
  | [] => Raise IndexError
  end.

(** [bool(stack)]. *)
Definition nonempty (st : DataStack) : bool :=
  match st with [] => false | _ => true end.
End Stack.

(** The constants of the context ([ctx.consts]). *)
Definition const_NULL : BaseValue := Singleton "NULL".
Definition const_build_class : BaseValue := Singleton "__build_class__".

(** ** [_ShadowedNonlocals] *)

Record ShadowedNonlocals : Type := mkShadowed {
  _enclosing : gset string;
  _globals : gset string }.

Module Shadowed.
Definition init : ShadowedNonlocals := mkShadowed ∅ ∅.

Definition add_enclosing (s : ShadowedNonlocals) (name : string) : ShadowedNonlocals :=
  mkShadowed ({[name]} ∪ _enclosing s) (_globals s).

Definition add_global (s : ShadowedNonlocals) (name : string) : ShadowedNonlocals :=
  mkShadowed (_enclosing s) ({[name]} ∪ _globals s).

Definition has_enclosing (s : ShadowedNonlocals) (name : string) : bool :=
  bool_decide (name ∈ _enclosing s).

Definition has_global (s : ShadowedNonlocals) (name : string) : bool :=
  bool_decide (name ∈ _globals s).

Definition get_global_names (s : ShadowedNonlocals) : list string :=
  elements (_globals s).

Definition get_enclosing_names (s : ShadowedNonlocals) : list string :=
  elements (_enclosing s).
End Shadowed.

(** ** The frame *)

Inductive Frame : Type := mkFrame {
  frame_name : string;
  _code : OrderedCode;
  _current_state : option BlockState;
  _final_locals : option (Dict.t AbstractVariable);
  final_locals : option (Dict.t BaseValue);
  _initial_enclosing : Dict.t AbstractVariable;
  _initial_globals : Dict.t AbstractVariable;
  _f_back : option Frame;
  _stack : DataStack;
  _shadowed_nonlocals : ShadowedNonlocals;
  _functions : list BaseValue;
  _classes : list BaseValue;
  _returns : list AbstractVariable }.

(** Field updates. *)
Definition set__current_state (self : Frame) (x : option BlockState) : Frame :=
  mkFrame (frame_name self) (_code self) x (_final_locals self) (final_locals self) (_initial_enclosing self) (_initial_globals self) (_f_back self) (_stack self) (_shadowed_nonlocals self) (_functions self) (_classes self) (_returns self).
Definition set__final_locals (self : Frame) (x : option (Dict.t AbstractVariable)) : Frame :=
  mkFrame (frame_name self) (_code self) (_current_state self) x (final_locals self) (_initial_enclosing self) (_initial_globals self) (_f_back self) (_stack self) (_shadowed_nonlocals self) (_functions self) (_classes self) (_returns self).
Definition set_final_locals (self : Frame) (x : option (Dict.t BaseValue)) : Frame :=
  mkFrame (frame_name self) (_code self) (_current_state self) (_final_locals self) x (_initial_enclosing self) (_initial_globals self) (_f_back self) (_stack self) (_shadowed_nonlocals self) (_functions self) (_classes self) (_returns self).
Definition set__f_back (self : Frame) (x : option Frame) : Frame :=
  mkFrame (frame_name self) (_code self) (_current_state self) (_final_locals self) (final_locals self) (_initial_enclosing self) (_initial_globals self) x (_stack self) (_shadowed_nonlocals self) (_functions self) (_classes self) (_returns self).
Definition set__stack (self : Frame) (x : DataStack) : Frame :=
  mkFrame (frame_name self) (_code self) (_current_state self) (_final_locals self) (final_locals self) (_initial_enclosing self) (_initial_globals self) (_f_back self) x (_shadowed_nonlocals self) (_functions self) (_classes self) (_returns self).
Definition set__shadowed_nonlocals (self : Frame) (x : ShadowedNonlocals) : Frame :=
  mkFrame (frame_name self) (_code self) (_current_state self) (_final_locals self) (final_locals self) (_initial_enclosing self) (_initial_globals self) (_f_back self) (_stack self) x (_functions self) (_classes self) (_returns self).
Definition set__functions (self : Frame) (x : list BaseValue) : Frame :=
  mkFrame (frame_name self) (_code self) (_current_state self) (_final_locals self) (final_locals self) (_initial_enclosing self) (_initial_globals self) (_f_back self) (_stack self) (_shadowed_nonlocals self) x (_classes self) (_returns self).
Definition set__classes (self : Frame) (x : list BaseValue) : Frame :=
  mkFrame (frame_name self) (_code self) (_current_state self) (_final_locals self) (final_locals self) (_initial_enclosing self) (_initial_globals self) (_f_back self) (_stack self) (_shadowed_nonlocals self) (_functions self) x (_returns self).
Definition set__returns (self : Frame) (x : list AbstractVariable) : Frame :=
  mkFrame (frame_name self) (_code self) (_current_state self) (_final_locals self) (final_locals self) (_initial_enclosing self) (_initial_globals self) (_f_back self) (_stack self) (_shadowed_nonlocals self) (_functions self) (_classes self) x.

(** What the frame calls but does not define: the loader of builtins
    ([ctx.abstract_loader]), [call] of the abstract functions and classes,
    the stepping loop of [frame_base.FrameBase] and a flag of
    [pycnite.marshal]. The frame is settled for every behaviour of these. *)

(** [abstract.Args]; its [frame] field is the calling frame, which [call]
    receives and returns as it leaves it. *)
Record Args : Type := mkArgs { posargs : list AbstractVariable }.

(** What [call] returns: a child frame that ran, for an interpreter
    function, or another object exposing [get_return_value]. *)
Inductive CallReturn : Type :=
| FrameReturn (frame : Frame)
| ValueReturn (ret : BaseValue).

Class Collaborators : Type := {
  load_builtin_by_name : string -> Result BaseValue;
  call : BaseValue -> Args -> Frame -> Result (CallReturn * Frame);
  (** [while True: self.step()] until [FrameConsumedError]. *)
  run_steps : Frame -> Result Frame;
  MAKE_FUNCTION_HAS_FREE_VARS : N }.

(** [name.rpartition('.')]: split at the last dot; without a dot the head
    and the separator are empty. *)
Fixpoint rpartition (name : string) : string * string * string :=
  match name with
  | EmptyString => ("", "", "")
  | String c rest =>
      let '(head, dot, tail) := rpartition rest in
      if negb (String.eqb dot "") then (String c head, dot, tail)
      else if Ascii.eqb c "."%char then ("", ".", rest)
      else ("", "", String c tail)
  end.

(** A [set_attribute(attr_name, value)] call on [target]. *)
Record AttrWrite : Type := SetAttribute {
  aw_target : BaseValue;
  aw_attr_name : string;
  aw_value : BaseValue }.

Definition var_eqb (x y : AbstractVariable) : bool := bool_decide (x = y).

Definition _is_module_frame (self : Frame) : bool :=
  String.eqb (frame_name self) "__main__".

(** [Frame.__init__], with the state that [FrameBase.__init__] sets up. *)
Definition Frame_init (name : string) (code : OrderedCode)
    (initial_locals initial_enclosing initial_globals : Dict.t AbstractVariable)
    (f_back : option Frame) : Result Frame :=
  let self :=
    mkFrame name code (Some (mkBlockState initial_locals TRUE)) None None
      initial_enclosing initial_globals f_back [] Shadowed.init [] [] [] in
  do _ <- assert (negb (_is_module_frame self)
                  || Dict.eqb var_eqb initial_locals initial_globals);
  do _ <- assert (match f_back with Some _ => true | None => false end
                  || negb (match initial_enclosing with [] => false | _ => true end));
  Ok self.


(** [self._current_state], which is [None] once the frame has finished. *)
Definition current_state (self : Frame) : Result BlockState :=
  match _current_state self with
  | Some s => Ok s
  | None => Raise AttributeError
  end.

Definition store_local (self : Frame) (name : string) (var : AbstractVariable)
  : Result Frame :=
  do s <- current_state self;
  Ok (set__current_state self (Some (State.store_local s name var))).

Definition store_enclosing (self : Frame) (name : string) (var : AbstractVariable)
  : Result Frame :=
  do self <- store_local self name var;
  Ok (set__shadowed_nonlocals self
        (Shadowed.add_enclosing (_shadowed_nonlocals self) name)).

Definition store_global (self : Frame) (name : string) (var : AbstractVariable)
  : Result Frame :=
  do self <- store_local self name var;
  Ok (set__shadowed_nonlocals self
        (Shadowed.add_global (_shadowed_nonlocals self) name)).

Definition store_deref (self : Frame) (name : string) (var : AbstractVariable)
  : Result Frame :=
  if Dict.mem (_initial_enclosing self) name
  then store_enclosing self name var
  else store_local self name var.

Definition _shadows_enclosing (self : Frame) (name : string) : bool :=
  Shadowed.has_enclosing (_shadowed_nonlocals self) name.

Definition _shadows_global (self : Frame) (name : string) : bool :=
  if _is_module_frame self then false
  else Shadowed.has_global (_shadowed_nonlocals self) name.

Definition load_local (self : Frame) (name : string) : Result AbstractVariable :=
  if _shadows_enclosing self name || _shadows_global self name
  then Raise (KeyError name)
  else do s <- current_state self; State.load_local s name.

Definition load_enclosing (self : Frame) (name : string) : Result AbstractVariable :=
  if _shadows_enclosing self name
  then do s <- current_state self; State.load_local s name
  else do var <- Dict.getitem (_initial_enclosing self) name;
       Ok (with_name var name).

(** [try: ... except KeyError: handler]. *)
Definition except_KeyError {A : Type} (body : Result A) (handler : Result A)
  : Result A :=
  match body with
  | Raise (KeyError _) => handler
  | r => r
  end.

Definition load_deref (self : Frame) (name : string) : Result AbstractVariable :=
  except_KeyError (load_local self name) (load_enclosing self name).

Section frame.
Context `{Collaborators}.

Definition load_builtin (self : Frame) (name : string) : Result AbstractVariable :=
  do builtin <- load_builtin_by_name name;
  Ok (to_variable builtin (Some name)).

Definition load_global (self : Frame) (name : string) : Result AbstractVariable :=
  if _shadows_global self name
  then do s <- current_state self; State.load_local s name
  else except_KeyError
         (if _is_module_frame self
          then do s <- current_state self; State.load_local s name
          else do var <- Dict.getitem (_initial_globals self) name;
               Ok (with_name var name))
         (load_builtin self name).

(** The loop of [make_child_frame] over [func.enclosing_scope]. *)
Fixpoint child_enclosing (self : Frame) (current_locals : Dict.t AbstractVariable)
    (enclosing_scope : list string) (initial_enclosing : Dict.t AbstractVariable)
  : Result (Dict.t AbstractVariable) :=
  match enclosing_scope with
  | [] => Ok initial_enclosing
  | name :: rest =>
      do var <-
        match Dict.get current_locals name with
        | Some var =>
            do _ <- assert (negb (_shadows_global self name)); Ok var
        | None => Dict.getitem (_initial_enclosing self) name
        end;
      child_enclosing self current_locals rest (Dict.set initial_enclosing name var)
  end.

(** The loop of [make_child_frame] over the shadowed global names. *)
Fixpoint child_globals (current_locals : Dict.t AbstractVariable)
    (names : list string) (initial_globals : Dict.t AbstractVariable)
  : Result (Dict.t AbstractVariable) :=
  match names with
  | [] => Ok initial_globals
  | name :: rest =>
      do var <- Dict.getitem current_locals name;
      child_globals current_locals rest (Dict.set initial_globals name var)
  end.

Definition make_child_frame (self : Frame) (func : BaseValue)
    (initial_locals : Dict.t AbstractVariable) : Result Frame :=
  match func with
  | InterpreterFunction func_name func_code enclosing_scope _ =>
      do current_locals <-
        match _final_locals self with
        | Some (_ :: _) =>
            match final_locals self with
            | Some fl => Ok (map (fun '(name, val) => (name, to_variable val None)) fl)
            | None => Raise AttributeError
            end
        | _ => do s <- current_state self; Ok (State.get_locals s)
        end;
      do initial_enclosing <-
        child_enclosing self current_locals enclosing_scope [];
      do initial_globals <-
        (if _is_module_frame self then Ok current_locals
         else child_globals current_locals
                (Shadowed.get_global_names (_shadowed_nonlocals self))
                (_initial_globals self));
      Frame_init func_name func_code initial_locals initial_enclosing
        initial_globals (Some self)
  | _ => Raise AttributeError
  end.

Definition get_return_value (self : Frame) : BaseValue :=
  let values := concat (map values (_returns self)) in
  join_values values.

(** The attribute writes of [_merge_nonlocals_into] for one item of
    [self._final_locals]; [frame] is the creating frame when it is live. *)
Definition merge_attribute (final_locals : Dict.t AbstractVariable)
    (name : string) (var : AbstractVariable)
    (frame : option Frame) : Result (option Frame * list AttrWrite) :=
  let '(target_name, dot, attr_name) := rpartition name in
  if String.eqb dot "" || negb (Dict.mem final_locals target_name)
  then Ok (frame, [])
  else
    do target_var <- Dict.getitem final_locals target_name;
    do store_on_target <-
      match frame with
      | Some frame =>
          match load_local frame target_name with
          | Raise (KeyError _) => Ok true
          | Raise e => Raise e
          | Ok frame_target_var =>
              Ok (negb (values_eqb (values target_var) (values frame_target_var)))
          end
      | None => Ok true
      end;
    if (store_on_target : bool)
    then
      let value := join_values (values var) in
      Ok (frame,
          map (fun target => SetAttribute target attr_name value)
              (values target_var))
    else
      match frame with
      | Some frame => do frame <- store_local frame name var; Ok (Some frame, [])
      | None => Raise AttributeError
      end.

Fixpoint merge_attributes (final_locals : Dict.t AbstractVariable)
    (items : list (string * AbstractVariable))
    (frame : option Frame) : Result (option Frame * list AttrWrite) :=
  match items with
  | [] => Ok (frame, [])
  | (name, var) :: rest =>
      do '(frame, writes) <- merge_attribute final_locals name var frame;
      do '(frame, writes') <- merge_attributes final_locals rest frame;
      Ok (frame, (writes ++ writes')%list)
  end.

(** The two loops that store the shadowed nonlocals into [frame]. *)
Fixpoint merge_names (store : Frame -> string -> AbstractVariable -> Result Frame)
    (final_locals : Dict.t AbstractVariable) (names : list string)
    (frame : Frame) : Result Frame :=
  match names with
  | [] => Ok frame
  | name :: rest =>
      do var <- Dict.getitem final_locals name;
      do frame <- store frame name var;
      merge_names store final_locals rest frame
  end.

Definition _merge_nonlocals_into (self : Frame) (frame : option Frame)
  : Result (option Frame * list AttrWrite) :=
  match _final_locals self with
  | None => Raise AttributeError
  | Some final_locals =>
      do '(frame, writes) <- merge_attributes final_locals final_locals frame;
      match frame with
      | None => Ok (None, writes)
      | Some frame =>
          do frame <- merge_names store_deref final_locals
                        (Shadowed.get_enclosing_names (_shadowed_nonlocals self))
                        frame;
          do frame <- merge_names store_global final_locals
                        (Shadowed.get_global_names (_shadowed_nonlocals self))
                        frame;
          Ok (Some frame, writes)
      end
  end.

(** [Frame.run]; the events are the [set_attribute] calls of the
    finalization, and the creating frame of the result is the creating
    frame as the finalization leaves it. *)
Definition run (self : Frame) : Result (Frame * list AttrWrite) :=
  do _ <- assert (negb (Stack.nonempty (_stack self)));
  do self <- run_steps self;
  do _ <- assert (negb (Stack.nonempty (_stack self)));
  let live_parent :=
    match _f_back self with
    | Some f_back =>
        match final_locals f_back with
        | None => Some f_back
        | Some _ => None
        end
    | None => None
    end in
  do '(merged, writes) <- _merge_nonlocals_into self live_parent;
  let self :=
    match merged with
    | Some f_back => set__f_back self (Some f_back)
    | None => self
    end in
  let self := set__current_state self None in
  match _final_locals self with
  | None => Raise AttributeError
  | Some fl =>
      Ok (set_final_locals self
            (Some (map (fun '(name, var) => (name, join_values (values var))) fl)),
          writes)
  end.

(** [ret.get_return_value()]. *)
Definition ret_get_return_value (ret : CallReturn) : BaseValue :=
  match ret with
  | FrameReturn frame => get_return_value frame
  | ValueReturn v => v
  end.

(** One iteration of the loop of [_call_function], on the callable
    [func]. *)
Definition call_one (self : Frame) (func : BaseValue) (args : Args)
  : Result (Frame * BaseValue) :=
  if isinstance_value func cls_SimpleFunction
     || isinstance_value func cls_InterpreterClass
     || isinstance_value func cls_BoundFunction
  then
    do '(ret, self) <- call func args self;
    Ok (self, ret_get_return_value ret)
  else if bool_decide (func = const_build_class)
  then
    match posargs args with
    | [class_body; name] =>
        do builder <- get_atomic_value class_body (Some cls_InterpreterFunction);
        do '(ret, self) <- call builder (mkArgs []) self;
        match ret with
        | FrameReturn frame =>
            do name <- get_atomic_constant name (Some (Plain t_str));
            match name, final_locals frame with
            | PyStr name, Some members =>
                let cls :=
                  InterpreterClass name members (_functions frame)
                    (_classes frame) in
                Ok (set__classes self (_classes self ++ [cls])%list, cls)
            | _, _ => Raise TypeError
            end
        | ValueReturn _ => Raise AttributeError
        end
    | _ => Raise (ValueError "unpack")
    end
  else Raise (NotImplementedError "CALL not fully implemented").

Fixpoint call_each (self : Frame) (funcs : list BaseValue) (args : Args)
    (ret_values : list BaseValue) : Result (Frame * list BaseValue) :=
  match funcs with
  | [] => Ok (self, ret_values)
  | func :: rest =>
      do '(self, ret) <- call_one self func args;
      call_each self rest args (ret_values ++ [ret])%list
  end.

Definition _call_function (self : Frame) (func_var : AbstractVariable)
    (args : Args) : Result Frame :=
  do '(self, ret_values) <- call_each self (values func_var) args [];
  Ok (set__stack self
        (Stack.push (_stack self) (mkVariable (map Binding_of ret_values) None))).

(** [opcode.arg] is all that [byte_MAKE_FUNCTION] reads off its opcode. *)
Definition version_ge (v w : nat * nat) : bool :=
  Nat.ltb (fst w) (fst v) || (Nat.eqb (fst v) (fst w) && Nat.leb (snd w) (snd v)).

Definition pop_stack (self : Frame) : Result (AbstractVariable * Frame) :=
  do '(var, st) <- Stack.pop (_stack self);
  Ok (var, set__stack self st).

Definition code_of (c : PyObj) : Result OrderedCode :=
  match c with PyCode code => Ok code | _ => Raise TypeError end.

Definition str_of (c : PyObj) : Result string :=
  match c with PyStr s => Ok s | _ => Raise TypeError end.

(** [tuple(freevar.name for freevar in freevars)] and
    [assert all(enclosing_scope)]. *)
Definition freevar_names (freevars : PyObj) : Result (list string) :=
  match freevars with
  | PyTuple elts =>
      let enclosing_scope := map var_name elts in
      do _ <- assert (forallb (fun n => match n with
                                        | Some s => negb (String.eqb s "")
                                        | None => false
                                        end) enclosing_scope);
      Ok (map (fun n => match n with Some s => s | None => "" end) enclosing_scope)
  | _ => Raise TypeError
  end.

Definition byte_MAKE_FUNCTION (self : Frame) (arg : N) : Result Frame :=
  if negb (N.eqb arg 0 || N.eqb arg MAKE_FUNCTION_HAS_FREE_VARS)
  then Raise (NotImplementedError "MAKE_FUNCTION not fully implemented")
  else
    do '(name, code, self) <-
      (if version_ge (python_version (_code self)) (3, 11)
       then
         do '(var, self) <- pop_stack self;
         do code <- rbind (get_atomic_constant var (Some (Plain t_OrderedCode))) code_of;
         Ok (qualname code, code, self)
       else
         do '(var, self) <- pop_stack self;
         do name <- rbind (get_atomic_constant var (Some (Plain t_str))) str_of;
         do '(var, self) <- pop_stack self;
         do code <- rbind (get_atomic_constant var (Some (Plain t_OrderedCode))) code_of;
         Ok (name, code, self));
    do '(enclosing_scope, self) <-
      (if negb (N.eqb (N.land arg MAKE_FUNCTION_HAS_FREE_VARS) 0)
       then
         do '(var, self) <- pop_stack self;
         do freevars <- get_atomic_constant var None;
         do enclosing_scope <- freevar_names freevars;
         Ok (enclosing_scope, self)
       else Ok ([], self));
    let func := InterpreterFunction name code enclosing_scope (frame_name self) in
    let self :=
      if negb (Stack.nonempty (_stack self)
               && match Stack.top (_stack self) with
                  | Ok top => has_atomic_value top const_build_class
                  | Raise _ => false
                  end)
      then set__functions self (_functions self ++ [func])%list
      else self in
    Ok (set__stack self (Stack.push (_stack self) (to_variable func None))).

End frame.

(** ** [analyze.py] *)

(** What the entry points call: [vm.VirtualMachine], the loader and the
    types they exchange. *)
Class VmLib : Type := {
  Options : Type;
  Loader : Type;
  VirtualMachine : Type;
  Context : Type;
  TypeDeclUnit : Type;
  from_source : string -> Options -> Result VirtualMachine;
  analyze_all_defs : VirtualMachine -> Result Context;
  infer_stub : VirtualMachine -> Result (Context * TypeDeclUnit);
  concat_all : Loader -> Result TypeDeclUnit }.

Definition _INIT_MAXIMUM_DEPTH : Z := 4.
Definition _MAXIMUM_DEPTH : Z := 3.

Section analyze.
Context `{VmLib}.

Record Analysis : Type := mkAnalysis {
  context : Context;
  ast : option TypeDeclUnit;
  ast_deps : option TypeDeclUnit }.

Definition check_types (src : string) (options : Options) (loader : Loader)
    (init_maximum_depth maximum_depth : Z) : Result Analysis :=
  do vm <- from_source src options;
  do ctx <- analyze_all_defs vm;
  Ok (mkAnalysis ctx None None).

Definition infer_types (src : string) (options : Options) (loader : Loader)
    (init_maximum_depth maximum_depth : Z) : Result Analysis :=
  do vm <- from_source src options;
  do '(ctx, ast) <- infer_stub vm;
  do deps <- concat_all loader;
  Ok (mkAnalysis ctx (Some ast) (Some deps)).

End analyze.

(** ** Observations on frames used in the statements *)

(** The Variable that the current state of [self] binds [name] to, if
    any, whether or not a shadow mark hides it from [load_local]. *)
Definition local_binding (self : Frame) (name : string) : option AbstractVariable :=
  match _current_state self with
  | Some s => Dict.get (_locals s) name
  | None => None
  end.

(** [name] is marked as shadowing a name of the enclosing scope, or of the
    global scope. *)
Definition marked_enclosing (self : Frame) (name : string) : Prop :=
  name ∈ _enclosing (_shadowed_nonlocals self).
Definition marked_global (self : Frame) (name : string) : Prop :=
  name ∈ _globals (_shadowed_nonlocals self).

(** What the stores into a frame leave alone: its name, its scopes, its
    final locals and its creating frame; and a state stays a state. *)
Definition same_scopes (f f' : Frame) : Prop :=
  frame_name f' = frame_name f
  /\ _initial_enclosing f' = _initial_enclosing f
  /\ _initial_globals f' = _initial_globals f
  /\ final_locals f' = final_locals f
  /\ _f_back f' = _f_back f
  /\ (is_Some (_current_state f) -> is_Some (_current_state f')).

(** ** The attribute writes of the fold-back, as the statements name them *)

(** A name of [final_locals] that stands for an attribute write: the
    target name before its last dot, the attribute name after it, and the
    Variable that [final_locals] binds the target name to. *)
Definition compound_target (final_locals : Dict.t AbstractVariable) (name : string)
  : option (string * string * AbstractVariable) :=
  let '(target_name, dot, attr_name) := rpartition name in
  if String.eqb dot "" then None
  else match Dict.get final_locals target_name with
       | Some target_var => Some (target_name, attr_name, target_var)
       | None => None
       end.

(** [set_attribute(attr_name, join(var.values))] on each value of the
    target. *)
Definition attribute_writes (attr_name : string) (target_var var : AbstractVariable)
  : list AttrWrite :=
  map (fun target => SetAttribute target attr_name (join_values (values var)))
      (values target_var).

(** The attribute writes of a frame whose creating frame is not live: for
    each name of the final locals, in order, the writes on the values of its
    target when the target name is bound in the final locals, and none
    otherwise. *)
Definition final_attribute_writes (fl : Dict.t AbstractVariable) : list AttrWrite :=
  flat_map (fun '(name, var) =>
              match compound_target fl name with
              | Some (_, a, tv) => attribute_writes a tv var
              | None => []
              end) fl.

(** [frame] holds a local binding of [target_name], one that [load_local]
    returns, with values equal to those of [target_var]. *)
Definition holds_identical (frame : Frame) (target_name : string)
    (target_var : AbstractVariable) : bool :=
  match load_local frame target_name with
  | Ok frame_target_var => values_eqb (values target_var) (values frame_target_var)
  | Raise _ => false
  end.

(** ** Concrete collaborators and frames, for the examples

    The stepping loop of the examples runs the body of [class C: a = 1] for
    the code object 7 and no instruction otherwise, and then does what
    [FrameBase.step] does as it leaves the last block: it records the locals
    of the current state as the final locals. Calling an interpreter
    function makes a child frame of the calling frame and runs it; calling
    anything else returns [Any]. There are no builtins. *)

Definition example_run_steps (self : Frame) : Result Frame :=
  do self <-
    (if Nat.eqb (code_id (_code self)) 7
     then store_local self "a" (to_variable (PythonConstant (PyInt 1)) None)
     else Ok self);
  do s <- current_state self;
  Ok (set__final_locals self (Some (State.get_locals s))).

Definition stepping_collaborators : Collaborators := {|
  load_builtin_by_name := fun name => Raise (KeyError name);
  call := fun _ _ frame => Ok (ValueReturn ANY, frame);
  run_steps := example_run_steps;
  MAKE_FUNCTION_HAS_FREE_VARS := 8 |}.

Definition example_call (func : BaseValue) (args : Args) (frame : Frame)
  : Result (CallReturn * Frame) :=
  match func with
  | InterpreterFunction _ _ _ _ =>
      do child <- make_child_frame frame func [];
      do '(child, _) <- @run stepping_collaborators child;
      Ok (FrameReturn child,
          match _f_back child with Some f_back => f_back | None => frame end)
  | _ => Ok (ValueReturn ANY, frame)
  end.

Definition example_collaborators : Collaborators := {|
  load_builtin_by_name := fun name => Raise (KeyError name);
  call := example_call;
  run_steps := example_run_steps;
  MAKE_FUNCTION_HAS_FREE_VARS := 8 |}.

Definition example_code (id : nat) (name : string) : OrderedCode :=
  mkCode id name (3, 11).

Definition int_const (z : Z) : BaseValue := PythonConstant (PyInt z).
Definition str_const (s : string) : BaseValue := PythonConstant (PyStr s).

(** A frame with the given locals, scopes and creating frame, about to
    run. *)
Definition example_frame (name : string) (id : nat)
    (locals enclosing globals : Dict.t AbstractVariable) (f_back : option Frame)
  : Frame :=
  mkFrame name (example_code id name) (Some (mkBlockState locals TRUE)) None None
    enclosing globals f_back [] Shadowed.init [] [] [].

(** [def f(): y = 1; def g(): nonlocal y; y = 2], as [g] is called from
    [f]: the module frame, the frame of [f] and the frame of [g]. *)
Definition example_module : Frame :=
  example_frame "__main__" 0 [] [] [] None.

Definition example_f : Frame :=
  example_frame "f" 1 [("y", to_variable (int_const 1) None)] [] []
    (Some example_module).

Definition example_g : Frame :=
  example_frame "g" 2 [] [("y", to_variable (int_const 1) None)] []
    (Some example_f).

(** The frame of [g] after [y = 2]. *)
Definition example_g_written : Frame :=
  match store_deref example_g "y" (to_variable (int_const 2) None) with
  | Ok self => self
  | Raise _ => example_g
  end.

(** ** Call simulation, as the statements name it *)

(** The callables that [_call_function] invokes through [call]. *)
Definition invoked (func : BaseValue) : bool :=
  isinstance_value func cls_SimpleFunction
  || isinstance_value func cls_InterpreterClass
  || isinstance_value func cls_BoundFunction.

Section simulated.
Context `{Collaborators}.

(** [simulates_one args self func self1 ret]: in [self], the callable
    [func] is simulated, leaves the frame [self1] and has the value [ret]
    collected. A callable that is invoked returns, through [call], a frame
    that ran, and the join of the values of all the Variables it returned is
    collected, or another result object, and the value it holds is collected;
    [__build_class__] runs the class body through [call] and has the class
    collected that it builds and records. Nothing else is simulated. *)
Inductive simulates_one (args : Args) : Frame -> BaseValue -> Frame -> BaseValue -> Prop :=
| simulates_frame self func frame self1 :
    invoked func = true ->
    call func args self = Ok (FrameReturn frame, self1) ->
    simulates_one args self func self1
      (join_values (concat (map values (_returns frame))))
| simulates_value self func ret self1 :
    invoked func = true ->
    call func args self = Ok (ValueReturn ret, self1) ->
    simulates_one args self func self1 ret
| simulates_class self class_body name builder frame self1 cls_name members :
    posargs args = [class_body; name] ->
    get_atomic_value class_body (Some cls_InterpreterFunction) = Ok builder ->
    call builder (mkArgs []) self = Ok (FrameReturn frame, self1) ->
    get_atomic_constant name (Some (Plain t_str)) = Ok (PyStr cls_name) ->
    final_locals frame = Some members ->
    simulates_one args self const_build_class
      (set__classes self1
         (_classes self1
          ++ [InterpreterClass cls_name members (_functions frame) (_classes frame)])%list)
      (InterpreterClass cls_name members (_functions frame) (_classes frame)).

(** [simulated args self funcs self' rets]: starting in [self], each
    callable of [funcs] is simulated in turn, each in the frame the previous
    one left, and has the matching value of [rets] collected; [self'] is the
    frame after the last one. *)
Inductive simulated (args : Args) : Frame -> list BaseValue -> Frame -> list BaseValue -> Prop :=
| simulated_nil self : simulated args self [] self []
| simulated_cons self func self1 ret funcs self' rets :
    simulates_one args self func self1 ret ->
    simulated args self1 funcs self' rets ->
    simulated args self (func :: funcs) self' (ret :: rets).

End simulated.

(** [g = C()] in a module that has finished, and the frame of
    [def h(): g.x = 1] as its stepping loop starts: the attribute write is
    the local name ["g.x"], and [g] is a global of the frame. *)
Definition example_instance : BaseValue := BaseInstance (BaseClass "C").

Definition example_finished_module : Frame :=
  mkFrame "__main__" (example_code 0 "__main__") None
    (Some [("g", to_variable example_instance None)])
    (Some [("g", example_instance)])
    [] [("g", to_variable example_instance None)] None [] Shadowed.init [] [] [].

Definition example_h : Frame :=
  example_frame "h" 3 [("g.x", to_variable (int_const 1) None)] []
    [("g", to_variable example_instance None)] (Some example_finished_module).

(** The frame of [def k(s): s.x = 1] called from [f] with its local [s]:
    [s] is a local of both frames, with the same value. *)
Definition example_f_with_s : Frame :=
  example_frame "f" 4 [("s", to_variable example_instance None)] [] []
    (Some example_module).

Definition example_k : Frame :=
  example_frame "k" 5
    [("s", to_variable example_instance None);
     ("s.x", to_variable (int_const 1) None)] [] []
    (Some example_f_with_s).

(** The frame of [class C: a = 1] and the operands of its
    [__build_class__] call. *)
Definition example_class_body : BaseValue :=
  InterpreterFunction "C" (example_code 7 "C") [] "__main__".

Definition example_class_args : Args :=
  mkArgs [to_variable example_class_body None; to_variable (str_const "C") None].

(** The frame of [def m(s): s.x = 1], run once the module has finished:
    [s] is a local of the frame. *)
Definition example_m : Frame :=
  example_frame "m" 6
    [("s", to_variable example_instance None);
     ("s.x", to_variable (int_const 1) None)] [] []
    (Some example_finished_module).

(** An entry point, taken as a function of its two depth arguments,
    depends on them: two choices of depths give different results. *)
Definition depends_on_depths {A : Type} (entry : Z -> Z -> A) : Prop :=
  exists init_maximum_depth maximum_depth init_maximum_depth' maximum_depth',
    entry init_maximum_depth maximum_depth
    <> entry init_maximum_depth' maximum_depth'.

(** A Variable that may hold a simple function or [__build_class__]. *)
Definition example_callables : AbstractVariable :=
  mkVariable [Binding_of (SimpleFunction "len"); Binding_of const_build_class] None.

(** The module frame as [byte_MAKE_FUNCTION] makes the class-body function
    of [class C: a = 1]: the code object, over [__build_class__], over
    [NULL]. *)
Definition example_making_class : Frame :=
  set__stack example_module
    [to_variable (PythonConstant (PyCode (example_code 7 "C"))) None;
     to_variable const_build_class None;
     to_variable const_NULL None].

(** The frames of [k] and of [m] as their stepping loops end; here [m] is
    called from the module frame, which is live and has no [s]. *)
Definition example_k_ended : Frame :=
  set__final_locals example_k
    (Some [("s", to_variable example_instance None);
           ("s.x", to_variable (int_const 1) None)]).

Definition example_m_ended : Frame :=
  set__f_back
    (set__final_locals example_m
       (Some [("s", to_variable example_instance None);
              ("s.x", to_variable (int_const 1) None)]))
    (Some example_module).

(** ** More of the frame: the opcodes

    Modelled from the spec: [pytype/rewrite/stack.py] is not part of the
    sources at hand. Besides push, pop and top, the frame pops the [n]
    topmost values at once; it reads them in the order they were pushed
    (in a call the callable lies under its arguments and comes first), and
    there must be [n] of them. *)

Module StackN.
Definition popn (st : DataStack) (n : nat)
  : Result (list AbstractVariable * DataStack) :=
  if Nat.ltb (length st) n then Raise IndexError
  else Ok (rev (firstn n st), skipn n st).

Definition pop_and_discard (st : DataStack) : Result DataStack :=
  do '(_, st) <- Stack.pop st; Ok st.
End StackN.

(** What [_load_attr] asks of an abstract value: [get_attribute], which
    returns [None] when the value has no such attribute. *)
Class Attributes : Type := {
  get_attribute : BaseValue -> string -> option BaseValue }.

Definition popn_stack (self : Frame) (n : nat)
  : Result (list AbstractVariable * Frame) :=
  do '(vars, st) <- StackN.popn (_stack self) n;
  Ok (vars, set__stack self st).

Definition push_stack (self : Frame) (var : AbstractVariable) : Frame :=
  set__stack self (Stack.push (_stack self) var).

(** [Frame.stack]: the frames from the outermost one to [self]. *)
Fixpoint Frame_stack (self : Frame) : list Frame :=
  match self with
  | mkFrame _ _ _ _ _ _ _ f_back _ _ _ _ _ =>
      (match f_back with
       | Some f_back => Frame_stack f_back
       | None => []
       end ++ [self])%list
  end.

(** Modelled from the spec: [InterpreterFunction.call] is not part of the
    sources at hand; invoking a function creates a child frame of the
    calling frame. The frame that [n] nested calls of [func] reach from
    [self]: each call makes, with [make_child_frame], a child frame of the
    frame of the call before it, as the simulation of a function that calls
    itself does. *)
Fixpoint nested_child_frames (self : Frame) (func : BaseValue) (n : nat)
  : Result Frame :=
  match n with
  | O => Ok self
  | S n =>
      do child <- make_child_frame self func [];
      nested_child_frames child func n
  end.

Definition byte_PRINT_EXPR (self : Frame) : Result Frame :=
  do st <- StackN.pop_and_discard (_stack self); Ok (set__stack self st).

Definition byte_POP_TOP (self : Frame) : Result Frame :=
  do st <- StackN.pop_and_discard (_stack self); Ok (set__stack self st).

Definition byte_DUP_TOP (self : Frame) : Result Frame :=
  do top <- Stack.top (_stack self); Ok (push_stack self top).

Definition byte_DUP_TOP_TWO (self : Frame) : Result Frame :=
  do '(vars, self) <- popn_stack self 2;
  match vars with
  | [a; b] => Ok (fold_left push_stack [a; b; a; b] self)
  | _ => Raise (ValueError "unpack")
  end.

Definition byte_RETURN_VALUE (self : Frame) : Result Frame :=
  do '(var, self) <- pop_stack self;
  Ok (set__returns self (_returns self ++ [var])%list).

Definition byte_STORE_NAME (self : Frame) (argval : string) : Result Frame :=
  do '(var, self) <- pop_stack self; store_local self argval var.

Definition byte_STORE_FAST (self : Frame) (argval : string) : Result Frame :=
  do '(var, self) <- pop_stack self; store_local self argval var.

Definition byte_STORE_GLOBAL (self : Frame) (argval : string) : Result Frame :=
  do '(var, self) <- pop_stack self; store_global self argval var.

Definition byte_STORE_DEREF (self : Frame) (argval : string) : Result Frame :=
  do '(var, self) <- pop_stack self; store_deref self argval var.

(** [bool(var.name)]: a name that is neither [None] nor empty. *)
Definition truthy_name (var : AbstractVariable) : option string :=
  match var_name var with
  | Some n => if String.eqb n "" then None else Some n
  | None => None
  end.

Definition byte_STORE_ATTR (self : Frame) (argval : string) : Result Frame :=
  let attr_name := argval in
  do '(vars, self) <- popn_stack self 2;
  match vars with
  | [attr; target] =>
      match truthy_name target with
      | None => Raise (NotImplementedError "Missing target name")
      | Some target_name =>
          let full_name := target_name ++ "." ++ attr_name in
          store_local self full_name attr
      end
  | _ => Raise (ValueError "unpack")
  end.

Definition byte_PUSH_NULL (self : Frame) : Result Frame :=
  Ok (push_stack self (to_variable const_NULL None)).

Definition byte_LOAD_BUILD_CLASS (self : Frame) : Result Frame :=
  Ok (push_stack self (to_variable const_build_class None)).

Definition byte_LOAD_FAST (self : Frame) (argval : string) : Result Frame :=
  do var <- load_local self argval; Ok (push_stack self var).

Definition byte_LOAD_DEREF (self : Frame) (argval : string) : Result Frame :=
  do var <- load_deref self argval; Ok (push_stack self var).

Definition byte_LOAD_CLOSURE (self : Frame) (argval : string) : Result Frame :=
  do var <- load_deref self argval; Ok (push_stack self var).

(** [_build_collection_from_stack] for [tuple] and [abstract.Tuple]: the
    constant wraps the tuple of the popped Variables. *)
Definition byte_BUILD_TUPLE (self : Frame) (arg : nat) : Result Frame :=
  let count := arg in
  do '(elements, self) <- popn_stack self count;
  Ok (push_stack self (to_variable (PythonConstant (PyTuple elements)) None)).

Section opcodes.
Context `{Collaborators}.

Definition byte_LOAD_NAME (self : Frame) (argval : string) : Result Frame :=
  let name := argval in
  do var <- except_KeyError (load_local self name) (load_global self name);
  Ok (push_stack self var).

Definition byte_LOAD_GLOBAL (self : Frame) (arg : N) (argval : string)
  : Result Frame :=
  let self :=
    if version_ge (python_version (_code self)) (3, 11)
       && negb (N.eqb (N.land arg 1) 0)
    then push_stack self (to_variable const_NULL None)
    else self in
  let name := argval in
  do var <- load_global self name;
  Ok (push_stack self var).

Context `{Attributes}.

(** The loop of [_load_attr] over the values of the target. *)
Fixpoint attr_bindings (targets : list BaseValue) (attr_name : string)
  : Result (list Binding) :=
  match targets with
  | [] => Ok []
  | target :: rest =>
      match get_attribute target attr_name with
      | None => Raise (NotImplementedError "Attribute error")
      | Some attr =>
          do bindings <- attr_bindings rest attr_name;
          Ok (Binding_of attr :: bindings)
      end
  end.

Definition _load_attr (self : Frame) (target_var : AbstractVariable)
    (attr_name : string) : Result AbstractVariable :=
  let name :=
    match truthy_name target_var with
    | Some target_name => Some (target_name ++ "." ++ attr_name)
    | None => None
    end in
  except_KeyError
    match name with
    | Some name => load_local self name
    | None => do _ <- current_state self; Raise (KeyError "None")
    end
    (do bindings <- attr_bindings (values target_var) attr_name;
     Ok (mkVariable bindings name)).

Definition byte_LOAD_ATTR (self : Frame) (argval : string) : Result Frame :=
  let attr_name := argval in
  do '(target_var, self) <- pop_stack self;
  do var <- _load_attr self target_var attr_name;
  Ok (push_stack self var).

Definition byte_LOAD_METHOD (self : Frame) (argval : string) : Result Frame :=
  let method_name := argval in
  do '(instance_var, self) <- pop_stack self;
  let self := push_stack self (to_variable const_NULL None) in
  do var <- _load_attr self instance_var method_name;
  Ok (push_stack self var).

Definition byte_CALL (self : Frame) (arg : nat) : Result Frame :=
  do '(vars, self) <- popn_stack self (arg + 2);
  match vars with
  | sentinel :: rest =>
      if negb (has_atomic_value sentinel const_NULL)
      then Raise (NotImplementedError "CALL not fully implemented")
      else match rest with
           | func :: args => _call_function self func (mkArgs args)
           | [] => Raise (ValueError "unpack")
           end
  | [] => Raise (ValueError "unpack")
  end.

Definition byte_CALL_FUNCTION (self : Frame) (arg : nat) : Result Frame :=
  do '(args, self) <- popn_stack self arg;
  do '(func, self) <- pop_stack self;
  _call_function self func (mkArgs args).

Definition byte_CALL_METHOD (self : Frame) (arg : nat) : Result Frame :=
  do '(args, self) <- popn_stack self arg;
  do '(func, self) <- pop_stack self;
  do st <- StackN.pop_and_discard (_stack self);
  let self := set__stack self st in
  _call_function self func (mkArgs args).

End opcodes.

(** A name has a dot. *)
Fixpoint contains_dot (s : string) : bool :=
  match s with
  | EmptyString => false
  | String c rest => Ascii.eqb c "."%char || contains_dot rest
  end.

(** The frames of [g] and of the module with the constant 5 on the stack. *)
Definition example_g_with_value : Frame :=
  set__stack example_g [to_variable (int_const 5) None].

Definition example_module_with_value : Frame :=
  set__stack example_module [to_variable (int_const 5) None].

(** A module that has finished without binding any name. *)
Definition example_finished_empty : Frame :=
  mkFrame "__main__" (example_code 0 "__main__") None (Some []) (Some [])
    [] [] None [] Shadowed.init [] [] [].

(** The frame of [g] after [global n; n = 3]. *)
Definition example_g_global : Frame :=
  match store_global example_g "n" (to_variable (int_const 3) None) with
  | Ok self => self
  | Raise _ => example_g
  end.

(** The module frame with an argument over a simple function over [NULL]
    on the stack, as a call of the function is about to be simulated. *)
Definition example_calling : Frame :=
  set__stack example_module
    [to_variable (int_const 1) None;
     to_variable (SimpleFunction "len") None;
     to_variable const_NULL None].

(** [LOAD_CLOSURE] for each of the names in turn. *)
Definition load_closures `{Collaborators} (self : Frame) (names : list string)
  : Result Frame :=
  fold_left (fun r name => rbind r (fun self => byte_LOAD_CLOSURE self name))
    names (Ok self).

(** Attributes for the examples: a class has its members, an instance the
    members of its class, and nothing else has any. *)
Definition example_attributes : Attributes := {|
  get_attribute := fix lookup (v : BaseValue) (attr_name : string) :=
    match v with
    | InterpreterClass _ members _ _ => Dict.get members attr_name
    | BaseInstance cls => lookup cls attr_name
    | _ => None
    end |}.

(** The class [C] with the member [a = 1], and the frame of [f] as
    [s.x = 1] is about to be stored: [s] on the stack over the constant 1. *)
Definition example_class_C : BaseValue :=
  InterpreterClass "C" [("a", int_const 1)] [] [].

Definition example_storing_attr : Frame :=
  set__stack example_f_with_s
    [with_name (to_variable example_instance None) "s";
     to_variable (int_const 1) None].

(** The class [D] with a method [m], and the module frame with an instance
    of [D] on its stack. *)
Definition example_class_D : BaseValue :=
  InterpreterClass "D" [("m", SimpleFunction "m")] [] [].

Definition example_loading_method : Frame :=
  set__stack example_module
    [with_name (to_variable (BaseInstance example_class_D) None) "d"].

(** [def f(): global s; s = C(); k(s)] with [def k(s): s.x = 1]: the frame
    of [f] binds [s] in its current state and marks it as a global; the frame
    of [k], called from it, has the same [s] and the local name ["s.x"]. *)
Definition example_f_global_s : Frame :=
  match store_global (example_frame "f" 4 [] [] [] (Some example_module)) "s"
          (to_variable example_instance None) with
  | Ok self => self
  | Raise _ => example_module
  end.

Definition example_k_of_global : Frame :=
  example_frame "k" 5
    [("s", to_variable example_instance None);
     ("s.x", to_variable (int_const 1) None)] [] []
    (Some example_f_global_s).

(** The frame of [k] as its stepping loop ends, when [s] is the union of
    two constants there and the union of the same constants, in the other
    order, in the frame of [f]; and when [k] has bound [s] to an instance of
    another class than [f] has. *)
Definition example_f_with_union : Frame :=
  example_frame "f" 4
    [("s", to_variable (Union [str_const "a"; int_const 1]) None)] [] []
    (Some example_module).

Definition example_k_union_ended : Frame :=
  set__final_locals
    (example_frame "k" 5 [] [] [] (Some example_f_with_union))
    (Some [("s", to_variable (Union [int_const 1; str_const "a"]) None);
           ("s.x", to_variable (int_const 1) None)]).

Definition example_k_rebound_ended : Frame :=
  set__final_locals example_k
    (Some [("s", to_variable (BaseInstance (BaseClass "D")) None);
           ("s.x", to_variable (int_const 1) None)]).

(** Collaborators whose stepping loop executes the [RETURN_VALUE]
    instructions of two functions: [def one(): return 1], the code object 8,
    and [def either(c)], the code object 10, which returns 1 on one path and
    ["a"] on the other. Calling an interpreter function makes a child frame
    of the calling frame and runs it; calling anything else returns [Any]. *)
Definition returning_run_steps (self : Frame) : Result Frame :=
  do self <-
    (if Nat.eqb (code_id (_code self)) 8
     then byte_RETURN_VALUE (push_stack self (to_variable (int_const 1) None))
     else if Nat.eqb (code_id (_code self)) 10
     then do self <- byte_RETURN_VALUE
                       (push_stack self (to_variable (int_const 1) None));
          byte_RETURN_VALUE (push_stack self (to_variable (str_const "a") None))
     else Ok self);
  do s <- current_state self;
  Ok (set__final_locals self (Some (State.get_locals s))).

Definition returning_stepping : Collaborators := {|
  load_builtin_by_name := fun name => Raise (KeyError name);
  call := fun _ _ frame => Ok (ValueReturn ANY, frame);
  run_steps := returning_run_steps;
  MAKE_FUNCTION_HAS_FREE_VARS := 8 |}.

Definition returning_call (func : BaseValue) (args : Args) (frame : Frame)
  : Result (CallReturn * Frame) :=
  match func with
  | InterpreterFunction _ _ _ _ =>
      do child <- make_child_frame frame func [];
      do '(child, _) <- @run returning_stepping child;
      Ok (FrameReturn child,
          match _f_back child with Some f_back => f_back | None => frame end)
  | _ => Ok (ValueReturn ANY, frame)
  end.

Definition returning_collaborators : Collaborators := {|
  load_builtin_by_name := fun name => Raise (KeyError name);
  call := returning_call;
  run_steps := returning_run_steps;
  MAKE_FUNCTION_HAS_FREE_VARS := 8 |}.

Definition example_one : BaseValue :=
  InterpreterFunction "one" (example_code 8 "one") [] "__main__".

Definition example_either : BaseValue :=
  InterpreterFunction "either" (example_code 10 "either") [] "__main__".

(** A Variable that may hold [one], [either] or the simple function
    [len]. *)
Definition example_returning : AbstractVariable :=
  mkVariable [Binding_of example_one; Binding_of example_either;
              Binding_of (SimpleFunction "len")] None.

(** * Properties *)

Example rpartition_attr : rpartition "self.a" = ("self", ".", "a").
Proof. reflexivity. Qed.
Example rpartition_nested : rpartition "a.b.c" = ("a.b", ".", "c").
Proof. reflexivity. Qed.
Example rpartition_plain : rpartition "abc" = ("", "", "abc").
Proof. reflexivity. Qed.

(** ** Dictionaries *)

Module DictFacts.
Section facts.
Context {V : Type}.
Implicit Types (d : Dict.t V) (k : string) (v : V).

Lemma get_set_eq d k v : Dict.get (Dict.set d k v) k = Some v.
Proof.
  induction d as [|[k' v'] d IH]; simpl.
  - by rewrite String.eqb_refl.
  - destruct (String.eqb k' k) eqn:E; simpl; rewrite E; auto.
Qed.

Lemma get_set_ne d k k' v : k <> k' -> Dict.get (Dict.set d k v) k' = Dict.get d k'.
Proof.
  intros Hne. induction d as [|[k0 v0] d IH]; simpl.
  - destruct (String.eqb k k') eqn:E; [|done].
    apply String.eqb_eq in E. contradiction.
  - destruct (String.eqb k0 k) eqn:E; simpl.
    + apply String.eqb_eq in E. subst k0.
      destruct (String.eqb k k') eqn:E'; [|done].
      apply String.eqb_eq in E'. contradiction.
    + by rewrite IH.
Qed.

Lemma get_Some_keys d k v : Dict.get d k = Some v -> k ∈ Dict.keys d.
Proof.
  induction d as [|[k0 v0] d IH]; simpl; [done|].
  destruct (String.eqb k0 k) eqn:E.
  - apply String.eqb_eq in E. subst. intros _. left.
  - intros Hg. right. auto.
Qed.

Lemma keys_get_Some d k : k ∈ Dict.keys d -> exists v, Dict.get d k = Some v.
Proof.
  induction d as [|[k0 v0] d IH]; simpl.
  - intros Hin. inversion Hin.
  - intros Hin. destruct (String.eqb k0 k) eqn:E; [eauto|].
    apply elem_of_cons in Hin as [->|Hin]; [|auto].
    by rewrite String.eqb_refl in E.
Qed.

Lemma get_None_keys d k : Dict.get d k = None <-> k ∉ Dict.keys d.
Proof.
  split.
  - intros Hg Hin. apply keys_get_Some in Hin as [v Hv]. congruence.
  - intros Hin. destruct (Dict.get d k) eqn:E; [|done].
    apply get_Some_keys in E. contradiction.
Qed.

Lemma mem_true d k : Dict.mem d k = true <-> exists v, Dict.get d k = Some v.
Proof.
  unfold Dict.mem. destruct (Dict.get d k); split; eauto; try done.
  intros [? ?]. done.
Qed.

(** Items with distinct keys are found under their key. *)
Lemma get_item d k v :
  NoDup (Dict.keys d) -> (k, v) ∈ d -> Dict.get d k = Some v.
Proof.
  induction d as [|[k0 v0] d IH]; simpl; intros Hnd Hin.
  - inversion Hin.
  - apply NoDup_cons in Hnd as [Hk0 Hnd].
    apply elem_of_cons in Hin as [Heq|Hin].
    + inversion Heq; subst. by rewrite String.eqb_refl.
    + destruct (String.eqb k0 k) eqn:E; [|auto].
      apply String.eqb_eq in E. subst k0. exfalso. apply Hk0.
      unfold Dict.keys. apply list_elem_of_fmap. by exists (k, v).
Qed.

End facts.
End DictFacts.




(** ** The join and the atomic reads *)

Lemma unique_list_In (l : list BaseValue) (y : BaseValue) :
  In y (unique_list l) <-> In y l.
Proof.
  induction l as [|x l IH]; simpl; [done|].
  rewrite List.filter_In, IH, negb_true_iff, bool_decide_eq_false.
  destruct (decide (y = x)) as [->|Hne]; intuition congruence.
Qed.

Lemma unique_list_NoDup (l : list BaseValue) : NoDup (unique_list l).
Proof.
  induction l as [|x l IH]; simpl; constructor.
  - rewrite list_elem_of_In, List.filter_In, negb_true_iff, bool_decide_eq_false.
    tauto.
  - apply NoDup_ListNoDup, List.NoDup_filter. by apply NoDup_ListNoDup.
Qed.

Lemma unique_list_fixed (l : list BaseValue) : NoDup l -> unique_list l = l.
Proof.
  induction 1 as [|x l Hx Hnd IH]; simpl; [done|]. rewrite IH. f_equal.
  clear IH Hnd. induction l as [|y l IH]; simpl; [done|].
  apply not_elem_of_cons in Hx as [Hne Hx].
  rewrite bool_decide_eq_false_2 by congruence. simpl. by rewrite IH.
Qed.

(** The values of a Variable are distinct, so a Union of them keeps them
    all. *)
Lemma base_Union_values (var : AbstractVariable) :
  base_Union (values var) = Union (values var).
Proof.
  unfold base_Union, values. by rewrite unique_list_fixed by apply unique_list_NoDup.
Qed.

Lemma flatten_variable_join (var : AbstractVariable) :
  flatten_variable var = join_values (values var).
Proof.
  unfold flatten_variable, join_values.
  destruct (values var) as [|v [|w vs]]; reflexivity.
Qed.

(** C6. [flatten_variable] returns [Any] for an empty value sequence, the
    single element when there is exactly one value, and a [Union] of the
    elements when there are two or more. *)
Theorem flatten_variable_cases (var : AbstractVariable) :
  flatten_variable var =
    match values var with
    | [] => ANY
    | [v] => v
    | v :: w :: vs => Union (v :: w :: vs)
    end.
Proof.
  unfold flatten_variable. pose proof (base_Union_values var) as Hu.
  destruct (values var) as [|v [|w vs]]; [reflexivity|reflexivity|exact Hu].
Qed.

Example flatten_two :
  flatten_variable
    (mkVariable [Binding_of (PythonConstant (PyInt 1));
                 Binding_of (PythonConstant (PyStr "s"))] (Some "z"))
  = Union [PythonConstant (PyInt 1); PythonConstant (PyStr "s")].
Proof. vm_compute. reflexivity. Qed.

(** C7. [get_atomic_constant] fails on a Variable with two or more bindings;
    on a Variable with a single [PythonConstant] binding it fails with a
    [ValueError] when the wrapped literal is not of the expected type and
    returns the unwrapped literal when it is (or when no type is asked
    for). *)
Theorem get_atomic_constant_contract :
  (forall (b1 b2 : Binding) (rest : list Binding) (name : option string)
          (typ : option TypeArg),
     get_atomic_constant (mkVariable (b1 :: b2 :: rest) name) typ
     = Raise (ValueError "Not an atomic variable"))
  /\ (forall (c : PyObj) (cond : Condition) (name : option string) (typ : TypeArg),
        get_atomic_constant
          (mkVariable [mkBinding (PythonConstant c) cond] name) (Some typ)
        = if isinstance c (runtime_type typ) then Ok c
          else Raise (ValueError "Wrong constant type"))
  /\ (forall (c : PyObj) (cond : Condition) (name : option string),
        get_atomic_constant
          (mkVariable [mkBinding (PythonConstant c) cond] name) None
        = Ok c).
Proof.
  split; [|split].
  - reflexivity.
  - intros c cond name typ. unfold get_atomic_constant, get_atomic_value. simpl.
    destruct typ as [t|o]; simpl; destruct (isinstance c _); reflexivity.
  - reflexivity.
Qed.

Example get_atomic_constant_two_bindings :
  get_atomic_constant
    (mkVariable [Binding_of (PythonConstant (PyStr "a"));
                 Binding_of (PythonConstant (PyStr "b"))] None)
    (Some (Plain t_str))
  = Raise (ValueError "Not an atomic variable").
Proof. reflexivity. Qed.

Example get_atomic_constant_wrong_type :
  get_atomic_constant
    (mkVariable [Binding_of (PythonConstant (PyStr "a"))] None)
    (Some (Plain t_tuple))
  = Raise (ValueError "Wrong constant type").
Proof. reflexivity. Qed.

Example get_atomic_constant_match :
  get_atomic_constant
    (mkVariable [Binding_of (PythonConstant (PyStr "a"))] None)
    (Some (Plain t_str))
  = Ok (PyStr "a").
Proof. reflexivity. Qed.

(** ** Equality of values *)

Lemma list_eqb_refl {A : Type} (eqb : A -> A -> bool) (l : list A) :
  Forall (fun x => eqb x x = true) l -> list_eqb eqb l l = true.
Proof. induction 1; simpl; [done|]. by rewrite H, IHForall. Qed.

Lemma equal_by_covers v :
  (forall ws, (forall x, In x (options_of v) -> In x ws) -> covers true v ws = true) ->
  (forall y, In y (options_of v) -> covers false v [y] = true) ->
  equal_by covers v v = true.
Proof.
  intros H1 H2. unfold equal_by. rewrite Bool.eqb_reflx, H1 by done. simpl.
  apply forallb_forall. intros y Hy. by apply H2.
Qed.

Lemma covers_options (v : BaseValue) :
  (forall ws, (forall x, In x (options_of v) -> In x ws) -> covers true v ws = true)
  /\ (forall y, In y (options_of v) -> covers false v [y] = true)
with constant_eqb_refl (c : PyObj) : constant_eqb c c = true
with variable_eqb_refl (x : AbstractVariable) : variable_eqb x x = true
with binding_eqb_refl (b : Binding) : binding_eqb b b = true.
Proof.
  - assert (Hhead : forall (f : BaseValue -> bool),
               options_of v = [v] -> f v = true ->
               (forall all ws, covers all v ws = existsb f ws) ->
               (forall ws, (forall x, In x (options_of v) -> In x ws) ->
                           covers true v ws = true)
               /\ (forall y, In y (options_of v) -> covers false v [y] = true)).
    { intros f Ho Hf Hc. rewrite Ho. split.
      - intros ws Hin. rewrite Hc. apply existsb_exists. exists v.
        split; [apply Hin; by left|exact Hf].
      - intros y [<-|[]]. rewrite Hc. simpl. by rewrite Hf. }
    destruct v as [|name|constant|options|name|name code scope pf|callself underlying
                  |name members functions classes|name|cls].
    + eapply Hhead; [reflexivity| |intros [] ws; reflexivity]. reflexivity.
    + eapply Hhead; [reflexivity| |intros [] ws; reflexivity]. simpl.
      apply String.eqb_refl.
    + eapply Hhead; [reflexivity| |intros [] ws; reflexivity].
      change (constant_eqb constant constant = true).
      apply constant_eqb_refl.
    + assert (Hall : Forall (fun x =>
                 (forall ws, (forall x0, In x0 (options_of x) -> In x0 ws) ->
                             covers true x ws = true)
                 /\ (forall y, In y (options_of x) -> covers false x [y] = true))
                 options).
      { clear Hhead. induction options as [|x options IH];
          [constructor|constructor; [apply covers_options|exact IH]]. }
      clear covers_options constant_eqb_refl variable_eqb_refl binding_eqb_refl.
      split.
      * intros ws Hin. simpl. apply forallb_forall. intros x Hx.
        rewrite List.Forall_forall in Hall. apply (Hall x Hx).
        intros x0 Hx0. apply Hin. simpl. apply in_flat_map. eauto.
      * intros y Hy. simpl in *. apply in_flat_map in Hy as (x & Hx & Hy).
        apply existsb_exists. exists x. split; [exact Hx|].
        rewrite List.Forall_forall in Hall. by apply (Hall x Hx).
    + eapply Hhead; [reflexivity| |intros [] ws; reflexivity]. simpl.
      apply String.eqb_refl.
    + eapply Hhead; [reflexivity| |intros [] ws; reflexivity]. simpl.
      rewrite String.eqb_refl, !bool_decide_eq_true_2 by done. simpl.
      apply String.eqb_refl.
    + eapply Hhead; [reflexivity| |intros [] ws; reflexivity].
      change (equal_by covers callself callself
              && equal_by covers underlying underlying = true).
      destruct (covers_options callself) as [Hc1 Hc2].
      destruct (covers_options underlying) as [Hu1 Hu2].
      by rewrite !equal_by_covers.
    + eapply Hhead; [reflexivity| |intros [] ws; reflexivity].
      change (String.eqb name name
              && list_eqb (fun '(k, m) '(k', m') =>
                             String.eqb k k' && equal_by covers m m')
                   members members
              && list_eqb (fun f f' => equal_by covers f f') functions functions
              && list_eqb (fun c c' => equal_by covers c c') classes classes
              = true).
      rewrite String.eqb_refl. cbn [andb].
      assert (Hm : Forall (fun p : string * BaseValue => equal_by covers p.2 p.2 = true) members).
      { clear Hhead. induction members as [|[k m] members IH];
          [constructor|constructor; [|exact IH]].
        simpl. destruct (covers_options m). by apply equal_by_covers. }
      assert (Hf : Forall (fun f => equal_by covers f f = true) functions).
      { clear Hhead. induction functions as [|f functions IH];
          [constructor|constructor; [|exact IH]].
        destruct (covers_options f). by apply equal_by_covers. }
      assert (Hc : Forall (fun f => equal_by covers f f = true) classes).
      { clear Hhead. induction classes as [|f classes IH];
          [constructor|constructor; [|exact IH]].
        destruct (covers_options f). by apply equal_by_covers. }
      clear covers_options constant_eqb_refl variable_eqb_refl binding_eqb_refl.
      rewrite (list_eqb_refl (fun f f' => equal_by covers f f') functions Hf),
        (list_eqb_refl (fun c c' => equal_by covers c c') classes Hc).
      rewrite !andb_true_r. apply list_eqb_refl.
      eapply List.Forall_impl; [|exact Hm]. intros [k m] Hkm. simpl in *.
      by rewrite String.eqb_refl.
    + eapply Hhead; [reflexivity| |intros [] ws; reflexivity]. simpl.
      apply String.eqb_refl.
    + eapply Hhead; [reflexivity| |intros [] ws; reflexivity].
      change (equal_by covers cls cls = true).
      destruct (covers_options cls). by apply equal_by_covers.
  - destruct c as [|b|z|s|code|elts]; simpl; try done.
    + apply Bool.eqb_reflx.
    + apply Z.eqb_refl.
    + apply String.eqb_refl.
    + by apply bool_decide_eq_true_2.
    + change (list_eqb variable_eqb elts elts = true). apply list_eqb_refl.
      induction elts as [|x elts IH];
        [constructor|constructor; [apply variable_eqb_refl|exact IH]].
  - destruct x as [bs name].
    change (list_eqb binding_eqb bs bs && bool_decide (name = name) = true).
    rewrite bool_decide_eq_true_2 by done.
    rewrite andb_true_r. apply list_eqb_refl.
    induction bs as [|b bs IH];
      [constructor|constructor; [apply binding_eqb_refl|exact IH]].
  - destruct b as [v condition].
    change (equal_by covers v v && bool_decide (condition = condition) = true).
    rewrite bool_decide_eq_true_2 by done.
    rewrite andb_true_r. destruct (covers_options v). by apply equal_by_covers.
Qed.

(** Values with the same options are equal: in particular a value is equal
    to itself, and a Union to the Union of the same options in another
    order. *)
Lemma value_eqb_same_options (v w : BaseValue) :
  is_Union v = is_Union w ->
  (forall x, In x (options_of v) <-> In x (options_of w)) ->
  value_eqb v w = true.
Proof.
  intros Hu Hopts. destruct (covers_options v) as [Hall Hsome].
  unfold value_eqb, equal_by. rewrite Hu, Bool.eqb_reflx. simpl.
  rewrite Hall by (intros x; apply Hopts). simpl.
  apply forallb_forall. intros y Hy. apply Hsome. by apply Hopts.
Qed.

Lemma value_eqb_refl (v : BaseValue) : value_eqb v v = true.
Proof. by apply value_eqb_same_options. Qed.

Lemma values_eqb_refl (l : list BaseValue) : values_eqb l l = true.
Proof.
  apply list_eqb_refl. apply List.Forall_forall. intros v _. apply value_eqb_refl.
Qed.

Lemma Union_reordered (options options' : list BaseValue) :
  Permutation options options' ->
  value_eqb (Union options) (Union options') = true.
Proof.
  intros Hp. apply value_eqb_same_options; [reflexivity|].
  intros x. simpl. rewrite !in_flat_map.
  split; intros (y & Hy & Hx); exists y; (split; [|exact Hx]).
  - by apply (Permutation_in _ Hp).
  - by apply (Permutation_in _ (Permutation_sym Hp)).
Qed.

Lemma Union_nested (options rest : list BaseValue) :
  value_eqb (Union (Union options :: rest)) (Union (options ++ rest)) = true.
Proof.
  apply value_eqb_same_options; [reflexivity|].
  intros x. simpl. by rewrite flat_map_app, !in_app_iff.
Qed.

(** The join does not depend on the order of the values. *)
Lemma join_values_reordered (l l' : list BaseValue) :
  Permutation l l' -> value_eqb (join_values l) (join_values l') = true.
Proof.
  intros Hp. pose proof (Permutation_length Hp) as Hlen.
  destruct l as [|a [|b l]], l' as [|a' [|b' l']]; try discriminate Hlen.
  - reflexivity.
  - apply Permutation_length_1 in Hp as ->. apply value_eqb_refl.
  - unfold join_values, base_Union. apply value_eqb_same_options; [reflexivity|].
    intros x. cbn [options_of]. rewrite !in_flat_map.
    split; intros (y & Hy & Hx); exists y; (split; [|exact Hx]);
      apply (proj2 (unique_list_In _ _)); apply (proj1 (unique_list_In _ _)) in Hy.
    + by apply (Permutation_in _ Hp).
    + by apply (Permutation_in _ (Permutation_sym Hp)).
Qed.

(** ** Construction of frames *)

Lemma Frame_init_Ok name code l e g fb f :
  Frame_init name code l e g fb = Ok f ->
  f = mkFrame name code (Some (mkBlockState l TRUE)) None None e g fb []
        Shadowed.init [] [] [].
Proof.
  unfold Frame_init. intros Hinit.
  destruct (assert _); simpl in Hinit; [|done].
  destruct (assert _); simpl in Hinit; [|done].
  by inversion Hinit.
Qed.


Example module_frame_distinct_scopes_fails :
  Frame_init "__main__" (mkCode 0 "<module>" (3, 11))
    [("x", to_variable ANY None)] [] [] None
  = Raise AssertionError.
Proof. vm_compute. reflexivity. Qed.

Example orphan_frame_with_enclosing_fails :
  Frame_init "f" (mkCode 1 "f" (3, 11))
    [] [("y", to_variable ANY None)] [] None
  = Raise AssertionError.
Proof. vm_compute. reflexivity. Qed.

(** ** Stores and loads *)

Lemma store_local_Ok self name var self' :
  store_local self name var = Ok self' ->
  exists s, _current_state self = Some s
    /\ self' = set__current_state self (Some (State.store_local s name var)).
Proof.
  unfold store_local, current_state. destruct (_current_state self) as [s|]; simpl.
  - intros [= <-]. by exists s.
  - done.
Qed.

Lemma store_local_binding_eq self name var self' :
  store_local self name var = Ok self' -> local_binding self' name = Some var.
Proof.
  intros (s & Hs & ->)%store_local_Ok. unfold local_binding. simpl.
  apply DictFacts.get_set_eq.
Qed.

Lemma store_local_binding_ne self name var self' name' :
  store_local self name var = Ok self' -> name <> name' ->
  local_binding self' name' = local_binding self name'.
Proof.
  intros (s & Hs & ->)%store_local_Ok Hne. unfold local_binding. simpl.
  rewrite Hs. by apply DictFacts.get_set_ne.
Qed.

Lemma store_enclosing_Ok self name var self' :
  store_enclosing self name var = Ok self' ->
  exists self1, store_local self name var = Ok self1
    /\ self' = set__shadowed_nonlocals self1
                 (Shadowed.add_enclosing (_shadowed_nonlocals self1) name).
Proof.
  unfold store_enclosing. destruct (store_local self name var) as [self1|]; simpl.
  - intros [= <-]. by exists self1.
  - done.
Qed.

Lemma store_global_Ok self name var self' :
  store_global self name var = Ok self' ->
  exists self1, store_local self name var = Ok self1
    /\ self' = set__shadowed_nonlocals self1
                 (Shadowed.add_global (_shadowed_nonlocals self1) name).
Proof.
  unfold store_global. destruct (store_local self name var) as [self1|]; simpl.
  - intros [= <-]. by exists self1.
  - done.
Qed.

Lemma load_state_binding self name var :
  local_binding self name = Some var ->
  (do s <- current_state self; State.load_local s name) = Ok (with_name var name).
Proof.
  unfold local_binding, current_state, State.load_local, Dict.getitem.
  destruct (_current_state self) as [s|]; [|done]. simpl. by intros ->.
Qed.

Lemma load_local_hidden self name :
  _shadows_enclosing self name || _shadows_global self name = true ->
  load_local self name = Raise (KeyError name).
Proof. unfold load_local. by intros ->. Qed.

Lemma load_local_visible self name var :
  _shadows_enclosing self name = false -> _shadows_global self name = false ->
  local_binding self name = Some var ->
  load_local self name = Ok (with_name var name).
Proof.
  unfold load_local. intros -> -> Hb. simpl. by apply load_state_binding.
Qed.

Lemma load_enclosing_shadowed self name var :
  _shadows_enclosing self name = true -> local_binding self name = Some var ->
  load_enclosing self name = Ok (with_name var name).
Proof. unfold load_enclosing. intros -> Hb. by apply load_state_binding. Qed.

Lemma shadows_enclosing_marked self name :
  _shadows_enclosing self name = true <-> marked_enclosing self name.
Proof. apply bool_decide_eq_true. Qed.

Lemma shadows_global_marked self name :
  _is_module_frame self = false ->
  _shadows_global self name = true <-> marked_global self name.
Proof. unfold _shadows_global. intros ->. apply bool_decide_eq_true. Qed.

(** What [load_deref] returns for a name bound in the current state: the
    binding, unless the name is hidden as a global and not marked as
    enclosing. *)
Lemma load_deref_binding self name var :
  local_binding self name = Some var ->
  _shadows_enclosing self name = true \/ _shadows_global self name = false ->
  load_deref self name = Ok (with_name var name).
Proof.
  intros Hb Hsh. unfold load_deref.
  destruct (_shadows_enclosing self name) eqn:He.
  - rewrite load_local_hidden by (by rewrite He). simpl.
    by apply load_enclosing_shadowed.
  - destruct Hsh as [|Hg]; [done|]. by rewrite (load_local_visible _ _ var).
Qed.

Section loads.
Context `{Collaborators}.

(** C9. In a frame that is not the module frame, a name marked as shadowing
    the enclosing scope (by [store_enclosing] or [store_deref]) or the global
    scope (by [store_global]) makes [load_local] raise [KeyError], although
    the current state holds a value for it; the value is read by
    [load_enclosing] and [load_deref], respectively by [load_global]. In the
    module frame, [store_global] shows to [load_local] what [store_local]
    would. *)
Theorem shadowed_names_hidden_from_load_local :
  (forall self name,
      _is_module_frame self = false ->
      marked_enclosing self name \/ marked_global self name ->
      load_local self name = Raise (KeyError name))
  /\ (forall self name var self',
        _is_module_frame self = false ->
        store_enclosing self name var = Ok self'
        \/ (Dict.mem (_initial_enclosing self) name = true
            /\ store_deref self name var = Ok self') ->
        marked_enclosing self' name
        /\ local_binding self' name = Some var
        /\ load_local self' name = Raise (KeyError name)
        /\ load_enclosing self' name = Ok (with_name var name)
        /\ load_deref self' name = Ok (with_name var name))
  /\ (forall self name var self',
        _is_module_frame self = false ->
        store_global self name var = Ok self' ->
        marked_global self' name
        /\ local_binding self' name = Some var
        /\ load_local self' name = Raise (KeyError name)
        /\ load_global self' name = Ok (with_name var name))
  /\ (forall self name var self' self'',
        _is_module_frame self = true ->
        store_global self name var = Ok self' ->
        store_local self name var = Ok self'' ->
        forall name', load_local self' name' = load_local self'' name').
Proof.
  split; [|split; [|split]].
  - intros self name Hmod Hmark. apply load_local_hidden.
    destruct Hmark as [He|Hg].
    + apply shadows_enclosing_marked in He. by rewrite He.
    + apply (shadows_global_marked _ _ Hmod) in Hg. rewrite Hg.
      by rewrite orb_true_r.
  - intros self name var self' Hmod Hst.
    assert (Hse : store_enclosing self name var = Ok self').
    { destruct Hst as [|[Hin Hst]]; [done|].
      unfold store_deref in Hst. by rewrite Hin in Hst. }
    clear Hst. apply store_enclosing_Ok in Hse as (self1 & Hsl & ->).
    assert (Hmark : marked_enclosing
      (set__shadowed_nonlocals self1
         (Shadowed.add_enclosing (_shadowed_nonlocals self1) name)) name).
    { unfold marked_enclosing. simpl.
      apply elem_of_union_l, elem_of_singleton. reflexivity. }
    assert (Hb : local_binding
      (set__shadowed_nonlocals self1
         (Shadowed.add_enclosing (_shadowed_nonlocals self1) name)) name
      = Some var).
    { by apply store_local_binding_eq in Hsl. }
    pose proof (proj2 (shadows_enclosing_marked _ _) Hmark) as Hsh.
    repeat split; try done.
    + apply load_local_hidden. by rewrite Hsh.
    + by apply load_enclosing_shadowed.
    + apply load_deref_binding; auto.
  - intros self name var self' Hmod Hsg.
    apply store_global_Ok in Hsg as (self1 & Hsl & ->).
    set (self' := set__shadowed_nonlocals self1 _).
    assert (Hmod' : _is_module_frame self' = false).
    { apply store_local_Ok in Hsl as (s & _ & ->). exact Hmod. }
    assert (Hmark : marked_global self' name).
    { unfold marked_global. simpl.
      apply elem_of_union_l, elem_of_singleton. reflexivity. }
    pose proof (proj2 (shadows_global_marked _ _ Hmod') Hmark) as Hsh.
    assert (Hb : local_binding self' name = Some var).
    { by apply store_local_binding_eq in Hsl. }
    repeat split; try done.
    + apply load_local_hidden. rewrite Hsh. by rewrite orb_true_r.
    + unfold load_global. rewrite Hsh. by apply load_state_binding.
  - intros self name var self' self'' Hmod Hsg Hsl name'.
    apply store_global_Ok in Hsg as (self1 & Hsl' & ->).
    rewrite Hsl in Hsl'. injection Hsl' as <-.
    apply store_local_Ok in Hsl as (s & Hs & ->).
    unfold load_local, _shadows_global, _shadows_enclosing, _is_module_frame in *.
    simpl. by rewrite Hmod.
Qed.

End loads.

(** ** Fold-back of the nonlocals *)

Lemma same_scopes_refl f : same_scopes f f.
Proof. unfold same_scopes. tauto. Qed.

Lemma same_scopes_trans f1 f2 f3 :
  same_scopes f1 f2 -> same_scopes f2 f3 -> same_scopes f1 f3.
Proof. unfold same_scopes. intuition congruence. Qed.

Lemma store_local_scopes self name var self' :
  store_local self name var = Ok self' ->
  same_scopes self self' /\ _shadowed_nonlocals self' = _shadowed_nonlocals self.
Proof.
  intros (s & Hs & ->)%store_local_Ok. unfold same_scopes. simpl.
  repeat split; eauto.
Qed.

Lemma store_local_total self name var :
  is_Some (_current_state self) -> exists self', store_local self name var = Ok self'.
Proof.
  intros [s Hs]. unfold store_local, current_state. rewrite Hs. simpl. eauto.
Qed.

Lemma store_deref_Ok self name var self' :
  store_deref self name var = Ok self' ->
  same_scopes self self'
  /\ local_binding self' name = Some var
  /\ (forall name', name <> name' -> local_binding self' name' = local_binding self name')
  /\ _globals (_shadowed_nonlocals self') = _globals (_shadowed_nonlocals self)
  /\ _enclosing (_shadowed_nonlocals self')
     = (if Dict.mem (_initial_enclosing self) name
        then {[name]} ∪ _enclosing (_shadowed_nonlocals self)
        else _enclosing (_shadowed_nonlocals self)).
Proof.
  unfold store_deref. destruct (Dict.mem _ name).
  - intros (self1 & Hsl & ->)%store_enclosing_Ok.
    pose proof (store_local_scopes _ _ _ _ Hsl) as [Hsc Hsh].
    split; [exact Hsc|]. split; [|split].
    + apply (store_local_binding_eq _ _ _ _ Hsl).
    + intros name' Hne. apply (store_local_binding_ne _ _ _ _ _ Hsl Hne).
    + simpl. by rewrite Hsh.
  - intros Hsl. pose proof (store_local_scopes _ _ _ _ Hsl) as [Hsc Hsh].
    split; [exact Hsc|]. rewrite Hsh. repeat split.
    + by eapply store_local_binding_eq.
    + intros. by eapply store_local_binding_ne.
Qed.

Lemma store_global_Ok' self name var self' :
  store_global self name var = Ok self' ->
  same_scopes self self'
  /\ local_binding self' name = Some var
  /\ (forall name', name <> name' -> local_binding self' name' = local_binding self name')
  /\ _enclosing (_shadowed_nonlocals self') = _enclosing (_shadowed_nonlocals self)
  /\ _globals (_shadowed_nonlocals self') = {[name]} ∪ _globals (_shadowed_nonlocals self).
Proof.
  intros (self1 & Hsl & ->)%store_global_Ok.
  pose proof (store_local_scopes _ _ _ _ Hsl) as [Hsc Hsh].
  split; [exact Hsc|]. split; [|split].
  - apply (store_local_binding_eq _ _ _ _ Hsl).
  - intros name' Hne. apply (store_local_binding_ne _ _ _ _ _ Hsl Hne).
  - simpl. by rewrite Hsh.
Qed.

Lemma store_deref_total self name var :
  is_Some (_current_state self) -> exists self', store_deref self name var = Ok self'.
Proof.
  intros Hs. destruct (store_local_total self name var Hs) as [self1 Hsl].
  unfold store_deref, store_enclosing. rewrite Hsl. simpl.
  destruct (Dict.mem _ _); eauto.
Qed.

Lemma store_global_total self name var :
  is_Some (_current_state self) -> exists self', store_global self name var = Ok self'.
Proof.
  intros Hs. destruct (store_local_total self name var Hs) as [self1 Hsl].
  unfold store_global. rewrite Hsl. simpl. eauto.
Qed.

Lemma getitem_Ok {V : Type} (d : Dict.t V) k v :
  Dict.getitem d k = Ok v <-> Dict.get d k = Some v.
Proof. unfold Dict.getitem. destruct (Dict.get d k); split; congruence. Qed.

Section merge_names.
Variable store : Frame -> string -> AbstractVariable -> Result Frame.
Variable fl : Dict.t AbstractVariable.
Hypothesis store_spec : forall self name var self',
  store self name var = Ok self' ->
  same_scopes self self'
  /\ local_binding self' name = Some var
  /\ (forall name', name <> name' -> local_binding self' name' = local_binding self name').
Hypothesis store_total : forall self name var,
  is_Some (_current_state self) -> exists self', store self name var = Ok self'.

(** After the loop every name of the loop is bound in [frame] to what
    [final_locals] binds it to, and no other binding has changed. *)
Lemma merge_names_bindings names frame frame' :
  merge_names store fl names frame = Ok frame' ->
  same_scopes frame frame'
  /\ forall name,
       (name ∈ names -> is_Some (Dict.get fl name)
                        /\ local_binding frame' name = Dict.get fl name)
       /\ (name ∉ names -> local_binding frame' name = local_binding frame name).
Proof.
  revert frame. induction names as [|n0 rest IH]; simpl; intros frame Hm.
  - injection Hm as <-. split; [apply same_scopes_refl|].
    intros name. split; [intros Hin; inversion Hin|done].
  - destruct (Dict.getitem fl n0) as [var0|] eqn:Hg; simpl in Hm; [|done].
    apply getitem_Ok in Hg.
    destruct (store frame n0 var0) as [frame1|] eqn:Hst; simpl in Hm; [|done].
    apply store_spec in Hst as (Hsc1 & Heq & Hne).
    apply IH in Hm as [Hsc Hb].
    split; [by eapply same_scopes_trans|].
    intros name. destruct (Hb name) as [Hin Hnin]. split.
    + intros Hel. destruct (decide (name ∈ rest)) as [Hr|Hr]; [auto|].
      apply elem_of_cons in Hel as [->|Hel]; [|done].
      rewrite (Hnin Hr), Heq, Hg. eauto.
    + intros Hel. apply not_elem_of_cons in Hel as [Hn0 Hr].
      rewrite (Hnin Hr). apply Hne. congruence.
Qed.

Lemma merge_names_total names frame :
  is_Some (_current_state frame) ->
  (forall name, name ∈ names -> is_Some (Dict.get fl name)) ->
  exists frame', merge_names store fl names frame = Ok frame'.
Proof.
  revert frame. induction names as [|n0 rest IH]; simpl; intros frame Hs Hall.
  - eauto.
  - destruct (Hall n0) as [var0 Hg]; [left|].
    apply getitem_Ok in Hg. rewrite Hg. simpl.
    destruct (store_total frame n0 var0 Hs) as [frame1 Hst]. rewrite Hst. simpl.
    apply IH.
    + apply store_spec in Hst as (Hsc & _). by apply Hsc.
    + intros name Hin. apply Hall. by right.
Qed.
End merge_names.

Lemma merge_attribute_skip fl name var frame :
  compound_target fl name = None ->
  merge_attribute fl name var frame = Ok (frame, []).
Proof.
  unfold compound_target, merge_attribute, Dict.mem.
  destruct (rpartition name) as [[t dot] a].
  destruct (String.eqb dot ""); simpl; [done|].
  by destruct (Dict.get fl t).
Qed.

Lemma merge_attribute_None fl name var t a tv :
  compound_target fl name = Some (t, a, tv) ->
  merge_attribute fl name var None = Ok (None, attribute_writes a tv var).
Proof.
  unfold compound_target, merge_attribute, Dict.mem, Dict.getitem.
  destruct (rpartition name) as [[t' dot] a'].
  destruct (String.eqb dot ""); simpl; [done|].
  destruct (Dict.get fl t') as [tv'|]; [|done].
  by intros [= -> -> ->].
Qed.

Lemma load_local_live_cases frame name :
  is_Some (_current_state frame) ->
  (exists var, load_local frame name = Ok var)
  \/ load_local frame name = Raise (KeyError name).
Proof.
  intros [s Hs]. unfold load_local, current_state, State.load_local, Dict.getitem.
  destruct (_ || _); [by right|]. rewrite Hs. simpl.
  destruct (Dict.get _ name); simpl; eauto.
Qed.

Lemma merge_attribute_live fl name var t a tv frame :
  compound_target fl name = Some (t, a, tv) ->
  is_Some (_current_state frame) ->
  merge_attribute fl name var (Some frame)
  = if holds_identical frame t tv
    then do frame' <- store_local frame name var; Ok (Some frame', [])
    else Ok (Some frame, attribute_writes a tv var).
Proof.
  unfold compound_target, merge_attribute, holds_identical, Dict.mem, Dict.getitem.
  destruct (rpartition name) as [[t' dot] a'].
  destruct (String.eqb dot ""); simpl; [done|].
  destruct (Dict.get fl t') as [tv'|]; [|done].
  intros [= -> -> ->] Hs. simpl.
  destruct (load_local_live_cases frame t Hs) as [[fv ->]| ->]; simpl; [|done].
  by destruct (values_eqb _ _).
Qed.

Lemma merge_attributes_app fl l1 l2 frame :
  merge_attributes fl (l1 ++ l2)%list frame
  = do '(frame1, w1) <- merge_attributes fl l1 frame;
    do '(frame2, w2) <- merge_attributes fl l2 frame1;
    Ok (frame2, (w1 ++ w2)%list).
Proof.
  revert frame. induction l1 as [|[n v] l1 IH]; intros frame; simpl.
  - destruct (merge_attributes fl l2 frame) as [[f2 w2]|]; reflexivity.
  - destruct (merge_attribute fl n v frame) as [[f0 w0]|]; simpl; [|done].
    rewrite IH.
    destruct (merge_attributes fl l1 f0) as [[f1 w1]|]; simpl; [|done].
    destruct (merge_attributes fl l2 f1) as [[f2 w2]|]; simpl; [|done].
    by rewrite app_assoc.
Qed.

(** Without a live creating frame every bound compound name is written on
    the values of its target. *)
Lemma merge_attributes_None fl items :
  merge_attributes fl items None
  = Ok (None,
        flat_map (fun '(name, var) =>
                    match compound_target fl name with
                    | Some (_, a, tv) => attribute_writes a tv var
                    | None => []
                    end) items).
Proof.
  induction items as [|[n v] items IH]; simpl; [done|].
  destruct (compound_target fl n) as [[[t a] tv]|] eqn:Hc.
  - rewrite (merge_attribute_None _ _ _ _ _ _ Hc). simpl. by rewrite IH.
  - rewrite (merge_attribute_skip _ _ _ _ Hc). simpl. by rewrite IH.
Qed.

(** With a live creating frame the loop succeeds and only binds names of
    its items in it. *)
Lemma merge_attributes_live fl items frame :
  is_Some (_current_state frame) ->
  exists frame' w,
    merge_attributes fl items (Some frame) = Ok (Some frame', w)
    /\ same_scopes frame frame'
    /\ _shadowed_nonlocals frame' = _shadowed_nonlocals frame
    /\ forall name, name ∉ Dict.keys items ->
         local_binding frame' name = local_binding frame name.
Proof.
  revert frame. induction items as [|[n v] items IH]; intros frame Hs; simpl.
  - exists frame, []. split; [reflexivity|].
    split; [apply same_scopes_refl|]. split; reflexivity.
  - assert (exists frame1 w1,
      merge_attribute fl n v (Some frame) = Ok (Some frame1, w1)
      /\ same_scopes frame frame1
      /\ _shadowed_nonlocals frame1 = _shadowed_nonlocals frame
      /\ forall name, name <> n -> local_binding frame1 name = local_binding frame name)
      as (frame1 & w1 & Hm & Hsc & Hsh & Hb).
    { destruct (compound_target fl n) as [[[t a] tv]|] eqn:Hc.
      - rewrite (merge_attribute_live _ _ _ _ _ _ _ Hc Hs).
        destruct (holds_identical frame t tv).
        + destruct (store_local_total frame n v Hs) as [frame1 Hst].
          rewrite Hst. simpl. exists frame1, [].
          destruct (store_local_scopes _ _ _ _ Hst) as [Hsc Hsh].
          split; [reflexivity|]. split; [exact Hsc|]. split; [exact Hsh|].
          intros name Hne. eapply store_local_binding_ne; eauto.
        + eexists _, _. split; [reflexivity|].
          split; [apply same_scopes_refl|]. split; reflexivity.
      - rewrite (merge_attribute_skip _ _ _ _ Hc).
        eexists _, _. split; [reflexivity|].
        split; [apply same_scopes_refl|]. split; reflexivity. }
    rewrite Hm. simpl.
    destruct (IH frame1) as (frame' & w & Hm' & Hsc' & Hsh' & Hb').
    { by apply Hsc. }
    rewrite Hm'. simpl. eexists _, _. split; [reflexivity|].
    split; [by eapply same_scopes_trans|]. split; [congruence|].
    intros name Hnin. apply not_elem_of_cons in Hnin as [Hne Hnin].
    rewrite Hb' by done. by apply Hb.
Qed.

Lemma merge_names_deref_marks fl names frame frame' :
  merge_names store_deref fl names frame = Ok frame' ->
  _globals (_shadowed_nonlocals frame') = _globals (_shadowed_nonlocals frame)
  /\ forall name,
       marked_enclosing frame' name
       <-> marked_enclosing frame name
           \/ (name ∈ names /\ Dict.mem (_initial_enclosing frame) name = true).
Proof.
  revert frame. induction names as [|n0 rest IH]; simpl; intros frame Hm.
  - injection Hm as <-. split; [done|]. intros name.
    split; [auto|]. intros [?|[Hin _]]; [done|inversion Hin].
  - destruct (Dict.getitem fl n0) as [var0|]; simpl in Hm; [|done].
    destruct (store_deref frame n0 var0) as [frame1|] eqn:Hst; simpl in Hm; [|done].
    apply store_deref_Ok in Hst as (Hsc & _ & _ & Hg & He).
    apply IH in Hm as [Hg' He']. split; [congruence|].
    intros name. rewrite He'. unfold marked_enclosing. rewrite He.
    destruct Hsc as (_ & -> & _).
    destruct (Dict.mem (_initial_enclosing frame) n0) eqn:Hn0.
    + rewrite elem_of_union, elem_of_singleton, elem_of_cons.
      split; [|intuition congruence].
      intros [[->|?]|[? ?]]; auto.
    + rewrite elem_of_cons. split; [intuition|].
      intros [?|[[->|?] Hmem]]; auto. congruence.
Qed.

Lemma merge_names_global_marks fl names frame frame' :
  merge_names store_global fl names frame = Ok frame' ->
  _enclosing (_shadowed_nonlocals frame') = _enclosing (_shadowed_nonlocals frame)
  /\ forall name,
       marked_global frame' name <-> marked_global frame name \/ name ∈ names.
Proof.
  revert frame. induction names as [|n0 rest IH]; simpl; intros frame Hm.
  - injection Hm as <-. split; [done|]. intros name.
    split; [auto|]. intros [?|Hin]; [done|inversion Hin].
  - destruct (Dict.getitem fl n0) as [var0|]; simpl in Hm; [|done].
    destruct (store_global frame n0 var0) as [frame1|] eqn:Hst; simpl in Hm; [|done].
    apply store_global_Ok' in Hst as (Hsc & _ & _ & He & Hg).
    apply IH in Hm as [He' Hg']. split; [congruence|].
    intros name. rewrite Hg'. unfold marked_global. rewrite Hg.
    rewrite elem_of_union, elem_of_singleton, elem_of_cons. tauto.
Qed.

Lemma store_deref_spec3 self name var self' :
  store_deref self name var = Ok self' ->
  same_scopes self self'
  /\ local_binding self' name = Some var
  /\ (forall name', name <> name' -> local_binding self' name' = local_binding self name').
Proof. intros H. apply store_deref_Ok in H. tauto. Qed.

Lemma store_global_spec3 self name var self' :
  store_global self name var = Ok self' ->
  same_scopes self self'
  /\ local_binding self' name = Some var
  /\ (forall name', name <> name' -> local_binding self' name' = local_binding self name').
Proof. intros H. apply store_global_Ok' in H. tauto. Qed.

(** The fold-back into a live creating frame succeeds when every name that
    the frame has marked is bound in its final locals; it binds each marked
    name in the creating frame to its final Variable and marks it there as
    [store_deref] and [store_global] do. *)
Lemma merge_nonlocals_live self fl frame :
  _final_locals self = Some fl ->
  is_Some (_current_state frame) ->
  (forall name, marked_enclosing self name \/ marked_global self name ->
                is_Some (Dict.get fl name)) ->
  exists frame1 frame' w,
    merge_attributes fl fl (Some frame) = Ok (Some frame1, w)
    /\ _merge_nonlocals_into self (Some frame) = Ok (Some frame', w)
    /\ same_scopes frame frame'
    /\ (forall name, marked_enclosing self name \/ marked_global self name ->
                     local_binding frame' name = Dict.get fl name)
    /\ (forall name, ~ (marked_enclosing self name \/ marked_global self name) ->
                     local_binding frame' name = local_binding frame1 name)
    /\ (forall name, marked_enclosing frame' name
                     <-> marked_enclosing frame name
                         \/ (marked_enclosing self name
                             /\ Dict.mem (_initial_enclosing frame) name = true))
    /\ (forall name, marked_global frame' name
                     <-> marked_global frame name \/ marked_global self name).
Proof.
  intros Hfl Hs Hbound.
  destruct (merge_attributes_live fl fl frame Hs) as (frame1 & w & Hm1 & Hsc1 & Hsh1 & _).
  assert (Hs1 : is_Some (_current_state frame1)) by by apply Hsc1.
  destruct (merge_names_total store_deref fl store_deref_spec3 store_deref_total
              (Shadowed.get_enclosing_names (_shadowed_nonlocals self)) frame1 Hs1)
    as [frame2 Hm2].
  { intros name Hin. apply Hbound. left.
    unfold Shadowed.get_enclosing_names in Hin.
    apply elem_of_elements in Hin. exact Hin. }
  pose proof (merge_names_bindings _ _ store_deref_spec3 _ _ _ Hm2) as [Hsc2 Hb2].
  pose proof (merge_names_deref_marks _ _ _ _ Hm2) as [Hg2 He2].
  assert (Hs2 : is_Some (_current_state frame2)) by by apply Hsc2.
  destruct (merge_names_total store_global fl store_global_spec3 store_global_total
              (Shadowed.get_global_names (_shadowed_nonlocals self)) frame2 Hs2)
    as [frame3 Hm3].
  { intros name Hin. apply Hbound. right.
    unfold Shadowed.get_global_names in Hin.
    apply elem_of_elements in Hin. exact Hin. }
  pose proof (merge_names_bindings _ _ store_global_spec3 _ _ _ Hm3) as [Hsc3 Hb3].
  pose proof (merge_names_global_marks _ _ _ _ Hm3) as [He3 Hg3].
  exists frame1, frame3, w. split; [exact Hm1|]. split.
  { unfold _merge_nonlocals_into. rewrite Hfl, Hm1. simpl.
    rewrite Hm2. simpl. by rewrite Hm3. }
  split. { eapply same_scopes_trans; [|exact Hsc3].
           eapply same_scopes_trans; [exact Hsc1|exact Hsc2]. }
  unfold Shadowed.get_enclosing_names, Shadowed.get_global_names in *.
  split; [|split; [|split]].
  - intros name Hmark.
    destruct (decide (name ∈ elements (_globals (_shadowed_nonlocals self)))) as [Hg|Hg].
    + by apply Hb3.
    + rewrite (proj2 (Hb3 name) Hg). apply Hb2.
      destruct Hmark as [He|Hg']; [by apply elem_of_elements|].
      exfalso. apply Hg. by apply elem_of_elements.
  - intros name Hmark.
    rewrite (proj2 (Hb3 name)), (proj2 (Hb2 name)); [done| |];
      rewrite elem_of_elements; unfold marked_enclosing, marked_global in Hmark; tauto.
  - intros name. unfold marked_enclosing at 1. rewrite He3.
    change (name ∈ _enclosing (_shadowed_nonlocals frame2))
      with (marked_enclosing frame2 name).
    rewrite He2, elem_of_elements. unfold marked_enclosing. rewrite Hsh1.
    destruct Hsc1 as (_ & -> & _). tauto.
  - intros name. rewrite Hg3, elem_of_elements. unfold marked_global.
    rewrite Hg2, Hsh1. tauto.
Qed.

(** ** Child frames *)

Lemma mem_set {V : Type} (d : Dict.t V) k v k' :
  Dict.mem (Dict.set d k v) k' = true <-> k = k' \/ Dict.mem d k' = true.
Proof.
  unfold Dict.mem. destruct (decide (k = k')) as [->|Hne].
  - rewrite DictFacts.get_set_eq. tauto.
  - rewrite DictFacts.get_set_ne by done. tauto.
Qed.

Lemma child_enclosing_Ok self current_locals scope acc res :
  child_enclosing self current_locals scope acc = Ok res ->
  (forall y, Dict.mem acc y = true -> Dict.mem res y = true)
  /\ forall y, y ∈ scope ->
       Dict.mem res y = true
       /\ (Dict.mem (_initial_enclosing self) y = true
           \/ _shadows_global self y = false).
Proof.
  revert acc. induction scope as [|n0 rest IH]; simpl; intros acc Hc.
  - injection Hc as <-. split; [done|]. intros y Hin. inversion Hin.
  - destruct (match Dict.get current_locals n0 with
              | Some var => _
              | None => _
              end) as [var0|] eqn:Hvar; simpl in Hc; [|done].
    apply IH in Hc as [Hacc Hscope]. split.
    + intros y Hy. apply Hacc, mem_set. by right.
    + intros y Hin. apply elem_of_cons in Hin as [->|Hin]; [|by apply Hscope].
      split; [apply Hacc, mem_set; by left|].
      destruct (Dict.get current_locals n0).
      * right. destruct (_shadows_global self n0); [done|reflexivity].
      * left. apply getitem_Ok in Hvar. apply DictFacts.mem_true. eauto.
Qed.

(** A child frame has the frame that made it as its creating frame, and
    every name of the function's enclosing scope in its initial enclosing
    scope; the frame that made it has such a name in its own enclosing scope
    or does not treat it as a global. *)
Lemma make_child_frame_enclosing self func_name func_code scope parent_frame
    initial_locals child :
  make_child_frame self
    (InterpreterFunction func_name func_code scope parent_frame) initial_locals
  = Ok child ->
  _f_back child = Some self
  /\ frame_name child = func_name
  /\ forall y, y ∈ scope ->
       Dict.mem (_initial_enclosing child) y = true
       /\ (Dict.mem (_initial_enclosing self) y = true
           \/ _shadows_global self y = false).
Proof.
  unfold make_child_frame.
  destruct (match _final_locals self with
            | Some (_ :: _) => _
            | _ => _
            end) as [current_locals|]; simpl; [|done].
  destruct (child_enclosing self current_locals scope []) as [enclosing|] eqn:He;
    simpl; [|done].
  destruct (if _is_module_frame self then _ else _) as [globals|]; simpl; [|done].
  intros Hinit. apply Frame_init_Ok in Hinit as ->. simpl.
  split; [reflexivity|]. split; [reflexivity|].
  by apply child_enclosing_Ok in He as [_ Hscope].
Qed.

Section finalization.
Context `{Collaborators}.

(** [run] up to the fold-back, when the stepping loop has ended in [self]
    with an empty stack and final locals. *)
Lemma run_unfold self0 self fl :
  _stack self0 = [] -> run_steps self0 = Ok self -> _stack self = [] ->
  _final_locals self = Some fl ->
  run self0
  = do '(merged, writes) <-
      _merge_nonlocals_into self
        match _f_back self with
        | Some f_back =>
            match final_locals f_back with
            | None => Some f_back
            | Some _ => None
            end
        | None => None
        end;
    Ok (set_final_locals
          (set__current_state
             match merged with
             | Some f_back => set__f_back self (Some f_back)
             | None => self
             end None)
          (Some (map (fun '(name, var) => (name, join_values (values var))) fl)),
        writes).
Proof.
  intros Hst0 Hrun Hst Hfl. unfold run. rewrite Hst0. simpl.
  rewrite Hrun. simpl. rewrite Hst. simpl.
  destruct (_merge_nonlocals_into self _) as [[merged writes]|]; simpl; [|done].
  destruct merged; simpl; by rewrite Hfl.
Qed.

(** C2. In a frame that is not the module frame and whose initial enclosing
    scope has [y], [load_deref y] after [store_deref y v] returns [v] (under
    the name [y]), not the enclosing snapshot. When the frame finalizes while
    its creating frame is live, [y] is stored into the creating frame with
    what the frame finally binds it to, and the creating frame reads it: with
    [load_deref], or with [load_global] when it treats [y] as a global; it
    reads it with [load_deref] whenever [y] is in its own enclosing scope, or
    it is the module frame, or neither frame has marked [y] as a global. *)
Theorem free_variable_write_visible :
  (forall self y v self',
      _is_module_frame self = false ->
      Dict.mem (_initial_enclosing self) y = true ->
      store_deref self y v = Ok self' ->
      load_deref self' y = Ok (with_name v y)
      /\ bindings (with_name v y) = bindings v)
  /\ (forall self0 self parent fl y var,
        _stack self0 = [] -> run_steps self0 = Ok self -> _stack self = [] ->
        _f_back self = Some parent ->
        final_locals parent = None ->
        is_Some (_current_state parent) ->
        _final_locals self = Some fl ->
        (forall name, marked_enclosing self name \/ marked_global self name ->
                      is_Some (Dict.get fl name)) ->
        Dict.mem (_initial_enclosing self) y = true ->
        marked_enclosing self y ->
        Dict.get fl y = Some var ->
        exists self' parent' writes,
          run self0 = Ok (self', writes)
          /\ _f_back self' = Some parent'
          /\ local_binding parent' y = Some var
          /\ (load_deref parent' y = Ok (with_name var y)
              \/ (_shadows_global parent' y = true
                  /\ load_global parent' y = Ok (with_name var y)))
          /\ (Dict.mem (_initial_enclosing parent) y = true
              \/ _is_module_frame parent = true
              \/ (~ marked_global parent y /\ ~ marked_global self y) ->
              load_deref parent' y = Ok (with_name var y))).
Proof.
  split.
  - intros self y v self' _ Hin Hst. split; [|reflexivity].
    apply store_deref_Ok in Hst as (_ & Hb & _ & _ & He).
    rewrite Hin in He. apply load_deref_binding; [done|]. left.
    apply shadows_enclosing_marked. unfold marked_enclosing. rewrite He.
    apply elem_of_union_l, elem_of_singleton. reflexivity.
  - intros self0 self parent fl y var Hst0 Hrun Hst Hback Hlive Hs Hfl Hbound
      Hin Hmark Hy.
    destruct (merge_nonlocals_live self fl parent Hfl Hs Hbound)
      as (frame1 & parent' & w & _ & Hm & Hsc & Hb & _ & He & Hg).
    exists (set_final_locals
              (set__current_state (set__f_back self (Some parent')) None)
              (Some (map (fun '(name, var) => (name, join_values (values var))) fl))),
      parent', w.
    assert (Hby : local_binding parent' y = Some var).
    { rewrite Hb by (by left). exact Hy. }
    split; [|split; [reflexivity|split; [exact Hby|split]]].
    + rewrite (run_unfold self0 self fl Hst0 Hrun Hst Hfl).
      rewrite Hback, Hlive, Hm. reflexivity.
    + destruct (_shadows_global parent' y) eqn:Hsg.
      * right. split; [reflexivity|]. unfold load_global. rewrite Hsg.
        by apply load_state_binding.
      * left. apply load_deref_binding; auto.
    + intros Hside. apply load_deref_binding; [exact Hby|].
      destruct Hside as [Hpe|[Hmod|[Hgp Hgs]]].
      * left. apply shadows_enclosing_marked, He. right. by split.
      * right. unfold _shadows_global, _is_module_frame in *.
        destruct Hsc as (-> & _). by rewrite Hmod.
      * right. unfold _shadows_global. destruct (_is_module_frame parent'); [done|].
        apply bool_decide_eq_false. fold (marked_global parent' y).
        rewrite Hg. tauto.
Qed.

End finalization.

Lemma free_variable_write_visible_witness :
  (load_deref example_g_written "y"
   = Ok (with_name (to_variable (int_const 2) None) "y")
   /\ bindings (with_name (to_variable (int_const 2) None) "y")
      = bindings (to_variable (int_const 2) None))
  /\ exists self' parent' writes,
       @run example_collaborators example_g_written = Ok (self', writes)
       /\ _f_back self' = Some parent'
       /\ local_binding parent' "y" = Some (to_variable (int_const 2) None)
       /\ load_deref parent' "y"
          = Ok (with_name (to_variable (int_const 2) None) "y").
Proof.
  split.
  - apply (proj1 (@free_variable_write_visible example_collaborators) example_g);
      vm_compute; reflexivity.
  - destruct (proj2 (@free_variable_write_visible example_collaborators)
             example_g_written
             (set__final_locals example_g_written
                (Some [("y", to_variable (int_const 2) None)]))
             example_f
             [("y", to_variable (int_const 2) None)]
             "y" (to_variable (int_const 2) None))
      as (self' & parent' & writes & Hrun & Hback & Hbinding & _ & Hload).
    + reflexivity.
    + vm_compute. reflexivity.
    + reflexivity.
    + reflexivity.
    + reflexivity.
    + vm_compute. eauto.
    + reflexivity.
    + intros name Hmark. assert (name = "y") as ->.
      { unfold marked_enclosing, marked_global in Hmark. simpl in Hmark.
        destruct Hmark as [Hm|Hm].
        - apply elem_of_union in Hm as [Hm|Hm].
          + by apply elem_of_singleton in Hm.
          + by apply elem_of_empty in Hm.
        - by apply elem_of_empty in Hm. }
      vm_compute. eauto.
    + reflexivity.
    + vm_compute. reflexivity.
    + reflexivity.
    + exists self', parent', writes. split; [exact Hrun|].
      split; [exact Hback|]. split; [exact Hbinding|]. apply Hload.
      right. right. split; vm_compute; intros Hx; discriminate Hx.
Defined.

(** ** Call simulation and class construction *)

Section calls.
Context `{Collaborators}.

(** One iteration of the loop succeeds exactly as [simulates_one] says. *)
Lemma call_one_simulates args self func self1 ret :
  call_one self func args = Ok (self1, ret) <-> simulates_one args self func self1 ret.
Proof.
  split.
  - unfold call_one. fold (invoked func). destruct (invoked func) eqn:Hinv.
    + destruct (call func args self) as [[[frame|v] self']|] eqn:Hc; simpl; [| |done].
      * intros [= <- <-]. by apply simulates_frame.
      * intros [= <- <-]. by apply simulates_value.
    + destruct (bool_decide (func = const_build_class)) eqn:Hb; [|done].
      apply bool_decide_eq_true in Hb as ->.
      destruct (posargs args) as [|class_body [|name [|? ?]]] eqn:Hargs; try done.
      destruct (get_atomic_value class_body _) as [builder|] eqn:Hbuilder;
        simpl; [|done].
      destruct (call builder _ self) as [[[frame|?] self']|] eqn:Hc; simpl; try done.
      destruct (get_atomic_constant name _) as [[| | |cls_name| |]|] eqn:Hname;
        simpl; try done.
      destruct (final_locals frame) as [members|] eqn:Hfl; [|done].
      intros [= <- <-]. by eapply simulates_class.
  - intros Hone. unfold call_one. fold (invoked func).
    destruct Hone as [self func frame self1 Hinv Hc|self func ret self1 Hinv Hc
                     |self class_body name builder frame self1 cls_name members
                        Hargs Hbuilder Hc Hname Hfl].
    + by rewrite Hinv, Hc.
    + by rewrite Hinv, Hc.
    + change (invoked const_build_class) with false. cbn [andb orb].
      rewrite bool_decide_eq_true_2 by done.
      rewrite Hargs, Hbuilder. simpl. rewrite Hc. simpl. rewrite Hname. simpl.
      by rewrite Hfl.
Qed.

Lemma call_each_simulated args funcs self acc self' rets :
  call_each self funcs args acc = Ok (self', rets)
  <-> exists rets', rets = (acc ++ rets')%list /\ simulated args self funcs self' rets'.
Proof.
  revert self acc. induction funcs as [|func funcs IH]; intros self acc; simpl.
  - split.
    + intros [= <- <-]. exists []. split; [by rewrite app_nil_r|constructor].
    + intros (rets' & -> & Hsim). inversion Hsim; subst. by rewrite app_nil_r.
  - split.
    + destruct (call_one self func args) as [[self1 ret]|] eqn:Hc; simpl; [|done].
      intros (rets' & -> & Hsim)%IH. exists (ret :: rets'). split.
      * by rewrite <- app_assoc.
      * econstructor; [by apply call_one_simulates|exact Hsim].
    + intros (rets' & -> & Hsim). inversion Hsim as [|? ? ? ? ? ? ? Hone Hrest]; subst.
      apply call_one_simulates in Hone. rewrite Hone. simpl.
      apply IH. eexists. split; [|eassumption]. by rewrite <- app_assoc.
Qed.

Lemma simulated_length args self funcs self' rets :
  simulated args self funcs self' rets -> length rets = length funcs.
Proof. induction 1; simpl; congruence. Qed.

Lemma call_each_unimplemented args l1 func l2 self acc self1 rets1 :
  simulated args self l1 self1 rets1 ->
  invoked func = false -> func <> const_build_class ->
  call_each self (l1 ++ func :: l2)%list args acc
  = Raise (NotImplementedError "CALL not fully implemented").
Proof.
  intros Hsim Hinv Hne. revert acc.
  induction Hsim as [self|self f self1 ret funcs self' rets Hc Hsim IH];
    intros acc; simpl.
  - unfold call_one. fold (invoked func). rewrite Hinv.
    by rewrite bool_decide_eq_false_2.
  - apply call_one_simulates in Hc. rewrite Hc. simpl. apply IH.
Qed.

(** C3. [_call_function] goes through every value of the callable
    Variable: a simple (interpreter-defined) function, an interpreter class
    or a bound function is invoked and its return value collected, which for
    a frame that ran is the join of the values of the Variables it returned;
    [__build_class__] builds a class, which is collected; any other value
    raises the unimplemented-call error; and the collected values are pushed
    on the stack of the caller as one Variable with one binding per
    result, in the order of the callables. *)
Theorem call_function_dispatch :
  (forall self func args,
      invoked func = true ->
      call_one self func args
      = do '(ret, self') <- call func args self;
        Ok (self',
            match ret with
            | FrameReturn frame => join_values (concat (map values (_returns frame)))
            | ValueReturn v => v
            end))
  /\ (forall self args self' ret,
        call_one self const_build_class args = Ok (self', ret) ->
        isinstance_value ret cls_InterpreterClass = true
        /\ exists self1, _classes self' = (_classes self1 ++ [ret])%list)
  /\ (forall self func args,
        invoked func = false -> func <> const_build_class ->
        call_one self func args
        = Raise (NotImplementedError "CALL not fully implemented"))
  /\ (forall self func_var args self',
        _call_function self func_var args = Ok self'
        <-> exists self1 rets,
              simulated args self (values func_var) self1 rets
              /\ length rets = length (values func_var)
              /\ self' = set__stack self1
                           (mkVariable (map Binding_of rets) None :: _stack self1))
  /\ (forall self func_var args l1 func l2 self1 rets1,
        values func_var = (l1 ++ func :: l2)%list ->
        simulated args self l1 self1 rets1 ->
        invoked func = false -> func <> const_build_class ->
        _call_function self func_var args
        = Raise (NotImplementedError "CALL not fully implemented")).
Proof.
  split; [|split; [|split; [|split]]].
  - intros self func args Hinv. unfold call_one. fold (invoked func).
    rewrite Hinv. destruct (call func args self) as [[[frame|v] self']|]; reflexivity.
  - intros self args self' ret. unfold call_one. simpl.
    destruct (posargs args) as [|class_body [|name [|? ?]]]; try done.
    destruct (get_atomic_value class_body _) as [builder|]; simpl; [|done].
    destruct (call builder _ self) as [[[frame|?] self1]|]; simpl; try done.
    destruct (get_atomic_constant name _) as [[]|]; simpl; try done.
    destruct (final_locals frame); [|done].
    intros [= <- <-]. split; [reflexivity|]. by exists self1.
  - intros self func args Hinv Hne. unfold call_one. fold (invoked func).
    rewrite Hinv. by rewrite bool_decide_eq_false_2.
  - intros self func_var args self'. unfold _call_function. split.
    + destruct (call_each _ _ _ _) as [[self1 rets]|] eqn:Hc; simpl; [|done].
      intros [= <-]. apply call_each_simulated in Hc as (rets' & -> & Hsim).
      exists self1, rets'. split; [exact Hsim|].
      split; [by eapply simulated_length|reflexivity].
    + intros (self1 & rets & Hsim & _ & ->).
      assert (Hc : call_each self (values func_var) args [] = Ok (self1, rets)).
      { apply call_each_simulated. by exists rets. }
      by rewrite Hc.
  - intros self func_var args l1 func l2 self1 rets1 Hv Hsim Hinv Hne.
    unfold _call_function. rewrite Hv.
    by rewrite (call_each_unimplemented _ _ _ _ _ _ _ _ Hsim Hinv Hne).
Qed.

End calls.

Section classes.
Context `{Collaborators}.

Lemma pop_stack_Ok self var self' :
  pop_stack self = Ok (var, self') ->
  exists st, _stack self = var :: st /\ self' = set__stack self st.
Proof.
  unfold pop_stack, Stack.pop. destruct (_stack self) as [|v st]; simpl; [done|].
  intros [= <- <-]. by exists st.
Qed.

(** The operands that [byte_MAKE_FUNCTION] pops leave the functions of the
    frame alone. *)
Lemma pop_stack_functions self var self' :
  pop_stack self = Ok (var, self') ->
  _functions self' = _functions self
  /\ _code self' = _code self
  /\ frame_name self' = frame_name self.
Proof. intros (st & _ & ->)%pop_stack_Ok. by simpl. Qed.

(** C4. A [__build_class__] call runs the class-body function, through
    [call] with the calling frame, and builds an [InterpreterClass] whose
    members are the final locals of the frame that ran, whose functions and
    classes are the ones that frame defined, and whose name is the atomic
    string among the arguments; the class is added to the classes of the
    calling frame and its functions are left as they are. And
    [byte_MAKE_FUNCTION] does not append the function it makes to the
    functions of the frame when [__build_class__] is on top of the stack
    under its operands (it appends it otherwise). *)
Theorem build_class_from_body_frame :
  (forall self args class_body name builder frame self1 members s,
      posargs args = [class_body; name] ->
      get_atomic_value class_body (Some cls_InterpreterFunction) = Ok builder ->
      call builder (mkArgs []) self = Ok (FrameReturn frame, self1) ->
      final_locals frame = Some members ->
      get_atomic_constant name (Some (Plain t_str)) = Ok (PyStr s) ->
      let cls := InterpreterClass s members (_functions frame) (_classes frame) in
      call_one self const_build_class args
      = Ok (set__classes self1 (_classes self1 ++ [cls])%list, cls)
      /\ _functions (set__classes self1 (_classes self1 ++ [cls])%list)
         = _functions self1)
  /\ (forall self arg self',
        byte_MAKE_FUNCTION self arg = Ok self' ->
        exists func rest,
          _stack self' = to_variable func None :: rest
          /\ isinstance_value func cls_InterpreterFunction = true
          /\ _functions self'
             = if match rest with
                  | top :: _ => has_atomic_value top const_build_class
                  | [] => false
                  end
               then _functions self
               else (_functions self ++ [func])%list).
Proof.
  split.
  - intros self args class_body name builder frame self1 members s
      Hargs Hb Hcall Hfl Hname cls.
    split; [|reflexivity].
    unfold call_one. simpl. rewrite Hargs, Hb. simpl. rewrite Hcall. simpl.
    rewrite Hname. simpl. by rewrite Hfl.
  - intros self arg self'. unfold byte_MAKE_FUNCTION.
    destruct (negb _); [done|].
    set (popped := if version_ge _ _ then _ else _).
    assert (Hpopped : forall name code self1,
      popped = Ok (name, code, self1) -> _functions self1 = _functions self).
    { subst popped. intros name code self1.
      destruct (version_ge _ _).
      - destruct (pop_stack self) as [[var self2]|] eqn:Hp; simpl; [|done].
        destruct (rbind _ code_of) as [c|]; simpl; [|done].
        intros [= _ _ <-]. by apply pop_stack_functions in Hp as [? _].
      - destruct (pop_stack self) as [[var self2]|] eqn:Hp; simpl; [|done].
        destruct (rbind _ str_of) as [n|]; simpl; [|done].
        destruct (pop_stack self2) as [[var3 self3]|] eqn:Hp3; simpl; [|done].
        destruct (rbind _ code_of) as [c|]; simpl; [|done].
        intros [= _ _ <-].
        apply pop_stack_functions in Hp as [? _].
        apply pop_stack_functions in Hp3 as [? _]. congruence. }
    destruct popped as [[[name code] self1]|]; simpl; [|done].
    specialize (Hpopped name code self1 eq_refl).
    set (scoped := if negb _ then _ else _).
    assert (Hscoped : forall scope self2,
      scoped = Ok (scope, self2) -> _functions self2 = _functions self1).
    { subst scoped. intros scope self2. destruct (negb _).
      - destruct (pop_stack self1) as [[var self3]|] eqn:Hp; simpl; [|done].
        destruct (get_atomic_constant var None); simpl; [|done].
        destruct (freevar_names _); simpl; [|done].
        intros [= _ <-]. by apply pop_stack_functions in Hp as [? _].
      - by intros [= _ <-]. }
    destruct scoped as [[scope self2]|]; simpl; [|done].
    specialize (Hscoped scope self2 eq_refl).
    intros [= <-].
    exists (InterpreterFunction name code scope (frame_name self2)), (_stack self2).
    destruct (_stack self2) as [|top rest] eqn:Hst; simpl.
    + split; [by rewrite Hst|]. split; [done|]. congruence.
    + destruct (has_atomic_value top const_build_class); simpl; rewrite ?Hst;
        (split; [reflexivity|split; [reflexivity|simpl; congruence]]).
Qed.

End classes.

(** ** Attribute writes at finalization *)

Lemma flat_map_writes_app {A : Type} (f : A -> list AttrWrite) l1 x l2 :
  flat_map f (l1 ++ x :: l2)%list = (flat_map f l1 ++ f x ++ flat_map f l2)%list.
Proof. rewrite flat_map_app. reflexivity. Qed.

(** What [holds_identical] tests: the frame binds the target name in its
    current state, no nonlocal mark hides the binding from [load_local], and
    its values are equal to those of the target Variable. *)
Lemma holds_identical_iff (frame : Frame) (t : string) (tv : AbstractVariable) :
  holds_identical frame t tv = true
  <-> exists fv, local_binding frame t = Some fv
                 /\ _shadows_enclosing frame t = false
                 /\ _shadows_global frame t = false
                 /\ values_eqb (values tv) (values fv) = true.
Proof.
  unfold holds_identical, load_local, local_binding, current_state, State.load_local,
    Dict.getitem.
  destruct (_shadows_enclosing frame t), (_shadows_global frame t); simpl;
    try (split; [done|by intros (? & _ & ? & ? & _)]).
  destruct (_current_state frame) as [st|]; simpl;
    [|split; [done|by intros (? & ? & _)]].
  destruct (Dict.get (_locals st) t) as [fv|]; simpl;
    [|split; [done|by intros (? & ? & _)]].
  split.
  - intros Heq. by exists fv.
  - by intros (fv' & [= <-] & _ & _ & Heq).
Qed.

(** C5, as amended. At finalization, a name ["target.attr"] of the final
    locals whose target name is bound in the final locals is written, as the
    join of its values, on each value of the target Variable, unless the
    creating frame is live and, as the loop reaches the name, [load_local]
    finds in it a binding of the target name (one that no nonlocal mark
    hides) with equal values: then, instead, the name is stored into the
    creating frame with its Variable as it is, and the step writes no
    attribute. In the first case the step leaves the creating frame as it is.
    The writes of the finalization are those of the names before, those of
    the name, and those of the names after it. *)
Theorem attribute_fold_back (self : Frame) (fl l1 l2 : Dict.t AbstractVariable)
    (frame : option Frame) (n t a : string) (var tv : AbstractVariable) :
  _final_locals self = Some fl ->
  fl = (l1 ++ (n, var) :: l2)%list ->
  NoDup (Dict.keys fl) ->
  compound_target fl n = Some (t, a, tv) ->
  (forall p, frame = Some p -> is_Some (_current_state p)) ->
  (forall name, marked_enclosing self name \/ marked_global self name ->
                is_Some (Dict.get fl name)) ->
  exists frame1 w1 frame2 frame3 w2 frame',
    merge_attributes fl l1 frame = Ok (frame1, w1)
    /\ let stored :=
         match frame1 with
         | Some p1 => holds_identical p1 t tv
         | None => false
         end in
       (stored = true
        <-> exists p1 fv,
              frame1 = Some p1
              /\ local_binding p1 t = Some fv
              /\ _shadows_enclosing p1 t = false
              /\ _shadows_global p1 t = false
              /\ values_eqb (values tv) (values fv) = true)
       /\ merge_attribute fl n var frame1
          = Ok (frame2, if stored then [] else attribute_writes a tv var)
       /\ (if stored
           then exists p1 p2,
                  frame1 = Some p1 /\ store_local p1 n var = Ok p2
                  /\ frame2 = Some p2
           else frame2 = frame1)
       /\ merge_attributes fl l2 frame2 = Ok (frame3, w2)
       /\ _merge_nonlocals_into self frame
          = Ok (frame',
                (w1 ++ (if stored then [] else attribute_writes a tv var) ++ w2)%list)
       /\ (stored = true ->
           exists p', frame' = Some p' /\ local_binding p' n = Some var)
       /\ (stored = false ->
           ~ (marked_enclosing self n \/ marked_global self n) ->
           forall p1, frame1 = Some p1 ->
           exists p', frame' = Some p'
                      /\ local_binding p' n = local_binding p1 n).
Proof.
  intros Hfl Hsplit Hnd Hc Hlive Hbound.
  destruct frame as [p|].
  - specialize (Hlive p eq_refl).
    destruct (merge_attributes_live fl l1 p Hlive) as (p1 & w1 & Hm1 & Hsc1 & _ & _).
    assert (Hs1 : is_Some (_current_state p1)) by by apply Hsc1.
    assert (exists p1' wi,
      merge_attribute fl n var (Some p1) = Ok (Some p1', wi)
      /\ is_Some (_current_state p1')
      /\ wi = (if holds_identical p1 t tv then [] else attribute_writes a tv var)
      /\ (holds_identical p1 t tv = true ->
          store_local p1 n var = Ok p1' /\ local_binding p1' n = Some var)
      /\ (holds_identical p1 t tv = false -> p1' = p1))
      as (p1' & wi & Hmi & Hs1' & Hwi & Hbi & Hbn).
    { rewrite (merge_attribute_live _ _ _ _ _ _ _ Hc Hs1).
      destruct (holds_identical p1 t tv).
      - destruct (store_local_total p1 n var Hs1) as [p1' Hst]. rewrite Hst. simpl.
        exists p1', []. split; [reflexivity|]. split.
        + destruct (store_local_scopes _ _ _ _ Hst) as [Hsc _]. by apply Hsc.
        + split; [reflexivity|]. split; [|done].
          intros _. split; [reflexivity|]. by eapply store_local_binding_eq.
      - exists p1, (attribute_writes a tv var). split; [reflexivity|].
        split; [exact Hs1|]. split; [reflexivity|]. done. }
    destruct (merge_attributes_live fl l2 p1' Hs1') as (p2 & w2 & Hm2 & _ & _ & Hb2).
    assert (Hall : merge_attributes fl fl (Some p)
                   = Ok (Some p2, (w1 ++ wi ++ w2)%list)).
    { rewrite Hsplit at 2. rewrite merge_attributes_app, Hm1. simpl.
      rewrite Hmi. simpl. rewrite Hm2. reflexivity. }
    destruct (merge_nonlocals_live self fl p Hfl Hlive Hbound)
      as (p2' & p' & w & Hall' & Hm & _ & Hbm & Hbu & _).
    rewrite Hall in Hall'. injection Hall' as <- <-.
    exists (Some p1), w1, (Some p1'), (Some p2), w2, (Some p').
    split; [exact Hm1|]. cbn zeta.
    split.
    { rewrite holds_identical_iff. split.
      - intros (fv & ?). by exists p1, fv.
      - intros (p1'' & fv & [= <-] & ?). by exists fv. }
    split; [by rewrite Hmi, Hwi|].
    split.
    { destruct (holds_identical p1 t tv) eqn:Hh.
      - exists p1, p1'. by destruct (Hbi eq_refl).
      - by rewrite (Hbn eq_refl). }
    split; [exact Hm2|].
    split; [by rewrite Hm, Hwi|].
    assert (Hnl2 : n ∉ Dict.keys l2).
    { rewrite Hsplit in Hnd. unfold Dict.keys in Hnd. rewrite fmap_app in Hnd.
      apply NoDup_app in Hnd as (_ & _ & Hnd). simpl in Hnd.
      by apply NoDup_cons in Hnd as [Hnin _]. }
    split.
    + intros Hst. exists p'. split; [reflexivity|].
      assert (Hget : Dict.get fl n = Some var).
      { apply DictFacts.get_item; [exact Hnd|]. rewrite Hsplit.
        apply elem_of_app. right. left. }
      unfold marked_enclosing, marked_global in *.
      destruct (decide (n ∈ _enclosing (_shadowed_nonlocals self)
                        \/ n ∈ _globals (_shadowed_nonlocals self))) as [Hmk|Hmk].
      * by rewrite Hbm.
      * rewrite (Hbu n Hmk), Hb2; [by apply Hbi|done].
    + intros Hst Hmk p1'' [= <-]. exists p'. split; [reflexivity|].
      rewrite (Hbu n Hmk), Hb2 by done. by rewrite (Hbn Hst).
  - set (F := fun '(name, var) =>
                match compound_target fl name with
                | Some (_, a, tv) => attribute_writes a tv var
                | None => []
                end).
    exists None, (flat_map F l1), None, None, (flat_map F l2), None.
    split; [apply merge_attributes_None|]. cbn zeta.
    split; [split; [done|by intros (? & ? & [=] & _)]|].
    split; [exact (merge_attribute_None _ _ _ _ _ _ Hc)|].
    split; [reflexivity|].
    split; [apply merge_attributes_None|].
    split; [|done].
    unfold _merge_nonlocals_into. rewrite Hfl, merge_attributes_None. simpl.
    fold F. pose proof (flat_map_writes_app F l1 (n, var) l2) as E.
    rewrite <- Hsplit in E. rewrite E. simpl. by rewrite Hc.
Qed.

Section finished_parent.
Context `{Collaborators}.

(** C10, as amended. When a frame finishes [run] and its creating frame has
    already finalized, the creating frame is left as it is, no shadowed name
    is stored anywhere, and every compound attribute name of the final locals
    whose target name is bound in the final locals is written on the values
    of its target. *)
Theorem run_with_finished_parent (self0 self parent : Frame)
    (fl : Dict.t AbstractVariable) :
  _stack self0 = [] -> run_steps self0 = Ok self -> _stack self = [] ->
  _final_locals self = Some fl ->
  _f_back self = Some parent ->
  is_Some (final_locals parent) ->
  run self0
  = Ok (set_final_locals (set__current_state self None)
          (Some (map (fun '(name, var) => (name, join_values (values var))) fl)),
        final_attribute_writes fl)
  /\ _merge_nonlocals_into self None = Ok (None, final_attribute_writes fl)
  /\ _f_back (set_final_locals (set__current_state self None)
                (Some (map (fun '(name, var) => (name, join_values (values var))) fl)))
     = Some parent.
Proof.
  intros Hst0 Hrun Hst Hfl Hback [pfl Hfin].
  assert (Hm : _merge_nonlocals_into self None = Ok (None, final_attribute_writes fl)).
  { unfold _merge_nonlocals_into. rewrite Hfl, merge_attributes_None. reflexivity. }
  split; [|split; [exact Hm|exact Hback]].
  rewrite (run_unfold self0 self fl Hst0 Hrun Hst Hfl).
  rewrite Hback, Hfin, Hm. reflexivity.
Qed.

End finished_parent.

(** C10, as stated, fails: the frame of [def h(): g.x = 1], whose creating
    frame has finalized, binds the compound name ["g.x"] locally, its target
    [g] holds a value, and [run] writes no attribute. *)
Lemma unbound_target_not_written :
  exists self',
    @run example_collaborators example_h = Ok (self', [])
    /\ option_map (fun fl => Dict.mem fl "g.x") (_final_locals self') = Some true
    /\ rpartition "g.x" = ("g", ".", "x")
    /\ option_map values (Dict.get (_initial_globals example_h) "g")
       = Some [example_instance]
    /\ _f_back self' = Some example_finished_module.
Proof. eexists. vm_compute. repeat split; reflexivity. Qed.

Lemma run_with_finished_parent_witness :
  @run example_collaborators example_m
  = Ok (set_final_locals
          (set__current_state
             (set__final_locals example_m
                (Some [("s", to_variable example_instance None);
                       ("s.x", to_variable (int_const 1) None)])) None)
          (Some [("s", example_instance); ("s.x", int_const 1)]),
        [SetAttribute example_instance "x" (int_const 1)])
  /\ _merge_nonlocals_into
       (set__final_locals example_m
          (Some [("s", to_variable example_instance None);
                 ("s.x", to_variable (int_const 1) None)])) None
     = Ok (None, [SetAttribute example_instance "x" (int_const 1)])
  /\ _f_back
       (set_final_locals
          (set__current_state
             (set__final_locals example_m
                (Some [("s", to_variable example_instance None);
                       ("s.x", to_variable (int_const 1) None)])) None)
          (Some [("s", example_instance); ("s.x", int_const 1)]))
     = Some example_finished_module.
Proof.
  apply (@run_with_finished_parent example_collaborators example_m
           (set__final_locals example_m
              (Some [("s", to_variable example_instance None);
                     ("s.x", to_variable (int_const 1) None)]))
           example_finished_module
           [("s", to_variable example_instance None);
            ("s.x", to_variable (int_const 1) None)]).
  - reflexivity.
  - vm_compute. reflexivity.
  - reflexivity.
  - reflexivity.
  - reflexivity.
  - vm_compute. eauto.
Defined.

(** ** The entry points *)

(** A frame that runs, with no global mark unless it is the module frame,
    makes a child frame for any function without free variables that is not
    named as the module is, and the child is such a frame again, one frame
    deeper. *)
Lemma make_child_frame_deeper (self : Frame) (name : string) (code : OrderedCode)
    (parent_frame : string) :
  is_Some (_current_state self) -> _final_locals self = None ->
  _is_module_frame self = true \/ _shadowed_nonlocals self = Shadowed.init ->
  name <> "__main__" ->
  exists child,
    make_child_frame self (InterpreterFunction name code [] parent_frame) []
    = Ok child
    /\ is_Some (_current_state child) /\ _final_locals child = None
    /\ _shadowed_nonlocals child = Shadowed.init
    /\ Frame_stack child = (Frame_stack self ++ [child])%list.
Proof.
  intros [st Hst] Hfl Hmarks Hname.
  assert (Hglobals : exists globals,
             (if _is_module_frame self then Ok (State.get_locals st)
              else child_globals (State.get_locals st)
                     (Shadowed.get_global_names (_shadowed_nonlocals self))
                     (_initial_globals self)) = Ok globals).
  { destruct (_is_module_frame self) eqn:Hm; [by eexists|].
    destruct Hmarks as [Hmarks|Hmarks]; [done|]. rewrite Hmarks. by eexists. }
  destruct Hglobals as [globals Hglobals].
  assert (Hmodule : String.eqb name "__main__" = false) by by apply String.eqb_neq.
  eexists. split.
  - unfold make_child_frame, current_state. rewrite Hfl, Hst. simpl.
    rewrite Hglobals. simpl. unfold Frame_init, _is_module_frame. simpl.
    rewrite Hmodule. simpl. reflexivity.
  - split; [by eexists|]. split; [reflexivity|]. split; reflexivity.
Qed.

Lemma nested_child_frames_deeper (name : string) (code : OrderedCode)
    (parent_frame : string) (n : nat) :
  forall self,
    is_Some (_current_state self) -> _final_locals self = None ->
    _is_module_frame self = true \/ _shadowed_nonlocals self = Shadowed.init ->
    name <> "__main__" ->
    exists child,
      nested_child_frames self (InterpreterFunction name code [] parent_frame) n
      = Ok child
      /\ length (Frame_stack child) = length (Frame_stack self) + n.
Proof.
  induction n as [|n IH]; intros self Hst Hfl Hmarks Hname.
  - exists self. split; [reflexivity|]. by rewrite Nat.add_0_r.
  - destruct (make_child_frame_deeper self name code parent_frame Hst Hfl Hmarks Hname)
      as (child & Hchild & Hst' & Hfl' & Hmarks' & Hstack).
    destruct (IH child Hst' Hfl' (or_intror Hmarks') Hname) as (deep & Hdeep & Hlen).
    exists deep. split.
    + cbn [nested_child_frames]. rewrite Hchild. exact Hdeep.
    + rewrite Hlen, Hstack, length_app. simpl. lia.
Qed.

(** C1. The claim does not hold of the code. [check_types] and
    [infer_types] each take a maximum depth for the loading of the module and
    one for the analysis of function bodies, and discard both before anything
    is analysed: whatever the virtual machine does, the analysis they return
    is the same for every choice of depths, and does not depend on them. And
    nothing in the frame bounds the nesting: from a module frame that runs,
    any number of nested calls of a function that calls itself make as many
    frames, one inside the other, whatever depth was supplied. *)
Theorem depth_arguments_discarded :
  (forall (V : VmLib) (src : string) (options : Options) (loader : Loader)
          (i m i' m' : Z),
      check_types src options loader i m = check_types src options loader i' m'
      /\ infer_types src options loader i m = infer_types src options loader i' m'
      /\ check_types src options loader i m
         = check_types src options loader _INIT_MAXIMUM_DEPTH _MAXIMUM_DEPTH
      /\ infer_types src options loader i m
         = infer_types src options loader _INIT_MAXIMUM_DEPTH _MAXIMUM_DEPTH)
  /\ (forall (V : VmLib) (src : string) (options : Options) (loader : Loader),
        ~ depends_on_depths (check_types src options loader)
        /\ ~ depends_on_depths (infer_types src options loader))
  /\ (forall (module : Frame) (name : string) (code : OrderedCode)
             (parent_frame : string) (maximum_depth : nat),
        _is_module_frame module = true ->
        is_Some (_current_state module) -> _final_locals module = None ->
        name <> "__main__" ->
        exists child,
          nested_child_frames module
            (InterpreterFunction name code [] parent_frame) (S maximum_depth)
          = Ok child
          /\ length (Frame_stack child)
             = length (Frame_stack module) + S maximum_depth).
Proof.
  split; [|split].
  - intros V src options loader i m i' m'. repeat split; reflexivity.
  - intros V src options loader.
    split; intros (i & m & i' & m' & Hne); by apply Hne.
  - intros module name code parent_frame maximum_depth Hmodule Hst Hfl Hname.
    by apply nested_child_frames_deeper; [| |left|].
Qed.

(** C1 where it fails: for [def f(): return f()], the depths 1 and 1 give
    the analysis that the default depths give; and the module frame reaches,
    through five nested calls of [f], a frame that is the sixth of its
    stack. *)
Lemma depth_arguments_discarded_witness :
  (forall (V : VmLib) (options : Options) (loader : Loader),
      check_types "def f(): return f()" options loader 1 1
      = check_types "def f(): return f()" options loader
          _INIT_MAXIMUM_DEPTH _MAXIMUM_DEPTH
      /\ infer_types "def f(): return f()" options loader 1 1
         = infer_types "def f(): return f()" options loader
             _INIT_MAXIMUM_DEPTH _MAXIMUM_DEPTH)
  /\ (exists child,
        nested_child_frames example_module
          (InterpreterFunction "f" (example_code 1 "f") [] "__main__") 5
        = Ok child
        /\ length (Frame_stack child) = 6).
Proof.
  destruct depth_arguments_discarded as (Hsame & _ & Hnest).
  split.
  - intros V options loader.
    destruct (Hsame V "def f(): return f()" options loader 1%Z 1%Z 1%Z 1%Z)
      as (_ & _ & Hcheck & Hinfer).
    split; [exact Hcheck|exact Hinfer].
  - apply (Hnest example_module "f" (example_code 1 "f") "__main__" 4).
    + reflexivity.
    + vm_compute. eauto.
    + reflexivity.
    + discriminate.
Defined.

(** ** The statements at concrete frames *)


Lemma shadowed_names_hidden_from_load_local_witness :
  load_local example_g_written "y" = Raise (KeyError "y")
  /\ (marked_enclosing example_g_written "y"
      /\ local_binding example_g_written "y" = Some (to_variable (int_const 2) None)
      /\ load_local example_g_written "y" = Raise (KeyError "y")
      /\ load_enclosing example_g_written "y"
         = Ok (with_name (to_variable (int_const 2) None) "y")
      /\ load_deref example_g_written "y"
         = Ok (with_name (to_variable (int_const 2) None) "y"))
  /\ (exists self',
        store_global example_g "n" (to_variable (int_const 3) None) = Ok self'
        /\ marked_global self' "n"
        /\ local_binding self' "n" = Some (to_variable (int_const 3) None)
        /\ load_local self' "n" = Raise (KeyError "n")
        /\ @load_global example_collaborators self' "n"
           = Ok (with_name (to_variable (int_const 3) None) "n"))
  /\ (exists self' self'',
        store_global example_module "n" (to_variable (int_const 3) None) = Ok self'
        /\ store_local example_module "n" (to_variable (int_const 3) None) = Ok self''
        /\ load_local self' "n" = load_local self'' "n"
        /\ load_local self' "n" = Ok (with_name (to_variable (int_const 3) None) "n")).
Proof.
  destruct (@shadowed_names_hidden_from_load_local example_collaborators)
    as (Hhidden & Henclosing & Hglobal & Hmodule).
  split; [|split; [|split]].
  - apply Hhidden; [reflexivity|]. left.
    unfold marked_enclosing. simpl.
    apply elem_of_union_l, elem_of_singleton. reflexivity.
  - apply (Henclosing example_g); [reflexivity|].
    right. split; vm_compute; reflexivity.
  - eexists. split; [vm_compute; reflexivity|].
    apply (Hglobal example_g); [reflexivity|vm_compute; reflexivity].
  - eexists _, _. split; [vm_compute; reflexivity|].
    split; [vm_compute; reflexivity|]. split.
    + apply (Hmodule example_module "n" (to_variable (int_const 3) None));
        [reflexivity|vm_compute; reflexivity|vm_compute; reflexivity].
    + vm_compute. reflexivity.
Defined.

Lemma call_function_dispatch_witness :
  (exists self1 rets,
      @simulated example_collaborators example_class_args example_module
        (values example_callables) self1 rets
      /\ length rets = length (values example_callables)
      /\ _stack (set__stack self1
                   (mkVariable (map Binding_of rets) None :: _stack self1))
         = [mkVariable
              [Binding_of ANY;
               Binding_of (InterpreterClass "C" [("a", int_const 1)] [] [])]
              None])
  /\ @_call_function example_collaborators example_module
       (to_variable ANY None) example_class_args
     = Raise (NotImplementedError "CALL not fully implemented")
  /\ (exists self',
        @call_one returning_collaborators example_module example_either (mkArgs [])
        = Ok (self', Union [int_const 1; str_const "a"]))
  /\ (exists self1,
        @simulated returning_collaborators (mkArgs []) example_module
          [example_one; example_either; SimpleFunction "len"] self1
          [int_const 1; Union [int_const 1; str_const "a"]; ANY])
  /\ (exists self',
        @_call_function returning_collaborators example_module example_returning
          (mkArgs [])
        = Ok self'
        /\ _stack self'
           = [mkVariable
                [Binding_of (int_const 1);
                 Binding_of (Union [int_const 1; str_const "a"]);
                 Binding_of ANY] None]).
Proof.
  destruct (@call_function_dispatch example_collaborators)
    as (_ & _ & _ & Hall & Hother).
  destruct (@call_function_dispatch returning_collaborators)
    as (Hinvoked & _ & _ & Hall' & _).
  assert (Hrun' : exists self',
    @_call_function returning_collaborators example_module example_returning
      (mkArgs []) = Ok self'
    /\ _stack self'
       = [mkVariable
            [Binding_of (int_const 1);
             Binding_of (Union [int_const 1; str_const "a"]);
             Binding_of ANY] None]).
  { eexists. split; vm_compute; reflexivity. }
  split; [|split; [|split; [|split]]].
  - assert (Hrun : exists self',
      @_call_function example_collaborators example_module example_callables
        example_class_args = Ok self'
      /\ _stack self'
         = [mkVariable
              [Binding_of ANY;
               Binding_of (InterpreterClass "C" [("a", int_const 1)] [] [])]
              None]).
    { eexists. split; vm_compute; reflexivity. }
    destruct Hrun as (self' & Hcall & Hstack).
    apply Hall in Hcall as (self1 & rets & Hsim & Hlen & ->).
    exists self1, rets. split; [exact Hsim|]. split; [exact Hlen|exact Hstack].
  - apply (Hother example_module (to_variable ANY None) example_class_args
             [] ANY [] example_module []).
    + vm_compute. reflexivity.
    + constructor.
    + reflexivity.
    + discriminate.
  - rewrite (Hinvoked example_module example_either (mkArgs []) eq_refl).
    eexists. vm_compute. reflexivity.
  - destruct Hrun' as (self' & Hcall & Hstack).
    apply Hall' in Hcall as (self1 & rets & Hsim & _ & ->).
    exists self1. simpl in Hstack. injection Hstack as Hrets.
    assert (Hr : rets = [int_const 1; Union [int_const 1; str_const "a"]; ANY]).
    { destruct rets as [|r1 [|r2 [|r3 [|r4 rets]]]]; try discriminate Hrets.
      injection Hrets as -> -> ->. reflexivity. }
    rewrite <- Hr. exact Hsim.
  - exact Hrun'.
Defined.

Lemma build_class_from_body_frame_witness :
  (exists self',
      @call_one example_collaborators example_module const_build_class
        example_class_args
      = Ok (self', InterpreterClass "C" [("a", int_const 1)] [] [])
      /\ _classes self' = [InterpreterClass "C" [("a", int_const 1)] [] []]
      /\ _functions self' = [])
  /\ (exists self' func rest,
        @byte_MAKE_FUNCTION example_collaborators example_making_class 0 = Ok self'
        /\ _stack self' = to_variable func None :: rest
        /\ func = example_class_body
        /\ _functions self' = _functions example_making_class).
Proof.
  destruct (@build_class_from_body_frame example_collaborators) as (Hbuild & Hmake).
  split.
  - assert (Hbody : exists frame self1,
      @call example_collaborators example_class_body (mkArgs []) example_module
      = Ok (FrameReturn frame, self1)
      /\ final_locals frame = Some [("a", int_const 1)]
      /\ _functions frame = [] /\ _classes frame = []
      /\ _classes self1 = [] /\ _functions self1 = []).
    { eexists _, _. vm_compute. repeat split; reflexivity. }
    destruct Hbody as (frame & self1 & Hcall & Hfl & Hfs & Hcs & Hcs1 & Hfs1).
    destruct (Hbuild example_module example_class_args
                (to_variable example_class_body None)
                (to_variable (str_const "C") None)
                example_class_body frame self1 [("a", int_const 1)] "C"
                eq_refl eq_refl Hcall Hfl eq_refl) as [Hone Hfuncs].
    rewrite Hfs, Hcs, Hcs1 in Hone.
    eexists. split; [exact Hone|]. split; [reflexivity|]. exact Hfs1.
  - assert (Hrun : exists self',
      @byte_MAKE_FUNCTION example_collaborators example_making_class 0 = Ok self'
      /\ _stack self'
         = [to_variable example_class_body None;
            to_variable const_build_class None;
            to_variable const_NULL None]).
    { eexists. split; vm_compute; reflexivity. }
    destruct Hrun as (self' & Hmk & Hstack).
    destruct (Hmake _ _ _ Hmk) as (func & rest & Hst & _ & Hfuncs).
    rewrite Hstack in Hst. injection Hst as Hfunc Hrest. subst func rest.
    exists self', example_class_body,
      [to_variable const_build_class None; to_variable const_NULL None].
    split; [exact Hmk|]. split; [exact Hstack|]. split; [reflexivity|].
    exact Hfuncs.
Defined.

Lemma attribute_fold_back_witness :
  (exists frame1 w1 frame2 frame3 w2 frame',
      merge_attributes [("s", to_variable example_instance None);
                        ("s.x", to_variable (int_const 1) None)]
        [("s", to_variable example_instance None)] (Some example_f_with_s)
      = Ok (frame1, w1)
      /\ let stored :=
           match frame1 with
           | Some p1 => holds_identical p1 "s" (to_variable example_instance None)
           | None => false
           end in
         (stored = true
          <-> exists p1 fv,
                frame1 = Some p1
                /\ local_binding p1 "s" = Some fv
                /\ _shadows_enclosing p1 "s" = false
                /\ _shadows_global p1 "s" = false
                /\ values_eqb (values (to_variable example_instance None)) (values fv)
                   = true)
         /\ merge_attribute [("s", to_variable example_instance None);
                             ("s.x", to_variable (int_const 1) None)]
              "s.x" (to_variable (int_const 1) None) frame1
            = Ok (frame2,
                  if stored then []
                  else attribute_writes "x" (to_variable example_instance None)
                         (to_variable (int_const 1) None))
         /\ (if stored
             then exists p1 p2,
                    frame1 = Some p1
                    /\ store_local p1 "s.x" (to_variable (int_const 1) None) = Ok p2
                    /\ frame2 = Some p2
             else frame2 = frame1)
         /\ merge_attributes [("s", to_variable example_instance None);
                              ("s.x", to_variable (int_const 1) None)]
              [] frame2
            = Ok (frame3, w2)
         /\ _merge_nonlocals_into example_k_ended (Some example_f_with_s)
            = Ok (frame',
                  (w1 ++ (if stored then []
                          else attribute_writes "x" (to_variable example_instance None)
                                 (to_variable (int_const 1) None)) ++ w2)%list)
         /\ (stored = true ->
             exists p', frame' = Some p'
                        /\ local_binding p' "s.x"
                           = Some (to_variable (int_const 1) None))
         /\ (stored = false ->
             ~ (marked_enclosing example_k_ended "s.x"
                \/ marked_global example_k_ended "s.x") ->
             forall p1, frame1 = Some p1 ->
             exists p', frame' = Some p'
                        /\ local_binding p' "s.x" = local_binding p1 "s.x"))
  /\ _merge_nonlocals_into example_k_ended (Some example_f_with_s)
     = Ok (Some (set__current_state example_f_with_s
                   (Some (mkBlockState
                            [("s", to_variable example_instance None);
                             ("s.x", to_variable (int_const 1) None)] TRUE))),
           [])
  /\ _merge_nonlocals_into example_k_union_ended (Some example_f_with_union)
     = Ok (Some (set__current_state example_f_with_union
                   (Some (mkBlockState
                            [("s", to_variable (Union [str_const "a"; int_const 1]) None);
                             ("s.x", to_variable (int_const 1) None)] TRUE))),
           [])
  /\ _merge_nonlocals_into example_k_rebound_ended (Some example_f_with_s)
     = Ok (Some example_f_with_s,
           [SetAttribute (BaseInstance (BaseClass "D")) "x" (int_const 1)])
  /\ _merge_nonlocals_into example_m_ended (Some example_module)
     = Ok (Some example_module, [SetAttribute example_instance "x" (int_const 1)]).
Proof.
  split; [|split; [|split; [|split]]].
  - apply (attribute_fold_back example_k_ended
             [("s", to_variable example_instance None);
              ("s.x", to_variable (int_const 1) None)]
             [("s", to_variable example_instance None)] []
             (Some example_f_with_s) "s.x" "s" "x").
    + reflexivity.
    + reflexivity.
    + apply NoDup_cons. split; [|apply NoDup_singleton].
      intros Hin. apply list_elem_of_singleton in Hin. discriminate Hin.
    + reflexivity.
    + intros p [= <-]. vm_compute. eauto.
    + intros name [Hm|Hm]; unfold marked_enclosing, marked_global in Hm;
        simpl in Hm; by apply elem_of_empty in Hm.
  - vm_compute. reflexivity.
  - vm_compute. reflexivity.
  - vm_compute. reflexivity.
  - vm_compute. reflexivity.
Defined.

(** C5, as stated, fails: the frame of [f] is live and holds a binding of
    [s] with the very values that [s] has in the frame of [k], but it has
    marked [s] as a global, so that [load_local] does not find the binding:
    as [k] finishes, the attribute is written on the value of [s], and the
    name ["s.x"] is not stored into the frame of [f], which is left as it
    is. *)
Lemma marked_target_written_not_stored :
  (_current_state example_f_global_s
   = Some (mkBlockState [("s", to_variable example_instance None)] TRUE)
   /\ final_locals example_f_global_s = None
   /\ local_binding example_f_global_s "s" = Some (to_variable example_instance None)
   /\ _shadows_global example_f_global_s "s" = true)
  /\ (local_binding example_k_of_global "s" = Some (to_variable example_instance None)
      /\ values_eqb (values (to_variable example_instance None))
           (values (to_variable example_instance None)) = true)
  /\ (exists self',
        @run example_collaborators example_k_of_global
        = Ok (self', [SetAttribute example_instance "x" (int_const 1)])
        /\ option_map (fun fl => Dict.mem fl "s.x") (_final_locals self') = Some true
        /\ _f_back self' = Some example_f_global_s)
  /\ local_binding example_f_global_s "s.x" = None
  /\ load_local example_f_global_s "s" = Raise (KeyError "s").
Proof.
  split; [|split; [|split; [|split]]].
  - split; [vm_compute; reflexivity|]. split; [reflexivity|].
    split; vm_compute; reflexivity.
  - split; vm_compute; reflexivity.
  - eexists. vm_compute. repeat split; reflexivity.
  - vm_compute. reflexivity.
  - vm_compute. reflexivity.
Qed.

(** * More properties of the frame and of the utilities *)

(** ** Compound names *)

Lemma rpartition_no_dot (s : string) :
  contains_dot s = false -> rpartition s = ("", "", s).
Proof.
  induction s as [|c s IH]; simpl; [done|].
  intros [Hc Hs]%orb_false_iff. rewrite (IH Hs). simpl. by rewrite Hc.
Qed.

(** String concatenation computes on its first argument. *)
Ltac str_simpl :=
  repeat first
    [ progress change (String.append EmptyString ?s) with s in *
    | progress change (String.append (String ?c ?a) ?b)
        with (String c (String.append a b)) in * ].

Lemma rpartition_parts (name : string) :
  match rpartition name with
  | (head, dot, tail) =>
      head ++ dot ++ tail = name
      /\ contains_dot tail = false
      /\ (dot = "." \/ (dot = "" /\ head = ""))
      /\ (dot = "" <-> contains_dot name = false)
  end.
Proof.
  induction name as [|c name IH]; simpl.
  - repeat split; auto.
  - destruct (rpartition name) as [[head dot] tail].
    destruct IH as (Hcat & Htail & Hdot & Hnone).
    destruct (String.eqb dot "") eqn:Hd; simpl.
    + apply String.eqb_eq in Hd. subst dot.
      destruct Hdot as [Hdot|[_ ->]]; [done|]. str_simpl. subst tail.
      destruct (Ascii.eqb c ".") eqn:Hc; simpl; str_simpl.
      * apply Ascii.eqb_eq in Hc. subst c. repeat split; auto.
        all: intros; discriminate.
      * rewrite ?Hc, ?Htail. simpl. repeat split; auto; tauto.
    + assert (dot = ".") as ->.
      { destruct Hdot as [|[-> _]]; [done|]. by rewrite String.eqb_refl in Hd. }
      str_simpl. subst name. repeat split; auto.
      * intros; discriminate.
      * intros Hx. apply orb_false_iff in Hx as [_ Hx].
        destruct Hnone as [_ Hnone]. by specialize (Hnone Hx).
Qed.

(** X1. The compound name that [byte_STORE_ATTR] builds from a target name
    and an attribute name without a dot splits back, in
    [_merge_nonlocals_into], into that target name and that attribute name,
    whatever dots the target name has; and every name is the concatenation of
    the three parts it splits into, the last of which has no dot. *)
Theorem compound_name_round_trip :
  (forall target attr : string,
      contains_dot attr = false ->
      rpartition (target ++ "." ++ attr) = (target, ".", attr))
  /\ (forall name head dot tail,
        rpartition name = (head, dot, tail) ->
        head ++ dot ++ tail = name
        /\ contains_dot tail = false
        /\ (dot = "" <-> contains_dot name = false)).
Proof.
  split.
  - intros target attr Hattr. induction target as [|c target IH]; str_simpl; simpl.
    + by rewrite (rpartition_no_dot attr Hattr).
    + by rewrite IH.
  - intros name head dot tail Hr. pose proof (rpartition_parts name) as Hp.
    rewrite Hr in Hp. tauto.
Qed.

Lemma compound_name_round_trip_witness :
  rpartition ("a.b" ++ "." ++ "c") = ("a.b", ".", "c")
  /\ ("a.b" ++ "." ++ "c" = "a.b.c" /\ contains_dot "c" = false
      /\ ("." = "" <-> contains_dot "a.b.c" = false)).
Proof.
  destruct compound_name_round_trip as [Hjoin Hsplit]. split.
  - apply Hjoin. reflexivity.
  - apply (Hsplit "a.b.c" "a.b" "." "c"). reflexivity.
Defined.

(** ** Atomic constants *)

(** X2. [get_atomic_constant] returns a literal exactly when the Variable
    has a single binding, that binding is a [PythonConstant] wrapping the
    literal, and the literal is an instance of the expected type (if one is
    given); in every other case, an empty Variable and a single binding of
    another kind of value included, it raises a [ValueError]. *)
Theorem get_atomic_constant_succeeds_iff :
  (forall var typ c,
      get_atomic_constant var typ = Ok c
      <-> (exists cond, bindings var = [mkBinding (PythonConstant c) cond])
          /\ match typ with
             | Some typ => isinstance c (runtime_type typ) = true
             | None => True
             end)
  /\ (forall var typ,
        (exists c, get_atomic_constant var typ = Ok c)
        \/ (exists msg, get_atomic_constant var typ = Raise (ValueError msg))).
Proof.
  assert (Hshape : forall var typ,
    match bindings var with
    | [mkBinding (PythonConstant c) cond] =>
        get_atomic_constant var typ
        = match typ with
          | Some typ => if isinstance c (runtime_type typ) then Ok c
                        else Raise (ValueError "Wrong constant type")
          | None => Ok c
          end
    | _ => get_atomic_constant var typ = Raise (ValueError "Not an atomic variable")
    end).
  { intros [bs name] typ. unfold get_atomic_constant, get_atomic_value. simpl.
    destruct bs as [|[v cond] [|b2 bs]]; try reflexivity;
      destruct v; try reflexivity. simpl.
    destruct typ as [typ|]; [|reflexivity].
    by destruct (isinstance constant (runtime_type typ)). }
  split.
  - intros var typ c. specialize (Hshape var typ).
    destruct (bindings var) as [|[v cond] [|b2 bs]]; try destruct v;
      rewrite Hshape;
      try (split; [done|]; intros [[cond' Heq] _]; discriminate).
    destruct typ as [typ|].
    + destruct (isinstance constant (runtime_type typ)) eqn:Hi; split.
      * intros Heq. simplify_eq. split; [by exists cond|done].
      * intros [[cond' Heq] _]. by simplify_eq.
      * done.
      * intros [[cond' Heq] Hc]. simplify_eq. congruence.
    + split.
      * intros Heq. simplify_eq. split; [by exists cond|done].
      * intros [[cond' Heq] _]. by simplify_eq.
  - intros var typ. specialize (Hshape var typ).
    destruct (bindings var) as [|[v cond] [|b2 bs]]; try destruct v;
      rewrite Hshape; try (right; eauto; fail).
    destruct typ as [typ|]; [|left; eauto].
    destruct (isinstance constant (runtime_type typ)); [left|right]; eauto.
Qed.

(** ** The data stack *)

Lemma pop_stack_cons self var rest :
  _stack self = var :: rest -> pop_stack self = Ok (var, set__stack self rest).
Proof. unfold pop_stack, Stack.pop. by intros ->. Qed.

Lemma pop_stack_nil self : _stack self = [] -> pop_stack self = Raise IndexError.
Proof. unfold pop_stack, Stack.pop. by intros ->. Qed.

Lemma set_stack_same self : set__stack self (_stack self) = self.
Proof. by destruct self. Qed.

Lemma set_stack_twice self st st' :
  set__stack (set__stack self st) st' = set__stack self st'.
Proof. reflexivity. Qed.

(** X3. The opcodes that only move values on the data stack undo each
    other: [DUP_TOP] then [POP_TOP], [DUP_TOP_TWO] then two [POP_TOP],
    [PUSH_NULL] or [LOAD_BUILD_CLASS] then [POP_TOP] (or [PRINT_EXPR]) give
    the frame back; [DUP_TOP_TWO] puts copies of the two topmost values, in
    their order, on top of them; and [POP_TOP], [PRINT_EXPR], [DUP_TOP] on
    an empty stack and [DUP_TOP_TWO] on fewer than two values raise
    [IndexError]. *)
Theorem stack_opcodes_undo (self : Frame) :
  (rbind (byte_PUSH_NULL self) byte_POP_TOP = Ok self
   /\ rbind (byte_LOAD_BUILD_CLASS self) byte_PRINT_EXPR = Ok self)
  /\ (forall top rest,
        _stack self = top :: rest ->
        rbind (byte_DUP_TOP self) byte_POP_TOP = Ok self
        /\ byte_DUP_TOP self = Ok (set__stack self (top :: top :: rest)))
  /\ (forall b a rest,
        _stack self = b :: a :: rest ->
        byte_DUP_TOP_TWO self = Ok (set__stack self (b :: a :: b :: a :: rest))
        /\ rbind (rbind (byte_DUP_TOP_TWO self) byte_POP_TOP) byte_POP_TOP
           = Ok self)
  /\ (_stack self = [] ->
      byte_POP_TOP self = Raise IndexError
      /\ byte_PRINT_EXPR self = Raise IndexError
      /\ byte_DUP_TOP self = Raise IndexError
      /\ byte_DUP_TOP_TWO self = Raise IndexError)
  /\ (forall top, _stack self = [top] -> byte_DUP_TOP_TWO self = Raise IndexError).
Proof.
  split; [split|split; [|split; [|split]]].
  - unfold byte_PUSH_NULL, byte_POP_TOP, push_stack. simpl. by destruct self.
  - unfold byte_LOAD_BUILD_CLASS, byte_PRINT_EXPR, push_stack. simpl. by destruct self.
  - intros top rest Hst. unfold byte_DUP_TOP, byte_POP_TOP, push_stack.
    rewrite Hst. simpl. split; [|reflexivity]. rewrite <- Hst. by destruct self.
  - intros b a rest Hst. unfold byte_DUP_TOP_TWO, popn_stack, StackN.popn.
    rewrite Hst. simpl. split; [reflexivity|].
    unfold byte_POP_TOP, push_stack, Stack.push. simpl.
    change (drop 0 rest) with rest. rewrite <- Hst. by destruct self.
  - intros Hst. unfold byte_POP_TOP, byte_PRINT_EXPR, byte_DUP_TOP, byte_DUP_TOP_TWO,
      popn_stack, StackN.popn. by rewrite Hst.
  - intros top Hst. unfold byte_DUP_TOP_TWO, popn_stack, StackN.popn. by rewrite Hst.
Qed.

Lemma stack_opcodes_undo_witness :
  rbind (byte_DUP_TOP example_making_class) byte_POP_TOP = Ok example_making_class
  /\ rbind (rbind (byte_DUP_TOP_TWO example_making_class) byte_POP_TOP) byte_POP_TOP
     = Ok example_making_class
  /\ byte_DUP_TOP_TWO example_module = Raise IndexError.
Proof.
  destruct (stack_opcodes_undo example_making_class) as (_ & Hdup & Htwo & _).
  destruct (stack_opcodes_undo example_module) as (_ & _ & _ & Hempty & _).
  split; [|split].
  - apply (Hdup _ _ eq_refl).
  - apply (Htwo _ _ _ eq_refl).
  - apply (Hempty eq_refl).
Defined.

(** ** Stores *)

(** Each store puts the Variable into the current state and adds at most
    the name to the marks. *)
Lemma any_store_shape (self self' : Frame) (name : string) (var : AbstractVariable) :
  store_local self name var = Ok self'
  \/ store_enclosing self name var = Ok self'
  \/ store_global self name var = Ok self'
  \/ store_deref self name var = Ok self' ->
  exists s e g,
    _current_state self = Some s
    /\ self' = set__shadowed_nonlocals
                 (set__current_state self (Some (State.store_local s name var)))
                 (mkShadowed e g)
    /\ (e = _enclosing (_shadowed_nonlocals self)
        \/ e = {[name]} ∪ _enclosing (_shadowed_nonlocals self))
    /\ (g = _globals (_shadowed_nonlocals self)
        \/ g = {[name]} ∪ _globals (_shadowed_nonlocals self)).
Proof.
  intros Hstore.
  assert (Hlocal : forall f', store_local self name var = Ok f' ->
    exists s, _current_state self = Some s
      /\ f' = set__shadowed_nonlocals
                (set__current_state self (Some (State.store_local s name var)))
                (mkShadowed (_enclosing (_shadowed_nonlocals self))
                   (_globals (_shadowed_nonlocals self)))).
  { intros f' (s & Hs & ->)%store_local_Ok. exists s. split; [done|].
    by destruct self as [? ? ? ? ? ? ? ? ? []]. }
  assert (Henc : forall f', store_enclosing self name var = Ok f' ->
    exists s, _current_state self = Some s
      /\ f' = set__shadowed_nonlocals
                (set__current_state self (Some (State.store_local s name var)))
                (mkShadowed ({[name]} ∪ _enclosing (_shadowed_nonlocals self))
                   (_globals (_shadowed_nonlocals self)))).
  { intros f' (f1 & (s & Hs & ->)%store_local_Ok & ->)%store_enclosing_Ok.
    by exists s. }
  destruct Hstore as [Hst|[Hst|[Hst|Hst]]].
  - apply Hlocal in Hst as (s & Hs & ->).
    eexists s, _, _. split; [exact Hs|]. split; [reflexivity|]. eauto.
  - apply Henc in Hst as (s & Hs & ->).
    eexists s, _, _. split; [exact Hs|]. split; [reflexivity|]. eauto.
  - apply store_global_Ok in Hst as (f1 & (s & Hs & ->)%store_local_Ok & ->).
    eexists s, _, _. split; [exact Hs|]. split; [reflexivity|]. simpl. eauto.
  - unfold store_deref in Hst. destruct (Dict.mem _ _).
    + apply Henc in Hst as (s & Hs & ->).
      eexists s, _, _. split; [exact Hs|]. split; [reflexivity|]. eauto.
    + apply Hlocal in Hst as (s & Hs & ->).
      eexists s, _, _. split; [exact Hs|]. split; [reflexivity|]. eauto.
Qed.

(** X4. A store into a frame changes only the current state and the marks:
    the data stack, the code, the initial scopes, the creating frame, the
    functions, classes and returns of the frame stay as they are. It binds
    the name to the Variable, leaves every other binding and the marks of
    every other name alone, and never removes a mark; [store_local] adds
    none, [store_global] marks the name as a global, [store_enclosing] as
    enclosing, and [store_deref] as enclosing exactly when the name is in the
    initial enclosing scope. *)
Theorem stores_change_state_and_marks (self self' : Frame) (name : string)
    (var : AbstractVariable) :
  store_local self name var = Ok self'
  \/ store_enclosing self name var = Ok self'
  \/ store_global self name var = Ok self'
  \/ store_deref self name var = Ok self' ->
  (_stack self' = _stack self /\ _code self' = _code self
   /\ _final_locals self' = _final_locals self
   /\ _functions self' = _functions self /\ _classes self' = _classes self
   /\ _returns self' = _returns self /\ same_scopes self self')
  /\ local_binding self' name = Some var
  /\ (forall n, n <> name ->
        local_binding self' n = local_binding self n
        /\ (marked_enclosing self' n <-> marked_enclosing self n)
        /\ (marked_global self' n <-> marked_global self n))
  /\ (marked_enclosing self name -> marked_enclosing self' name)
  /\ (marked_global self name -> marked_global self' name)
  /\ (store_local self name var = Ok self' ->
      _shadowed_nonlocals self' = _shadowed_nonlocals self)
  /\ (store_global self name var = Ok self' -> marked_global self' name)
  /\ (store_enclosing self name var = Ok self' -> marked_enclosing self' name)
  /\ (store_deref self name var = Ok self' ->
      (marked_enclosing self' name
       <-> marked_enclosing self name
           \/ Dict.mem (_initial_enclosing self) name = true)
      /\ (marked_global self' name <-> marked_global self name)).
Proof.
  intros Hstore.
  pose proof (any_store_shape self self' name var Hstore) as Hshape.
  destruct Hshape as (s & e & g & Hs & -> & He & Hg).
  unfold marked_enclosing, marked_global, local_binding, same_scopes. simpl.
  rewrite Hs.
  split; [repeat split; eauto|].
  split; [apply DictFacts.get_set_eq|].
  split.
  { intros n Hne. split; [by apply DictFacts.get_set_ne|].
    destruct He as [->| ->], Hg as [->| ->];
      rewrite ?elem_of_union, ?elem_of_singleton; intuition congruence. }
  split. { destruct He as [->| ->]; rewrite ?elem_of_union; tauto. }
  split. { destruct Hg as [->| ->]; rewrite ?elem_of_union; tauto. }
  split.
  { intros (s' & Hs' & Heq)%store_local_Ok.
    apply (f_equal _shadowed_nonlocals) in Heq. exact Heq. }
  split.
  { intros (f1 & _ & Heq)%store_global_Ok.
    apply (f_equal (fun f => _globals (_shadowed_nonlocals f))) in Heq.
    simpl in Heq. rewrite Heq.
    apply elem_of_union_l, elem_of_singleton. reflexivity. }
  split.
  { intros (f1 & _ & Heq)%store_enclosing_Ok.
    apply (f_equal (fun f => _enclosing (_shadowed_nonlocals f))) in Heq.
    simpl in Heq. rewrite Heq.
    apply elem_of_union_l, elem_of_singleton. reflexivity. }
  intros (_ & _ & _ & Hg' & He')%store_deref_Ok. simpl in Hg', He'.
  rewrite Hg', He'. split; [|reflexivity].
  destruct (Dict.mem _ _); rewrite ?elem_of_union, ?elem_of_singleton;
    intuition congruence.
Qed.

Lemma stores_change_state_and_marks_witness :
  local_binding example_g_written "y" = Some (to_variable (int_const 2) None)
  /\ marked_enclosing example_g_written "y"
  /\ _stack example_g_written = _stack example_g
  /\ (marked_global example_g_written "y" <-> marked_global example_g "y").
Proof.
  destruct (stores_change_state_and_marks example_g example_g_written "y"
              (to_variable (int_const 2) None))
    as ((Hstack & _) & Hbinding & _ & _ & _ & _ & _ & _ & Hderef).
  { right. right. right. vm_compute. reflexivity. }
  destruct Hderef as [Henc Hglob]; [vm_compute; reflexivity|].
  split; [exact Hbinding|]. split; [|split; [exact Hstack|exact Hglob]].
  apply Henc. right. reflexivity.
Defined.

(** ** Stores followed by loads *)

Lemma store_local_on_stack self st name var :
  store_local (set__stack self st) name var
  = do self' <- store_local self name var; Ok (set__stack self' st).
Proof.
  unfold store_local, current_state. simpl.
  by destruct (_current_state self).
Qed.

Section round_trips.
Context `{Collaborators}.

(** X5. [STORE_GLOBAL] followed by [LOAD_GLOBAL] of the same name reads the
    stored Variable back, in the module frame and in any other frame, whatever
    the initial globals and the builtins hold: in a frame with a current
    state and a value on the stack, [STORE_GLOBAL] pops the value, and
    [LOAD_GLOBAL] then pushes it under the name, on top of the [NULL] marker
    when the opcode asks for one. *)
Theorem store_global_load_global_round_trip (self : Frame) (name : string)
    (var : AbstractVariable) (rest : DataStack) (arg : N) :
  _stack self = var :: rest ->
  is_Some (_current_state self) ->
  exists self1,
    byte_STORE_GLOBAL self name = Ok self1
    /\ _stack self1 = rest
    /\ byte_LOAD_GLOBAL self1 arg name
       = Ok (set__stack self1
               (with_name var name
                :: (if version_ge (python_version (_code self)) (3, 11)
                       && negb (N.eqb (N.land arg 1) 0)
                    then [to_variable const_NULL None] else []) ++ rest)%list).
Proof.
  intros Hst Hs. unfold byte_STORE_GLOBAL. rewrite (pop_stack_cons _ _ _ Hst). simpl.
  destruct (store_global_total (set__stack self rest) name var Hs) as [self1 Hsg].
  rewrite Hsg. exists self1. split; [reflexivity|].
  pose proof (store_global_Ok' _ _ _ _ Hsg) as (Hsc & Hb & _ & _ & Hg).
  assert (Hstack : _stack self1 = rest).
  { apply store_global_Ok in Hsg as (f1 & (s & _ & ->)%store_local_Ok & ->).
    reflexivity. }
  assert (Hcode : _code self1 = _code self).
  { apply store_global_Ok in Hsg as (f1 & (s & _ & ->)%store_local_Ok & ->).
    reflexivity. }
  split; [exact Hstack|].
  assert (Hload : forall st, load_global (set__stack self1 st) name
                             = Ok (with_name var name)).
  { intros st. unfold load_global.
    destruct (_shadows_global (set__stack self1 st) name) eqn:Hsh.
    - by apply (load_state_binding (set__stack self1 st)).
    - assert (Hmod : _is_module_frame (set__stack self1 st) = true).
      { destruct (_is_module_frame (set__stack self1 st)) eqn:Hm; [done|].
        rewrite (proj2 (shadows_global_marked (set__stack self1 st) name Hm))
          in Hsh; [done|].
        unfold marked_global. simpl. rewrite Hg.
        apply elem_of_union_l, elem_of_singleton. reflexivity. }
      rewrite Hmod.
      by rewrite (load_state_binding (set__stack self1 st) name var Hb). }
  unfold byte_LOAD_GLOBAL. rewrite Hcode.
  destruct (version_ge _ _ && negb _); unfold push_stack, Stack.push.
  - rewrite Hload. simpl. by rewrite Hstack.
  - rewrite <- (set_stack_same self1) at 1. rewrite Hload. simpl.
    by rewrite Hstack.
Qed.

(** X6. [STORE_NAME] and [STORE_FAST] do the same, and what [LOAD_FAST] and
    [LOAD_NAME] read afterwards depends on the marks of the name: a name
    without a mark is read back by both; a name with a mark makes
    [LOAD_FAST] raise [KeyError]; [LOAD_NAME] still reads the stored
    Variable back unless the name is marked as enclosing in a frame that is
    not the module frame and is not marked as a global there. *)
Theorem store_name_load_name_round_trip (self : Frame) (name : string)
    (var : AbstractVariable) (rest : DataStack) :
  _stack self = var :: rest ->
  is_Some (_current_state self) ->
  exists self1,
    byte_STORE_NAME self name = Ok self1
    /\ byte_STORE_FAST self name = Ok self1
    /\ _stack self1 = rest
    /\ (_shadows_enclosing self name = false ->
        _shadows_global self name = false ->
        byte_LOAD_FAST self1 name = Ok (push_stack self1 (with_name var name))
        /\ byte_LOAD_NAME self1 name = Ok (push_stack self1 (with_name var name)))
    /\ (_shadows_enclosing self name || _shadows_global self name = true ->
        byte_LOAD_FAST self1 name = Raise (KeyError name))
    /\ (_shadows_global self name = true \/ _is_module_frame self = true ->
        byte_LOAD_NAME self1 name = Ok (push_stack self1 (with_name var name))).
Proof.
  intros Hst Hs. unfold byte_STORE_NAME, byte_STORE_FAST.
  rewrite (pop_stack_cons _ _ _ Hst). simpl.
  destruct (store_local_total (set__stack self rest) name var Hs) as [self1 Hsl].
  rewrite Hsl. exists self1. split; [reflexivity|]. split; [reflexivity|].
  pose proof (store_local_binding_eq _ _ _ _ Hsl) as Hb.
  apply store_local_Ok in Hsl as (s & Hstate & ->).
  split; [reflexivity|].
  assert (Hse : forall n, _shadows_enclosing
                  (set__current_state (set__stack self rest)
                     (Some (State.store_local s name var))) n
                = _shadows_enclosing self n) by reflexivity.
  assert (Hsg : forall n, _shadows_global
                  (set__current_state (set__stack self rest)
                     (Some (State.store_local s name var))) n
                = _shadows_global self n) by reflexivity.
  assert (Hmod : _is_module_frame
                  (set__current_state (set__stack self rest)
                     (Some (State.store_local s name var)))
                = _is_module_frame self) by reflexivity.
  set (self1 := set__current_state _ _) in *.
  split; [|split].
  - intros He Hg. unfold byte_LOAD_FAST, byte_LOAD_NAME.
    rewrite (load_local_visible self1 name var); [done| | |exact Hb].
    + by rewrite Hse.
    + by rewrite Hsg.
  - intros Hmark. unfold byte_LOAD_FAST.
    rewrite load_local_hidden; [done|]. by rewrite Hse, Hsg.
  - intros Hcase. unfold byte_LOAD_NAME.
    assert (Hglobal : load_global self1 name = Ok (with_name var name)).
    { unfold load_global. rewrite Hsg, Hmod.
      destruct (_shadows_global self name) eqn:Hg.
      - by apply load_state_binding.
      - destruct Hcase as [|Hm]; [done|]. rewrite Hm.
        by rewrite (load_state_binding self1 name var Hb). }
    unfold load_local. rewrite Hse, Hsg.
    destruct (_shadows_enclosing self name || _shadows_global self name).
    + unfold except_KeyError. by rewrite Hglobal.
    + by rewrite (load_state_binding self1 name var Hb).
Qed.

(** X7. [LOAD_NAME] looks a name without a mark up in the locals, then in
    the globals, then in the builtins: it pushes the local binding when the
    current state has one; otherwise, in a frame that is not the module
    frame, the binding of the initial globals when there is one; otherwise
    what the loader of builtins returns, as a Variable of that name, or the
    error the loader raises. In the module frame the locals are the
    globals. *)
Theorem load_name_lookup_order (self : Frame) (name : string) :
  is_Some (_current_state self) ->
  _shadows_enclosing self name = false ->
  _shadows_global self name = false ->
  byte_LOAD_NAME self name
  = match local_binding self name with
    | Some var => Ok (push_stack self (with_name var name))
    | None =>
        match (if _is_module_frame self then None
               else Dict.get (_initial_globals self) name) with
        | Some var => Ok (push_stack self (with_name var name))
        | None =>
            do builtin <- load_builtin_by_name name;
            Ok (push_stack self (to_variable builtin (Some name)))
        end
    end.
Proof.
  intros [s Hs] He Hg.
  unfold byte_LOAD_NAME, load_local, load_global, local_binding, current_state,
    State.load_local, Dict.getitem, load_builtin.
  rewrite He, Hg, Hs. simpl.
  destruct (Dict.get (_locals s) name) as [var|] eqn:Hl; simpl; [reflexivity|].
  destruct (_is_module_frame self); simpl.
  - by destruct (load_builtin_by_name name).
  - destruct (Dict.get (_initial_globals self) name); simpl; [reflexivity|].
    by destruct (load_builtin_by_name name).
Qed.

(** X8. In a frame that is not the module frame, the scopes outside the
    locals are snapshots that no store changes: after any store of any
    name, [load_global] of a name that is not marked as a global, and
    [load_enclosing] of a name that is not marked as enclosing, return what
    they returned before. *)
Theorem snapshots_are_fixed (self self' : Frame) (name name' : string)
    (var : AbstractVariable) :
  _is_module_frame self = false ->
  store_local self name var = Ok self'
  \/ store_enclosing self name var = Ok self'
  \/ store_global self name var = Ok self'
  \/ store_deref self name var = Ok self' ->
  (~ marked_global self' name' -> load_global self' name' = load_global self name')
  /\ (~ marked_enclosing self' name' ->
      load_enclosing self' name' = load_enclosing self name').
Proof.
  intros Hmod Hstore.
  destruct (any_store_shape self self' name var Hstore)
    as (s & e & g & Hs & -> & He & Hg).
  split.
  - intros Hmark. unfold marked_global in Hmark. simpl in Hmark.
    assert (Hmark0 : name' ∉ _globals (_shadowed_nonlocals self)).
    { intros Hin. apply Hmark. destruct Hg as [->| ->]; [done|].
      by apply elem_of_union_r. }
    unfold load_global, _shadows_global, _is_module_frame, Shadowed.has_global in *.
    simpl. rewrite Hmod.
    by rewrite !bool_decide_eq_false_2.
  - intros Hmark. unfold marked_enclosing in Hmark. simpl in Hmark.
    assert (Hmark0 : name' ∉ _enclosing (_shadowed_nonlocals self)).
    { intros Hin. apply Hmark. destruct He as [->| ->]; [done|].
      by apply elem_of_union_r. }
    unfold load_enclosing, _shadows_enclosing, Shadowed.has_enclosing. simpl.
    by rewrite !bool_decide_eq_false_2.
Qed.

End round_trips.

Lemma store_global_load_global_round_trip_witness :
  (exists self1,
      byte_STORE_GLOBAL example_g_with_value "n" = Ok self1
      /\ _stack self1 = []
      /\ @byte_LOAD_GLOBAL example_collaborators self1 1 "n"
         = Ok (set__stack self1
                 [with_name (to_variable (int_const 5) None) "n";
                  to_variable const_NULL None]))
  /\ (exists self1,
        byte_STORE_GLOBAL example_module_with_value "n" = Ok self1
        /\ _stack self1 = []
        /\ @byte_LOAD_GLOBAL example_collaborators self1 0 "n"
           = Ok (set__stack self1 [with_name (to_variable (int_const 5) None) "n"])).
Proof.
  split.
  - apply (@store_global_load_global_round_trip example_collaborators
             example_g_with_value "n" (to_variable (int_const 5) None) [] 1).
    + reflexivity.
    + vm_compute. eauto.
  - apply (@store_global_load_global_round_trip example_collaborators
             example_module_with_value "n" (to_variable (int_const 5) None) [] 0).
    + reflexivity.
    + vm_compute. eauto.
Defined.

Lemma store_name_load_name_round_trip_witness :
  exists self1,
    byte_STORE_NAME example_g_with_value "n" = Ok self1
    /\ byte_STORE_FAST example_g_with_value "n" = Ok self1
    /\ _stack self1 = []
    /\ byte_LOAD_FAST self1 "n"
       = Ok (push_stack self1 (with_name (to_variable (int_const 5) None) "n"))
    /\ @byte_LOAD_NAME example_collaborators self1 "n"
       = Ok (push_stack self1 (with_name (to_variable (int_const 5) None) "n")).
Proof.
  destruct (@store_name_load_name_round_trip example_collaborators
              example_g_with_value "n" (to_variable (int_const 5) None) [])
    as (self1 & Hname & Hfast & Hstack & Hplain & _).
  - reflexivity.
  - vm_compute. eauto.
  - exists self1. split; [exact Hname|]. split; [exact Hfast|].
    split; [exact Hstack|]. apply Hplain; reflexivity.
Defined.

Lemma load_name_lookup_order_witness :
  @byte_LOAD_NAME example_collaborators example_h "g"
  = Ok (push_stack example_h (with_name (to_variable example_instance None) "g"))
  /\ @byte_LOAD_NAME example_collaborators example_h "len"
     = Raise (KeyError "len").
Proof.
  split.
  - apply (@load_name_lookup_order example_collaborators example_h "g").
    + vm_compute. eauto.
    + reflexivity.
    + reflexivity.
  - apply (@load_name_lookup_order example_collaborators example_h "len").
    + vm_compute. eauto.
    + reflexivity.
    + reflexivity.
Defined.

Lemma snapshots_are_fixed_witness :
  @load_global example_collaborators example_g_written "y"
  = @load_global example_collaborators example_g "y"
  /\ (forall self',
        store_local example_h "g" (to_variable (int_const 1) None) = Ok self' ->
        @load_global example_collaborators self' "g"
        = Ok (with_name (to_variable example_instance None) "g")).
Proof.
  split.
  - apply (@snapshots_are_fixed example_collaborators example_g example_g_written
             "y" "y" (to_variable (int_const 2) None)).
    + reflexivity.
    + right. right. right. vm_compute. reflexivity.
    + unfold marked_global. simpl. apply not_elem_of_empty.
  - intros self' Hst.
    pose proof (@snapshots_are_fixed example_collaborators example_h self'
                  "g" "g" (to_variable (int_const 1) None) eq_refl
                  (or_introl Hst)) as [Hglobal _].
    rewrite Hglobal; [reflexivity|].
    apply store_local_Ok in Hst as (s & _ & ->).
    unfold marked_global. simpl. apply not_elem_of_empty.
Defined.

(** ** Child frames, in full *)

(** What [make_child_frame] binds a free variable to: the local binding of
    the frame that makes the child, or else its own enclosing snapshot. *)
Lemma child_enclosing_get self current_locals scope acc res :
  child_enclosing self current_locals scope acc = Ok res ->
  forall y,
    Dict.get res y
    = if bool_decide (y ∈ scope)
      then match Dict.get current_locals y with
           | Some var => Some var
           | None => Dict.get (_initial_enclosing self) y
           end
      else Dict.get acc y.
Proof.
  revert acc. induction scope as [|n0 rest IH]; intros acc Hc y; simpl in Hc.
  - injection Hc as <-. by rewrite bool_decide_eq_false_2 by apply not_elem_of_nil.
  - destruct (match Dict.get current_locals n0 with
              | Some var => _
              | None => _
              end) as [var0|] eqn:Hvar; simpl in Hc; [|done].
    rewrite (IH _ Hc y).
    assert (Hres : match Dict.get current_locals n0 with
                   | Some var => Some var
                   | None => Dict.get (_initial_enclosing self) n0
                   end = Some var0).
    { destruct (Dict.get current_locals n0).
      - destruct (assert _); simpl in Hvar; congruence.
      - by apply getitem_Ok. }
    destruct (decide (y ∈ rest)) as [Hin|Hin].
    + rewrite !bool_decide_eq_true_2; [done| |done]. by right.
    + rewrite (bool_decide_eq_false_2 _ Hin).
      destruct (decide (y = n0)) as [->|Hne].
      * rewrite bool_decide_eq_true_2 by left.
        by rewrite DictFacts.get_set_eq.
      * rewrite DictFacts.get_set_ne by done.
        rewrite bool_decide_eq_false_2; [done|].
        intros [?|?]%elem_of_cons; done.
Qed.

Lemma child_globals_get current_locals names acc res :
  child_globals current_locals names acc = Ok res ->
  forall n,
    Dict.get res n
    = if bool_decide (n ∈ names) then Dict.get current_locals n
      else Dict.get acc n.
Proof.
  revert acc. induction names as [|n0 rest IH]; intros acc Hc n; simpl in Hc.
  - injection Hc as <-. by rewrite bool_decide_eq_false_2 by apply not_elem_of_nil.
  - destruct (Dict.getitem current_locals n0) as [var0|] eqn:Hvar; simpl in Hc; [|done].
    apply getitem_Ok in Hvar. rewrite (IH _ Hc n).
    destruct (decide (n ∈ rest)) as [Hin|Hin].
    + rewrite !bool_decide_eq_true_2; [done| |done]. by right.
    + rewrite (bool_decide_eq_false_2 _ Hin).
      destruct (decide (n = n0)) as [->|Hne].
      * rewrite bool_decide_eq_true_2 by left.
        by rewrite DictFacts.get_set_eq.
      * rewrite DictFacts.get_set_ne by done.
        rewrite bool_decide_eq_false_2; [done|].
        intros [?|?]%elem_of_cons; done.
Qed.

(** [make_child_frame] of a frame that is running, step by step. *)
Lemma make_child_frame_running self s func_name func_code scope parent_frame
    initial_locals child :
  _final_locals self = None ->
  _current_state self = Some s ->
  make_child_frame self
    (InterpreterFunction func_name func_code scope parent_frame) initial_locals
  = Ok child ->
  exists enclosing globals,
    child_enclosing self (_locals s) scope [] = Ok enclosing
    /\ (if _is_module_frame self then Ok (_locals s)
        else child_globals (_locals s)
               (Shadowed.get_global_names (_shadowed_nonlocals self))
               (_initial_globals self)) = Ok globals
    /\ child = mkFrame func_name func_code (Some (mkBlockState initial_locals TRUE))
                 None None enclosing globals (Some self) [] Shadowed.init [] [] [].
Proof.
  intros Hfl Hs. unfold make_child_frame, current_state. rewrite Hfl, Hs. simpl.
  unfold State.get_locals.
  destruct (child_enclosing self (_locals s) scope []) as [enclosing|]; simpl; [|done].
  destruct (if _is_module_frame self then _ else _) as [globals|]; simpl; [|done].
  intros Hinit%Frame_init_Ok. by exists enclosing, globals.
Qed.

(** X9. The child frame that a running frame makes for a function starts
    with the given locals, no mark, an empty stack and the maker as its
    creating frame; its enclosing scope binds exactly the free variables of
    the function, each to the maker's local binding of the name if it has
    one and to the maker's own enclosing snapshot otherwise; and its globals
    are the maker's locals when the maker is the module frame, and otherwise
    the maker's initial globals with the names the maker has marked as
    globals rebound to its local bindings of them. *)
Theorem child_frame_scopes (self child : Frame) (s : BlockState)
    (func_name parent_frame : string) (func_code : OrderedCode)
    (scope : list string) (initial_locals : Dict.t AbstractVariable) :
  _final_locals self = None ->
  _current_state self = Some s ->
  make_child_frame self
    (InterpreterFunction func_name func_code scope parent_frame) initial_locals
  = Ok child ->
  (frame_name child = func_name /\ _code child = func_code
   /\ _f_back child = Some self
   /\ _current_state child = Some (mkBlockState initial_locals TRUE)
   /\ _shadowed_nonlocals child = Shadowed.init
   /\ _stack child = [] /\ final_locals child = None)
  /\ (forall y,
        Dict.get (_initial_enclosing child) y
        = if bool_decide (y ∈ scope)
          then match Dict.get (_locals s) y with
               | Some var => Some var
               | None => Dict.get (_initial_enclosing self) y
               end
          else None)
  /\ (forall y, y ∈ scope -> is_Some (Dict.get (_initial_enclosing child) y))
  /\ (forall n,
        Dict.get (_initial_globals child) n
        = if _is_module_frame self
             || Shadowed.has_global (_shadowed_nonlocals self) n
          then Dict.get (_locals s) n
          else Dict.get (_initial_globals self) n).
Proof.
  intros Hfl Hs Hmake.
  destruct (make_child_frame_running _ _ _ _ _ _ _ _ Hfl Hs Hmake)
    as (enclosing & globals & He & Hg & ->). simpl.
  split; [repeat split|]. split; [|split].
  - intros y. by rewrite (child_enclosing_get _ _ _ _ _ He y).
  - intros y Hin. apply child_enclosing_Ok in He as [_ Hscope].
    destruct (Hscope y Hin) as [Hmem _]. by apply DictFacts.mem_true in Hmem.
  - intros n. destruct (_is_module_frame self); simpl.
    + by injection Hg as <-.
    + rewrite (child_globals_get _ _ _ _ Hg n).
      unfold Shadowed.get_global_names, Shadowed.has_global.
      destruct (decide (n ∈ _globals (_shadowed_nonlocals self))) as [Hin|Hin].
      * rewrite !bool_decide_eq_true_2; [done|done|]. by apply elem_of_elements.
      * rewrite !bool_decide_eq_false_2; [done|done|]. by rewrite elem_of_elements.
Qed.

Lemma child_frame_scopes_witness :
  exists child,
    make_child_frame example_f
      (InterpreterFunction "g" (example_code 2 "g") ["y"] "f") [] = Ok child
    /\ _f_back child = Some example_f
    /\ Dict.get (_initial_enclosing child) "y" = Some (to_variable (int_const 1) None)
    /\ Dict.get (_initial_enclosing child) "z" = None.
Proof.
  assert (Hmake : exists child,
    make_child_frame example_f
      (InterpreterFunction "g" (example_code 2 "g") ["y"] "f") [] = Ok child).
  { eexists. vm_compute. reflexivity. }
  destruct Hmake as [child Hmake]. exists child. split; [exact Hmake|].
  destruct (child_frame_scopes example_f child
              (mkBlockState [("y", to_variable (int_const 1) None)] TRUE)
              "g" "f" (example_code 2 "g") ["y"] [] eq_refl eq_refl Hmake)
    as ((_ & _ & Hback & _) & Henc & _ & _).
  split; [exact Hback|]. split.
  - rewrite Henc. reflexivity.
  - rewrite Henc. reflexivity.
Defined.

Section child_views.
Context `{Collaborators}.

(** X10. A global written in a frame is a global of the frames it makes
    afterwards: after [store_global n v] in a running frame, [load_global n]
    in a child frame made for a function (one not named [__main__]) returns
    [v] under the name [n], whether the maker is the module frame or not. *)
Theorem global_write_visible_to_child (self self1 child : Frame) (n : string)
    (v : AbstractVariable) (func_name parent_frame : string)
    (func_code : OrderedCode) (scope : list string)
    (initial_locals : Dict.t AbstractVariable) :
  _final_locals self = None ->
  func_name <> "__main__" ->
  store_global self n v = Ok self1 ->
  make_child_frame self1
    (InterpreterFunction func_name func_code scope parent_frame) initial_locals
  = Ok child ->
  load_global child n = Ok (with_name v n).
Proof.
  intros Hfl Hname Hsg Hmake.
  pose proof (store_global_Ok' _ _ _ _ Hsg) as (_ & Hb & _ & _ & Hg).
  assert (Hfl1 : _final_locals self1 = None).
  { destruct (any_store_shape self self1 n v) as (s & e & g & _ & -> & _); [tauto|].
    exact Hfl. }
  unfold local_binding in Hb.
  destruct (_current_state self1) as [s1|] eqn:Hs1; [|done].
  destruct (make_child_frame_running _ _ _ _ _ _ _ _ Hfl1 Hs1 Hmake)
    as (enclosing & globals & _ & Hglobals & ->).
  assert (Hget : Dict.get globals n = Some v).
  { destruct (_is_module_frame self1).
    - by injection Hglobals as <-.
    - rewrite (child_globals_get _ _ _ _ Hglobals n).
      rewrite bool_decide_eq_true_2; [done|].
      unfold Shadowed.get_global_names. apply elem_of_elements. rewrite Hg.
      apply elem_of_union_l, elem_of_singleton. reflexivity. }
  unfold load_global, _shadows_global, _is_module_frame, Dict.getitem. simpl.
  rewrite (proj2 (String.eqb_neq _ _) Hname). simpl.
  by rewrite Hget.
Qed.

End child_views.

Lemma global_write_visible_to_child_witness :
  exists self1 child,
    store_global example_f "n" (to_variable (int_const 3) None) = Ok self1
    /\ make_child_frame self1
         (InterpreterFunction "g" (example_code 2 "g") [] "f") [] = Ok child
    /\ @load_global example_collaborators child "n"
       = Ok (with_name (to_variable (int_const 3) None) "n").
Proof.
  assert (Hrun : exists self1 child,
    store_global example_f "n" (to_variable (int_const 3) None) = Ok self1
    /\ make_child_frame self1
         (InterpreterFunction "g" (example_code 2 "g") [] "f") [] = Ok child).
  { eexists _, _. split; vm_compute; reflexivity. }
  destruct Hrun as (self1 & child & Hsg & Hmake). exists self1, child.
  split; [exact Hsg|]. split; [exact Hmake|].
  apply (@global_write_visible_to_child example_collaborators example_f self1 child
           "n" _ "g" "f" (example_code 2 "g") [] []);
    [reflexivity|discriminate|exact Hsg|exact Hmake].
Defined.

(** ** Frames that have finished *)

Lemma get_map_values {A B : Type} (f : A -> B) (d : Dict.t A) k :
  Dict.get (map (fun '(name, val) => (name, f val)) d) k
  = option_map f (Dict.get d k).
Proof.
  induction d as [|[k' v] d IH]; simpl; [done|]. by destruct (String.eqb k' k).
Qed.

Section finished.
Context `{Collaborators}.

(** What [run] returns: the frame the stepping loop ended in, with the
    creating frame as the fold-back left it, no current state, and the final
    locals. *)
Lemma run_Ok_shape (self0 self' : Frame) (writes : list AttrWrite) :
  run self0 = Ok (self', writes) ->
  exists self f_back fl,
    run_steps self0 = Ok self
    /\ _final_locals self = Some fl
    /\ self' = set_final_locals
                 (set__current_state (set__f_back self f_back) None)
                 (Some (map (fun '(name, var) => (name, join_values (values var))) fl)).
Proof.
  unfold run. intros Hrun.
  destruct (assert _); simpl in Hrun; [|done].
  destruct (run_steps self0) as [self|]; simpl in Hrun; [|done].
  destruct (assert _); simpl in Hrun; [|done].
  destruct (_merge_nonlocals_into self _) as [[merged w]|]; simpl in Hrun; [|done].
  exists self, (match merged with Some p => Some p | None => _f_back self end).
  destruct merged as [p|]; simpl in Hrun;
    destruct (_final_locals self) as [fl|]; try done;
    injection Hrun as <- <-; exists fl; (split; [reflexivity|]);
    (split; [reflexivity|]); [reflexivity|by destruct self].
Qed.

(** X11. A frame that [run] has finished has no current state, and its
    final locals are its final Variables, name by name and in their order,
    each flattened to one value as [flatten_variable] does. Every store into
    it fails, and so does [load_local] (with [KeyError] for a marked name);
    the reads of the snapshots ([load_enclosing] and [load_global] of names
    without a mark, outside the module frame) still succeed as before. *)
Theorem finished_frame_rejects_access (self0 self' : Frame)
    (writes : list AttrWrite) :
  run self0 = Ok (self', writes) ->
  _current_state self' = None
  /\ (exists fl,
        _final_locals self' = Some fl
        /\ final_locals self'
           = Some (map (fun '(name, var) => (name, flatten_variable var)) fl))
  /\ (forall name var,
        store_local self' name var = Raise AttributeError
        /\ store_enclosing self' name var = Raise AttributeError
        /\ store_global self' name var = Raise AttributeError
        /\ store_deref self' name var = Raise AttributeError)
  /\ (forall name,
        load_local self' name
        = if _shadows_enclosing self' name || _shadows_global self' name
          then Raise (KeyError name) else Raise AttributeError)
  /\ (forall name snapshot,
        _shadows_enclosing self' name = false ->
        Dict.get (_initial_enclosing self') name = Some snapshot ->
        load_enclosing self' name = Ok (with_name snapshot name))
  /\ (forall name snapshot,
        _is_module_frame self' = false ->
        _shadows_global self' name = false ->
        Dict.get (_initial_globals self') name = Some snapshot ->
        load_global self' name = Ok (with_name snapshot name)).
Proof.
  intros (self & f_back & fl & _ & Hfl & ->)%run_Ok_shape.
  split; [reflexivity|]. split.
  { exists fl. split; [exact Hfl|]. simpl. f_equal.
    apply map_ext. intros [name var]. by rewrite flatten_variable_join. }
  split.
  { intros name var.
    assert (Hsl : forall f, _current_state f = None ->
                            store_local f name var = Raise AttributeError).
    { intros f Hf. unfold store_local, current_state. by rewrite Hf. }
    unfold store_deref, store_enclosing, store_global.
    rewrite !Hsl by reflexivity. simpl. by destruct (Dict.mem _ _). }
  split.
  { intros name. unfold load_local. by destruct (_ || _). }
  split.
  { intros name snapshot He Hget. unfold load_enclosing, Dict.getitem.
    by rewrite He, Hget. }
  intros name snapshot Hmod Hg Hget. unfold load_global, Dict.getitem.
  by rewrite Hg, Hmod, Hget.
Qed.

(** X12. A frame that has finished with no final local at all cannot make
    a child frame: [make_child_frame] takes the final locals for the current
    locals only when there are some, and otherwise asks the current state,
    which is gone. With final locals, a child frame is made from them: a free
    variable of the function is bound to the final value of the name, as a
    Variable of its own without a name. *)
Theorem child_of_finished_frame (self : Frame) (func_name parent_frame : string)
    (func_code : OrderedCode) (scope : list string)
    (initial_locals : Dict.t AbstractVariable) :
  _current_state self = None ->
  (_final_locals self = Some [] ->
   make_child_frame self
     (InterpreterFunction func_name func_code scope parent_frame) initial_locals
   = Raise AttributeError)
  /\ (forall item items fl child y val,
        _final_locals self = Some (item :: items) ->
        final_locals self = Some fl ->
        make_child_frame self
          (InterpreterFunction func_name func_code scope parent_frame)
          initial_locals = Ok child ->
        y ∈ scope ->
        Dict.get fl y = Some val ->
        Dict.get (_initial_enclosing child) y = Some (to_variable val None)).
Proof.
  intros Hs. split.
  - intros Hfl. unfold make_child_frame, current_state. by rewrite Hfl, Hs.
  - intros item items fl child y val Hfl Hfin Hmake Hin Hget.
    unfold make_child_frame in Hmake. rewrite Hfl, Hfin in Hmake. simpl in Hmake.
    destruct (child_enclosing self _ scope []) as [enclosing|] eqn:He;
      simpl in Hmake; [|done].
    destruct (if _is_module_frame self then _ else _) as [globals|];
      simpl in Hmake; [|done].
    apply Frame_init_Ok in Hmake as ->. simpl.
    rewrite (child_enclosing_get _ _ _ _ _ He y).
    rewrite bool_decide_eq_true_2 by done.
    by rewrite (get_map_values (fun val => to_variable val None)), Hget.
Qed.

End finished.

Lemma finished_frame_rejects_access_witness :
  exists self' writes,
    @run example_collaborators example_m = Ok (self', writes)
    /\ _current_state self' = None
    /\ final_locals self' = Some [("s", example_instance); ("s.x", int_const 1)]
    /\ store_local self' "s" (to_variable (int_const 2) None) = Raise AttributeError
    /\ load_local self' "s" = Raise AttributeError.
Proof.
  assert (Hrun : exists self' writes,
    @run example_collaborators example_m = Ok (self', writes)
    /\ final_locals self' = Some [("s", example_instance); ("s.x", int_const 1)]
    /\ _shadows_enclosing self' "s" || _shadows_global self' "s" = false).
  { eexists _, _. split; [vm_compute; reflexivity|]. split; reflexivity. }
  destruct Hrun as (self' & writes & Hrun & Hfinal & Hmarks).
  destruct (@finished_frame_rejects_access example_collaborators _ _ _ Hrun)
    as (Hstate & _ & Hstores & Hload & _).
  exists self', writes. split; [exact Hrun|]. split; [exact Hstate|].
  split; [exact Hfinal|]. split; [apply Hstores|].
  rewrite Hload, Hmarks. reflexivity.
Defined.

Lemma child_of_finished_frame_witness :
  make_child_frame example_finished_empty
    (InterpreterFunction "h" (example_code 3 "h") [] "__main__") []
  = Raise AttributeError
  /\ exists child,
       make_child_frame example_finished_module
         (InterpreterFunction "h" (example_code 3 "h") ["g"] "__main__") []
       = Ok child
       /\ Dict.get (_initial_enclosing child) "g"
          = Some (to_variable example_instance None).
Proof.
  split.
  - apply (child_of_finished_frame example_finished_empty); reflexivity.
  - assert (Hmake : exists child,
      make_child_frame example_finished_module
        (InterpreterFunction "h" (example_code 3 "h") ["g"] "__main__") []
      = Ok child).
    { eexists. vm_compute. reflexivity. }
    destruct Hmake as [child Hmake]. exists child. split; [exact Hmake|].
    apply (proj2 (child_of_finished_frame example_finished_module
                    "h" "__main__" (example_code 3 "h") ["g"] [] eq_refl)
             _ _ _ child "g" example_instance eq_refl eq_refl Hmake).
    + apply list_elem_of_singleton. reflexivity.
    + reflexivity.
Defined.

(** ** Fold-back of the globals *)

Section global_fold_back.
Context `{Collaborators}.

(** X13. A global written in a frame reaches the frame that created it: when
    the frame finalizes while its creating frame is live, every name it has
    marked as a global is bound in the creating frame to the Variable the
    frame finally binds it to, is marked as a global there (so that it is
    passed on when the creating frame finalizes in turn), and is what the
    creating frame's [load_global] returns. *)
Theorem global_write_folds_back (self0 self parent : Frame)
    (fl : Dict.t AbstractVariable) (n : string) (var : AbstractVariable) :
  _stack self0 = [] -> run_steps self0 = Ok self -> _stack self = [] ->
  _f_back self = Some parent ->
  final_locals parent = None ->
  is_Some (_current_state parent) ->
  _final_locals self = Some fl ->
  (forall name, marked_enclosing self name \/ marked_global self name ->
                is_Some (Dict.get fl name)) ->
  marked_global self n ->
  Dict.get fl n = Some var ->
  exists self' parent' writes,
    run self0 = Ok (self', writes)
    /\ _f_back self' = Some parent'
    /\ local_binding parent' n = Some var
    /\ marked_global parent' n
    /\ load_global parent' n = Ok (with_name var n).
Proof.
  intros Hst0 Hrun Hst Hback Hlive Hs Hfl Hbound Hmark Hn.
  destruct (merge_nonlocals_live self fl parent Hfl Hs Hbound)
    as (frame1 & parent' & w & _ & Hm & Hsc & Hb & _ & _ & Hg).
  exists (set_final_locals
            (set__current_state (set__f_back self (Some parent')) None)
            (Some (map (fun '(name, var) => (name, join_values (values var))) fl))),
    parent', w.
  assert (Hbn : local_binding parent' n = Some var).
  { rewrite Hb by (by right). exact Hn. }
  assert (Hgn : marked_global parent' n) by (apply Hg; by right).
  split; [|split; [reflexivity|split; [exact Hbn|split; [exact Hgn|]]]].
  - rewrite (run_unfold self0 self fl Hst0 Hrun Hst Hfl).
    rewrite Hback, Hlive, Hm. reflexivity.
  - unfold load_global. destruct (_shadows_global parent' n) eqn:Hsh.
    + by apply load_state_binding.
    + destruct (_is_module_frame parent') eqn:Hmod.
      * by rewrite (load_state_binding parent' n var Hbn).
      * apply (shadows_global_marked _ _ Hmod) in Hgn. congruence.
Qed.

End global_fold_back.

Lemma global_write_folds_back_witness :
  exists self' parent' writes,
    @run example_collaborators example_g_global = Ok (self', writes)
    /\ _f_back self' = Some parent'
    /\ local_binding parent' "n" = Some (to_variable (int_const 3) None)
    /\ marked_global parent' "n"
    /\ @load_global example_collaborators parent' "n"
       = Ok (with_name (to_variable (int_const 3) None) "n").
Proof.
  apply (@global_write_folds_back example_collaborators example_g_global
           (set__final_locals example_g_global
              (Some [("n", to_variable (int_const 3) None)]))
           example_f [("n", to_variable (int_const 3) None)]).
  - reflexivity.
  - vm_compute. reflexivity.
  - reflexivity.
  - reflexivity.
  - reflexivity.
  - vm_compute. eauto.
  - reflexivity.
  - intros name Hmark. assert (name = "n") as ->.
    { unfold marked_enclosing, marked_global in Hmark. simpl in Hmark.
      destruct Hmark as [Hm|Hm].
      - by apply elem_of_empty in Hm.
      - apply elem_of_union in Hm as [Hm|Hm].
        + by apply elem_of_singleton in Hm.
        + by apply elem_of_empty in Hm. }
    vm_compute. eauto.
  - unfold marked_global. simpl. apply elem_of_union_l, elem_of_singleton.
    reflexivity.
  - reflexivity.
Defined.

(** ** The stack of frames *)

Lemma Frame_stack_unfold (self : Frame) :
  Frame_stack self
  = (match _f_back self with
     | Some f_back => Frame_stack f_back
     | None => []
     end ++ [self])%list.
Proof. by destruct self. Qed.

Lemma Frame_stack_links :
  forall self : Frame,
    (forall root rest, Frame_stack self = root :: rest -> _f_back root = None)
    /\ (forall i f g,
          Frame_stack self !! i = Some f -> Frame_stack self !! S i = Some g ->
          _f_back g = Some f).
Proof.
  fix IH 1. intros self.
  destruct self as [nm cd st fl1 fl2 ie ig fb sk sh fs cs rs].
  destruct fb as [p|]; simpl.
  - destruct (IH p) as [Hroot Hlink].
    pose proof (Frame_stack_unfold p) as Hp.
    set (init := match _f_back p with
                 | Some f_back => Frame_stack f_back
                 | None => []
                 end) in Hp.
    split.
    + intros root rest Heq. destruct (Frame_stack p) as [|r0 rs0].
      * by destruct init.
      * simpl in Heq. injection Heq as <- _. by eapply Hroot.
    + intros i f g Hf Hg.
      destruct (decide (S i < length (Frame_stack p))) as [Hlt|Hge].
      * rewrite lookup_app_l in Hf by lia. rewrite lookup_app_l in Hg by lia.
        by eapply Hlink.
      * assert (Hlen : S i = length (Frame_stack p)).
        { apply lookup_lt_Some in Hg. rewrite length_app in Hg. simpl in Hg. lia. }
        rewrite lookup_app_r in Hg by lia.
        replace (S i - length (Frame_stack p)) with 0 in Hg by lia.
        injection Hg as <-. simpl.
        rewrite lookup_app_l in Hf by lia.
        rewrite Hp in Hf, Hlen. rewrite length_app in Hlen. simpl in Hlen.
        rewrite lookup_app_r in Hf by lia.
        replace (i - length init) with 0 in Hf by lia. by injection Hf as <-.
  - split.
    + intros root rest [= <- _]. reflexivity.
    + intros i f g _ Hg. by destruct i.
Qed.

(** X14. The [stack] of a frame lists the frames from the outermost one to
    the frame itself: it ends with the frame, it starts with a frame that has
    no creating frame, each frame in it is the creating frame of the next,
    and the stack of a frame with a creating frame is the stack of that frame
    with the frame added. The stack of a child frame that a running frame
    makes is the stack of its maker with the child added. *)
Theorem frame_stack_chain (self : Frame) :
  last (Frame_stack self) = Some self
  /\ (forall root rest, Frame_stack self = root :: rest -> _f_back root = None)
  /\ (forall i f g,
        Frame_stack self !! i = Some f -> Frame_stack self !! S i = Some g ->
        _f_back g = Some f)
  /\ (forall parent, _f_back self = Some parent ->
        Frame_stack self = (Frame_stack parent ++ [self])%list)
  /\ (_f_back self = None -> Frame_stack self = [self])
  /\ (forall func initial_locals child,
        make_child_frame self func initial_locals = Ok child ->
        Frame_stack child = (Frame_stack self ++ [child])%list).
Proof.
  split; [|split; [|split; [|split; [|split]]]].
  - rewrite Frame_stack_unfold. apply last_snoc.
  - apply Frame_stack_links.
  - apply Frame_stack_links.
  - intros parent Hb. rewrite Frame_stack_unfold at 1. by rewrite Hb.
  - intros Hb. rewrite Frame_stack_unfold. by rewrite Hb.
  - intros func initial_locals child Hmake. unfold make_child_frame in Hmake.
    destruct func; try done.
    destruct (match _final_locals self with
              | Some (_ :: _) => _
              | _ => _
              end) as [current_locals|]; simpl in Hmake; [|done].
    destruct (child_enclosing _ _ _ _); simpl in Hmake; [|done].
    destruct (if _is_module_frame self then _ else _); simpl in Hmake; [|done].
    by apply Frame_init_Ok in Hmake as ->.
Qed.

Lemma frame_stack_chain_witness :
  Frame_stack example_g = [example_module; example_f; example_g]
  /\ _f_back example_f = Some example_module.
Proof.
  destruct (frame_stack_chain example_g) as (_ & _ & Hlink & Hparent & _).
  split.
  - rewrite (Hparent example_f eq_refl). reflexivity.
  - apply (Hlink 0); reflexivity.
Defined.

(** ** The call opcodes *)

Lemma popn_stack_args self (args : list AbstractVariable) rest :
  _stack self = (rev args ++ rest)%list ->
  popn_stack self (length args) = Ok (args, set__stack self rest).
Proof.
  intros Hst. unfold popn_stack, StackN.popn. rewrite Hst.
  rewrite (proj2 (Nat.ltb_ge _ _)) by (rewrite length_app, length_rev; lia).
  rewrite <- (length_rev args) at 1 2.
  rewrite take_app_length, drop_app_length, rev_involutive. reflexivity.
Qed.

Lemma popn_stack_short self n :
  length (_stack self) < n -> popn_stack self n = Raise IndexError.
Proof.
  intros Hlt. unfold popn_stack, StackN.popn.
  by rewrite (proj2 (Nat.ltb_lt _ _) Hlt).
Qed.

Lemma popn_stack_enough self n :
  n <= length (_stack self) ->
  popn_stack self n
  = Ok (rev (take n (_stack self)), set__stack self (drop n (_stack self))).
Proof.
  intros Hle. unfold popn_stack, StackN.popn.
  by rewrite (proj2 (Nat.ltb_ge _ _) Hle).
Qed.

Section call_opcodes.
Context `{Collaborators}.

(** X15. The three call opcodes simulate the same call: with the arguments
    on the stack above the callable, [CALL_FUNCTION] calls the callable with
    the arguments in the order they were pushed and leaves the rest of the
    stack; [CALL_METHOD] and [CALL] expect one more value under the callable
    and do the same, [CALL_METHOD] whatever that value is, [CALL] only when
    it is the [NULL] constant: otherwise [CALL] raises the unimplemented-call
    error. On a stack that is too short each of them raises [IndexError]. *)
Theorem call_opcodes_agree (self : Frame) (func null : AbstractVariable)
    (args : list AbstractVariable) (rest : DataStack) (n : nat) :
  n = length args ->
  (_stack self = (rev args ++ func :: rest)%list ->
   byte_CALL_FUNCTION self n
   = _call_function (set__stack self rest) func (mkArgs args))
  /\ (_stack self = (rev args ++ func :: null :: rest)%list ->
      byte_CALL_METHOD self n
      = _call_function (set__stack self rest) func (mkArgs args)
      /\ byte_CALL self n
         = if has_atomic_value null const_NULL
           then _call_function (set__stack self rest) func (mkArgs args)
           else Raise (NotImplementedError "CALL not fully implemented"))
  /\ (length (_stack self) < n + 1 ->
      byte_CALL_FUNCTION self n = Raise IndexError)
  /\ (length (_stack self) < n + 2 ->
      byte_CALL_METHOD self n = Raise IndexError
      /\ byte_CALL self n = Raise IndexError).
Proof.
  intros ->. split; [|split; [|split]].
  - intros Hst. unfold byte_CALL_FUNCTION.
    rewrite (popn_stack_args self args (func :: rest) Hst). cbn [rbind].
    rewrite (pop_stack_cons (set__stack self (func :: rest)) func rest eq_refl).
    reflexivity.
  - intros Hst. split.
    + unfold byte_CALL_METHOD.
      rewrite (popn_stack_args self args (func :: null :: rest) Hst). cbn [rbind].
      rewrite (pop_stack_cons (set__stack self (func :: null :: rest)) func
                 (null :: rest) eq_refl).
      reflexivity.
    + unfold byte_CALL.
      assert (Hst' : _stack self = (rev (null :: func :: args) ++ rest)%list).
      { rewrite Hst. simpl. by rewrite <- !app_assoc. }
      replace (length args + 2) with (length (null :: func :: args))
        by (simpl; lia).
      rewrite (popn_stack_args self _ rest Hst'). cbn [rbind].
      by destruct (has_atomic_value null const_NULL).
  - intros Hlt. unfold byte_CALL_FUNCTION.
    destruct (decide (length (_stack self) < length args)) as [Hs|Hs].
    + by rewrite popn_stack_short.
    + rewrite popn_stack_enough by lia. cbn [rbind].
      rewrite pop_stack_nil; [done|]. simpl.
      apply length_zero_iff_nil. rewrite length_drop. lia.
  - intros Hlt. split.
    + unfold byte_CALL_METHOD.
      destruct (decide (length (_stack self) < length args)) as [Hs|Hs].
      * by rewrite popn_stack_short.
      * rewrite popn_stack_enough by lia. cbn [rbind].
        assert (Hlen : length (drop (length args) (_stack self)) <= 1)
          by (rewrite length_drop; lia).
        unfold pop_stack, Stack.pop. simpl.
        destruct (drop (length args) (_stack self)) as [|f [|x xs]];
          simpl in *; try done. lia.
    + unfold byte_CALL. by rewrite popn_stack_short by lia.
Qed.

End call_opcodes.

(** ** Return values *)

(** X16. [RETURN_VALUE] pops the Variable on top of the stack and records
    it, and the return value of the frame is then the join of the values of
    all the Variables recorded so far, the new one last: for the first
    return of a frame it is the flattening of that Variable by itself, and a
    frame that has not returned anything has the return value [Any].
    [RETURN_VALUE] on an empty stack raises [IndexError]. *)
Theorem return_value_joins_returns (self : Frame) :
  (forall var rest,
      _stack self = var :: rest ->
      exists self',
        byte_RETURN_VALUE self = Ok self'
        /\ _stack self' = rest
        /\ _returns self' = (_returns self ++ [var])%list
        /\ get_return_value self'
           = join_values (concat (map values (_returns self)) ++ values var)%list
        /\ (_returns self = [] -> get_return_value self' = flatten_variable var))
  /\ (_returns self = [] -> get_return_value self = ANY)
  /\ (_stack self = [] -> byte_RETURN_VALUE self = Raise IndexError).
Proof.
  split; [|split].
  - intros var rest Hst. unfold byte_RETURN_VALUE.
    rewrite (pop_stack_cons _ _ _ Hst). simpl. eexists. split; [reflexivity|].
    split; [reflexivity|]. split; [reflexivity|].
    unfold get_return_value. simpl.
    rewrite map_app, concat_app. simpl. rewrite app_nil_r.
    split; [reflexivity|]. intros ->. simpl. by rewrite flatten_variable_join.
  - intros Hr. unfold get_return_value. by rewrite Hr.
  - intros Hst. unfold byte_RETURN_VALUE. by rewrite (pop_stack_nil _ Hst).
Qed.

Lemma return_value_joins_returns_witness :
  (exists self',
      byte_RETURN_VALUE example_g_with_value = Ok self'
      /\ _stack self' = []
      /\ _returns self' = [to_variable (int_const 5) None]
      /\ get_return_value self' = int_const 5)
  /\ get_return_value example_g = ANY
  /\ byte_RETURN_VALUE example_g = Raise IndexError.
Proof.
  destruct (return_value_joins_returns example_g_with_value) as (Hret & _ & _).
  destruct (return_value_joins_returns example_g) as (_ & Hnone & Hempty).
  split; [|split; [apply Hnone; reflexivity|apply Hempty; reflexivity]].
  destruct (Hret _ _ eq_refl) as (self' & Hr & Hst & Hrs & _ & Hflat).
  exists self'. split; [exact Hr|]. split; [exact Hst|]. split; [exact Hrs|].
  rewrite Hflat; reflexivity.
Defined.

Lemma call_opcodes_agree_witness :
  @byte_CALL example_collaborators example_calling 1
  = @_call_function example_collaborators example_module
      (to_variable (SimpleFunction "len") None)
      (mkArgs [to_variable (int_const 1) None])
  /\ @byte_CALL_METHOD example_collaborators example_calling 1
     = @_call_function example_collaborators example_module
         (to_variable (SimpleFunction "len") None)
         (mkArgs [to_variable (int_const 1) None])
  /\ @byte_CALL example_collaborators example_module 1 = Raise IndexError.
Proof.
  destruct (@call_opcodes_agree example_collaborators example_calling
              (to_variable (SimpleFunction "len") None)
              (to_variable const_NULL None)
              [to_variable (int_const 1) None] [] 1 eq_refl)
    as (_ & Hnull & _).
  destruct (Hnull eq_refl) as [Hmethod Hcall].
  destruct (@call_opcodes_agree example_collaborators example_module
              (to_variable ANY None) (to_variable ANY None)
              [to_variable (int_const 1) None] [] 1 eq_refl)
    as (_ & _ & _ & Hshort).
  split; [exact Hcall|]. split; [exact Hmethod|].
  apply Hshort. simpl. lia.
Defined.

(** ** Closures *)

Lemma load_deref_named self y v : load_deref self y = Ok v -> var_name v = Some y.
Proof.
  assert (Hstate : forall r, (do s <- current_state self; State.load_local s y) = Ok r ->
                             var_name r = Some y).
  { intros r. unfold current_state, State.load_local.
    destruct (_current_state self) as [s|]; simpl; [|done].
    destruct (Dict.getitem (_locals s) y); simpl; [|done]. by intros [= <-]. }
  assert (Henc : forall r, load_enclosing self y = Ok r -> var_name r = Some y).
  { intros r. unfold load_enclosing. destruct (_shadows_enclosing self y); [apply Hstate|].
    destruct (Dict.getitem _ y); simpl; [|done]. by intros [= <-]. }
  unfold load_deref, load_local. destruct (_ || _); simpl; [apply Henc|].
  destruct (do s <- current_state self; State.load_local s y) as [r|[]] eqn:Hl;
    simpl; try done.
  - intros [= <-]. by apply Hstate.
  - apply Henc.
Qed.

Section closures.
Context `{Collaborators}.

Lemma load_closures_stack self names vars st :
  Forall2 (fun y v => load_deref self y = Ok v) names vars ->
  load_closures (set__stack self st) names
  = Ok (set__stack self (rev vars ++ st)%list).
Proof.
  unfold load_closures. intros Hall. revert st.
  induction Hall as [|y v names vars Hy Hall IH]; intros st; [done|].
  cbn [fold_left].
  assert (Hstep : rbind (Ok (set__stack self st))
                    (fun self => byte_LOAD_CLOSURE self y)
                  = Ok (set__stack self (v :: st))).
  { cbn [rbind]. unfold byte_LOAD_CLOSURE.
    change (load_deref (set__stack self st) y) with (load_deref self y).
    by rewrite Hy. }
  rewrite Hstep, IH. simpl. by rewrite <- app_assoc.
Qed.

(** X17. Making a closure captures the names of its free variables: when
    each name of [names] can be read with [load_deref] and none is empty,
    then (from Python 3.11 on) [LOAD_CLOSURE] for each name, [BUILD_TUPLE],
    the push of the code constant and [MAKE_FUNCTION] with the free-variables
    flag succeed, leave the function as one Variable on top of the stack as
    it was, and the function has the qualified name of the code, the code,
    and exactly [names], in their order, as its enclosing scope; it is added
    to the functions of the frame unless [__build_class__] is on top of the
    stack underneath. *)
Theorem closure_captures_free_variables (self : Frame) (names : list string)
    (vars : list AbstractVariable) (code : OrderedCode) :
  Forall2 (fun y v => load_deref self y = Ok v) names vars ->
  Forall (fun y => y <> "") names ->
  MAKE_FUNCTION_HAS_FREE_VARS <> 0%N ->
  version_ge (python_version (_code self)) (3, 11) = true ->
  let func := InterpreterFunction (qualname code) code names (frame_name self) in
  (do self1 <- load_closures self names;
   do self2 <- byte_BUILD_TUPLE self1 (length names);
   byte_MAKE_FUNCTION
     (push_stack self2 (to_variable (PythonConstant (PyCode code)) None))
     MAKE_FUNCTION_HAS_FREE_VARS)
  = Ok (set__functions
          (set__stack self (to_variable func None :: _stack self))
          (if match _stack self with
              | top :: _ => has_atomic_value top const_build_class
              | [] => false
              end
           then _functions self
           else (_functions self ++ [func])%list)).
Proof.
  intros Hall Hne Hflag Hver func.
  rewrite <- (set_stack_same self) at 1.
  rewrite (load_closures_stack self names vars _ Hall). cbn [rbind].
  unfold byte_BUILD_TUPLE.
  rewrite (Forall2_length _ _ _ Hall).
  rewrite (popn_stack_args (set__stack self (rev vars ++ _stack self)%list)
             vars (_stack self) eq_refl). cbn [rbind].
  unfold byte_MAKE_FUNCTION.
  rewrite N.eqb_refl, orb_true_r. cbn [negb].
  change (python_version (_code (push_stack _ _)))
    with (python_version (_code self)).
  rewrite Hver. unfold push_stack, Stack.push, pop_stack, Stack.pop. cbn.
  rewrite N.land_diag, (proj2 (N.eqb_neq _ _) Hflag). cbn.
  assert (Hnames : map var_name vars = map Some names).
  { clear -Hall. induction Hall as [|y v names vars Hy _ IH]; simpl; [done|].
    by rewrite (load_deref_named _ _ _ Hy), IH. }
  unfold freevar_names. rewrite Hnames.
  assert (Hok : forallb (fun n : option string =>
                           match n with
                           | Some s => negb (String.eqb s "")
                           | None => false
                           end) (map Some names) = true).
  { clear -Hne. induction Hne as [|y names Hy _ IH]; simpl; [done|].
    by rewrite (proj2 (String.eqb_neq _ _) Hy), IH. }
  rewrite Hok. cbn.
  assert (Hext : map (fun n : option string =>
                        match n with Some s => s | None => "" end)
                     (map Some names) = names).
  { clear. induction names as [|y names IH]; simpl; [done|]. by rewrite IH. }
  rewrite Hext.
  destruct (_stack self) as [|top rest]; cbn; [reflexivity|].
  by destruct (has_atomic_value top const_build_class).
Qed.

End closures.

Lemma closure_captures_free_variables_witness :
  (do self1 <- @load_closures example_collaborators example_g ["y"];
   do self2 <- byte_BUILD_TUPLE self1 1;
   @byte_MAKE_FUNCTION example_collaborators
     (push_stack self2
        (to_variable (PythonConstant (PyCode (example_code 9 "g.<locals>.h"))) None))
     8)
  = Ok (set__functions
          (set__stack example_g
             [to_variable
                (InterpreterFunction "g.<locals>.h" (example_code 9 "g.<locals>.h")
                   ["y"] "g") None])
          [InterpreterFunction "g.<locals>.h" (example_code 9 "g.<locals>.h")
             ["y"] "g"]).
Proof.
  apply (@closure_captures_free_variables example_collaborators example_g ["y"]
           [with_name (to_variable (int_const 1) None) "y"]
           (example_code 9 "g.<locals>.h")).
  - constructor; [vm_compute; reflexivity|constructor].
  - constructor; [discriminate|constructor].
  - discriminate.
  - reflexivity.
Defined.

(** ** Attributes *)

Section attributes.
Context `{Collaborators} `{Attributes}.

Lemma attr_bindings_found targets attr_name attrs :
  Forall2 (fun v a => get_attribute v attr_name = Some a) targets attrs ->
  attr_bindings targets attr_name = Ok (map Binding_of attrs).
Proof.
  induction 1 as [|v a targets attrs Hv _ IH]; simpl; [done|].
  by rewrite Hv, IH.
Qed.

Lemma attr_bindings_missing targets attr_name :
  Exists (fun v => get_attribute v attr_name = None) targets ->
  attr_bindings targets attr_name = Raise (NotImplementedError "Attribute error").
Proof.
  induction 1 as [v targets Hv|v targets _ IH]; simpl.
  - by rewrite Hv.
  - destruct (get_attribute v attr_name); [|done]. by rewrite IH.
Qed.

(** X18. An attribute that has been stored is what is loaded: in a running
    frame, [STORE_ATTR] on a target Variable with a name binds the compound
    name made of the target name, a dot and the attribute name to the value
    it pops from under the target; and [LOAD_ATTR] of that attribute on any
    Variable of that name then pushes the stored Variable, under the compound
    name, without asking the values of the target for the attribute. A
    target without a name makes [STORE_ATTR] raise the unimplemented-operation
    error. *)
Theorem store_attr_load_attr_round_trip (self : Frame) (attr : string)
    (target value : AbstractVariable) (rest : DataStack) :
  _stack self = target :: value :: rest ->
  is_Some (_current_state self) ->
  (truthy_name target = None ->
   byte_STORE_ATTR self attr = Raise (NotImplementedError "Missing target name"))
  /\ (forall target_name,
        truthy_name target = Some target_name ->
        exists self1,
          byte_STORE_ATTR self attr = Ok self1
          /\ _stack self1 = rest
          /\ local_binding self1 (target_name ++ "." ++ attr) = Some value
          /\ (forall target',
                truthy_name target' = Some target_name ->
                _shadows_enclosing self (target_name ++ "." ++ attr) = false ->
                _shadows_global self (target_name ++ "." ++ attr) = false ->
                byte_LOAD_ATTR (push_stack self1 target') attr
                = Ok (push_stack self1
                        (with_name value (target_name ++ "." ++ attr))))).
Proof.
  intros Hst Hs.
  assert (Hpop : popn_stack self 2 = Ok ([value; target], set__stack self rest)).
  { apply (popn_stack_args self [value; target] rest). exact Hst. }
  split.
  - intros Hname. unfold byte_STORE_ATTR. rewrite Hpop. cbn [rbind].
    by rewrite Hname.
  - intros target_name Hname. unfold byte_STORE_ATTR. rewrite Hpop. cbn [rbind].
    rewrite Hname.
    destruct (store_local_total (set__stack self rest)
                (target_name ++ "." ++ attr) value Hs) as [self1 Hsl].
    rewrite Hsl. exists self1. split; [reflexivity|].
    pose proof (store_local_binding_eq _ _ _ _ Hsl) as Hb.
    apply store_local_Ok in Hsl as (s & _ & ->).
    split; [reflexivity|]. split; [exact Hb|].
    intros target' Hname' He Hg. unfold byte_LOAD_ATTR.
    set (self1 := set__current_state _ _) in *.
    rewrite (pop_stack_cons (push_stack self1 target') target' rest eq_refl).
    cbn [rbind]. unfold _load_attr. rewrite Hname'.
    rewrite (load_local_visible _ _ value); [reflexivity| | |exact Hb].
    + exact He.
    + exact Hg.
Qed.

(** X19. An attribute that has not been stored in the frame is read from
    the values of the target: when the frame has a current state and the
    compound name is not bound in it (or the target has no name),
    [_load_attr] returns one binding per value of the target, in their order,
    each with the attribute of that value, under the compound name; it raises
    the unimplemented-operation error as soon as one value lacks the
    attribute; and for a target without any value it returns a Variable
    without bindings. *)
Theorem load_attr_from_values (self : Frame) (target : AbstractVariable)
    (attr : string) :
  is_Some (_current_state self) ->
  (forall target_name, truthy_name target = Some target_name ->
                       local_binding self (target_name ++ "." ++ attr) = None) ->
  let name := option_map (fun target_name => target_name ++ "." ++ attr)
                (truthy_name target) in
  (forall attrs,
      Forall2 (fun v a => get_attribute v attr = Some a) (values target) attrs ->
      _load_attr self target attr = Ok (mkVariable (map Binding_of attrs) name))
  /\ (Exists (fun v => get_attribute v attr = None) (values target) ->
      _load_attr self target attr = Raise (NotImplementedError "Attribute error"))
  /\ (values target = [] -> _load_attr self target attr = Ok (mkVariable [] name)).
Proof.
  intros [s Hs] Hunbound name.
  assert (Hlocal : match truthy_name target with
                   | Some target_name =>
                       load_local self (target_name ++ "." ++ attr)
                   | None => do _ <- current_state self; Raise (KeyError "None")
                   end = Raise (KeyError
                                  match truthy_name target with
                                  | Some target_name => target_name ++ "." ++ attr
                                  | None => "None"
                                  end)).
  { destruct (truthy_name target) as [target_name|].
    - specialize (Hunbound target_name eq_refl).
      unfold load_local, current_state, State.load_local, Dict.getitem.
      destruct (_ || _); [done|]. rewrite Hs. simpl.
      unfold local_binding in Hunbound. rewrite Hs in Hunbound.
      by rewrite Hunbound.
    - unfold current_state. by rewrite Hs. }
  assert (Hunfold : _load_attr self target attr
                    = do bindings <- attr_bindings (values target) attr;
                      Ok (mkVariable bindings name)).
  { unfold _load_attr. subst name.
    destruct (truthy_name target); simpl in *; by rewrite Hlocal. }
  rewrite Hunfold. split; [|split].
  - intros attrs Hall. by rewrite (attr_bindings_found _ _ _ Hall).
  - intros Hex. by rewrite (attr_bindings_missing _ _ Hex).
  - intros ->. reflexivity.
Qed.

End attributes.

Lemma store_attr_load_attr_round_trip_witness :
  exists self1,
    byte_STORE_ATTR example_storing_attr "x" = Ok self1
    /\ _stack self1 = []
    /\ @byte_LOAD_ATTR example_attributes
         (push_stack self1 (with_name (to_variable ANY None) "s")) "x"
       = Ok (push_stack self1 (with_name (to_variable (int_const 1) None) "s.x")).
Proof.
  destruct (@store_attr_load_attr_round_trip example_attributes
              example_storing_attr "x"
              (with_name (to_variable example_instance None) "s")
              (to_variable (int_const 1) None) [] eq_refl
              (ex_intro _ _ eq_refl)) as [_ Hnamed].
  destruct (Hnamed "s" eq_refl) as (self1 & Hstore & Hstack & _ & Hload).
  exists self1. split; [exact Hstore|]. split; [exact Hstack|].
  apply (Hload (with_name (to_variable ANY None) "s")); reflexivity.
Defined.

Lemma load_attr_from_values_witness :
  @_load_attr example_attributes example_module
    (with_name (to_variable (BaseInstance example_class_C) None) "c") "a"
  = Ok (mkVariable [Binding_of (int_const 1)] (Some "c.a"))
  /\ @_load_attr example_attributes example_module
       (with_name (to_variable (BaseInstance example_class_C) None) "c") "b"
     = Raise (NotImplementedError "Attribute error").
Proof.
  assert (Hunbound : forall attr target_name,
             truthy_name
               (with_name (to_variable (BaseInstance example_class_C) None) "c")
             = Some target_name ->
             local_binding example_module (target_name ++ "." ++ attr) = None).
  { intros attr target_name [= <-]. reflexivity. }
  pose proof (@load_attr_from_values example_attributes example_module
                (with_name (to_variable (BaseInstance example_class_C) None) "c")
                "a" (ex_intro _ _ eq_refl) (Hunbound "a")) as [Hfound _].
  pose proof (@load_attr_from_values example_attributes example_module
                (with_name (to_variable (BaseInstance example_class_C) None) "c")
                "b" (ex_intro _ _ eq_refl) (Hunbound "b")) as (_ & Hmissing & _).
  split.
  - apply (Hfound [int_const 1]). repeat constructor.
  - apply Hmissing. constructor. reflexivity.
Defined.

(** ** Method calls *)

Section method_calls.
Context `{Collaborators} `{Attributes}.

Lemma load_attr_stack self st target_var attr_name :
  _load_attr (set__stack self st) target_var attr_name
  = _load_attr self target_var attr_name.
Proof. by destruct self. Qed.

(** X20. [LOAD_METHOD] prepares the stack for [CALL]: when the attribute
    of the Variable on top of the stack can be loaded, [LOAD_METHOD] replaces
    that Variable by the [NULL] constant with the attribute above it, where
    [LOAD_ATTR] leaves the attribute alone; and once the arguments are pushed,
    [CALL] finds the [NULL] constant under the callable and calls the
    attribute with the arguments, in the order they were pushed, in the frame
    with the rest of the stack. When the attribute cannot be loaded, both
    opcodes raise the error of [_load_attr]. *)
Theorem load_method_then_call (self : Frame) (instance_var : AbstractVariable)
    (rest : DataStack) (method_name : string) :
  _stack self = instance_var :: rest ->
  (forall method,
      _load_attr self instance_var method_name = Ok method ->
      byte_LOAD_ATTR self method_name = Ok (set__stack self (method :: rest))
      /\ byte_LOAD_METHOD self method_name
         = Ok (set__stack self (method :: to_variable const_NULL None :: rest))
      /\ forall args,
          byte_CALL
            (set__stack self
               (rev args ++ method :: to_variable const_NULL None :: rest)%list)
            (length args)
          = _call_function (set__stack self rest) method (mkArgs args))
  /\ (forall e,
        _load_attr self instance_var method_name = Raise e ->
        byte_LOAD_ATTR self method_name = Raise e
        /\ byte_LOAD_METHOD self method_name = Raise e).
Proof.
  intros Hst. split.
  - intros method Hload. split; [|split].
    + unfold byte_LOAD_ATTR. rewrite (pop_stack_cons _ _ _ Hst). cbn [rbind].
      by rewrite load_attr_stack, Hload.
    + unfold byte_LOAD_METHOD. rewrite (pop_stack_cons _ _ _ Hst). cbn [rbind].
      unfold push_stack. by rewrite load_attr_stack, load_attr_stack, Hload.
    + intros args. unfold byte_CALL.
      replace (length args + 2)
        with (length (to_variable const_NULL None :: method :: args))
        by (simpl; lia).
      rewrite (popn_stack_args _ (to_variable const_NULL None :: method :: args) rest)
        by (simpl; by rewrite <- !app_assoc).
      reflexivity.
  - intros e Hload. split.
    + unfold byte_LOAD_ATTR. rewrite (pop_stack_cons _ _ _ Hst). cbn [rbind].
      by rewrite load_attr_stack, Hload.
    + unfold byte_LOAD_METHOD. rewrite (pop_stack_cons _ _ _ Hst). cbn [rbind].
      unfold push_stack. by rewrite load_attr_stack, load_attr_stack, Hload.
Qed.

End method_calls.

Lemma load_method_then_call_witness :
  @byte_LOAD_METHOD example_attributes example_loading_method "m"
  = Ok (set__stack example_module
          [mkVariable [Binding_of (SimpleFunction "m")] (Some "d.m");
           to_variable const_NULL None])
  /\ @byte_CALL example_collaborators
       (set__stack example_module
          [to_variable (int_const 1) None;
           mkVariable [Binding_of (SimpleFunction "m")] (Some "d.m");
           to_variable const_NULL None]) 1
     = @_call_function example_collaborators example_module
         (mkVariable [Binding_of (SimpleFunction "m")] (Some "d.m"))
         (mkArgs [to_variable (int_const 1) None]).
Proof.
  destruct (@load_method_then_call example_collaborators example_attributes
              example_loading_method
              (with_name (to_variable (BaseInstance example_class_D) None) "d")
              [] "m" eq_refl) as [Hfound _].
  destruct (Hfound (mkVariable [Binding_of (SimpleFunction "m")] (Some "d.m"))
              eq_refl) as (_ & Hmethod & Hcall).
  split; [exact Hmethod|].
  exact (Hcall [to_variable (int_const 1) None]).
Defined.
